(** * GLIDE-Lite: corridor signal plan, TSP controller and bus-stop model

    A shallow embedding of the Python backend
    ([backend/core/glide/offsets.py], [backend/core/glide/tsp.py] and
    [backend/app_glide.py]) together with the properties stated about it.

    Numbers.  Python [int] is [Z].  Python [float] is embedded twice.
    Where a property depends on the value a float operation returns (the
    offsets, the green width, the thresholds of the TSP decision, the
    cooldown) the functions are embedded over IEEE binary64, with the
    primitive floats of Rocq and the semantics of Python's [/], [%],
    [int()] and of its comparisons with an [int] (modules [Double],
    [Offsets64] and [Tsp64]).  The other parts (the structure of the
    offset loop, the controller's bookkeeping, the SUMO control step and
    the simulation loop of the service) are embedded over exact rationals
    ([Q]); what is proved there is order, counting and bookkeeping, and does
    not depend on a rounded value.  Operations that raise in Python
    ([ZeroDivisionError], [ValueError], [OverflowError], [KeyError],
    [IndexError]) return [None]. *)

From Stdlib Require Import ZArith QArith Qround Qabs Qpower Lia Lqa List Permutation.
From Stdlib Require Floats Uint63.
From stdpp Require Import base option list gmap strings pretty.

Local Open Scope Z_scope.

(** ** Python numeric primitives *)

Module Py.

(** [int(x)] on a float: truncation toward zero. *)
Definition int (q : Q) : Z := Z.quot (Qnum q) (Z.pos (Qden q)).

(** [a / b] on floats; [ZeroDivisionError] is [None]. *)
Definition div (a b : Q) : option Q :=
  if Qeq_bool b 0 then None else Some (a / b)%Q.

(** [a % b] on floats: the result takes the sign of the divisor,
    [a - b * floor(a / b)]; [ZeroDivisionError] is [None]. *)
Definition fmod (a b : Q) : option Q :=
  if Qeq_bool b 0 then None
  else Some (a - b * inject_Z (Qfloor (a / b)))%Q.

(** [a % b] on ints (floored), as [Z.modulo]; Python raises for [b = 0]. *)
Definition imod (a b : Z) : option Z :=
  if b =? 0 then None else Some (a mod b).

Definition ltb (a b : Q) : bool := negb (Qle_bool b a).
Definition leb (a b : Q) : bool := Qle_bool a b.

Definition min (a b : Q) : Q := if ltb b a then b else a.
Definition max (a b : Q) : Q := if ltb a b then b else a.

(** [round(x)]: to the nearest integer, ties to the even one. *)
Definition round (q : Q) : Z :=
  let f := Qfloor q in
  let frac := (q - inject_Z f)%Q in
  if ltb frac (1 # 2) then f
  else if ltb (1 # 2) frac then f + 1
  else if Z.even f then f else f + 1.

(** [round(x, ndigits)] *)
Definition round_n (q : Q) (ndigits : nat) : Q :=
  let scale := inject_Z (10 ^ Z.of_nat ndigits) in
  (inject_Z (round (q * scale)) / scale)%Q.

(** [np.clip(x, lo, hi)], that is [minimum(maximum(x, lo), hi)]. *)
Definition clip (x lo hi : Q) : Q := min (max x lo) hi.

Lemma ltb_lt a b : ltb a b = true <-> (a < b)%Q.
Proof.
  unfold ltb. rewrite negb_true_iff. split.
  - intros H. apply Qnot_le_lt. intros Hle.
    apply Qle_bool_iff in Hle. congruence.
  - intros H. destruct (Qle_bool b a) eqn:E; [|reflexivity].
    apply Qle_bool_iff in E. exfalso. exact (Qlt_not_le _ _ H E).
Qed.

Lemma ltb_ge a b : ltb a b = false <-> (b <= a)%Q.
Proof.
  unfold ltb. rewrite negb_false_iff. apply Qle_bool_iff.
Qed.

Lemma leb_le a b : leb a b = true <-> (a <= b)%Q.
Proof. apply Qle_bool_iff. Qed.

Lemma leb_gt a b : leb a b = false <-> (b < a)%Q.
Proof.
  unfold leb. split.
  - intros H. apply Qnot_le_lt. intros Hle.
    apply Qle_bool_iff in Hle. congruence.
  - intros H. destruct (Qle_bool a b) eqn:E; [|reflexivity].
    apply Qle_bool_iff in E. exfalso. exact (Qlt_not_le _ _ H E).
Qed.

Lemma int_nonneg_floor q : (0 <= q)%Q -> int q = Qfloor q.
Proof.
  destruct q as [n d]. unfold int, Qfloor, Qle. simpl.
  intros H. apply Z.quot_div_nonneg; lia.
Qed.

Lemma int_comp_nonneg q q' : (0 <= q)%Q -> (q == q')%Q -> int q = int q'.
Proof.
  intros H0 He. rewrite !int_nonneg_floor.
  - now apply Qfloor_comp.
  - now rewrite <- He.
  - exact H0.
Qed.

Lemma fmod_range a b r :
  (0 < b)%Q -> fmod a b = Some r -> (0 <= r)%Q /\ (r < b)%Q.
Proof.
  intros Hb. unfold fmod.
  destruct (Qeq_bool b 0) eqn:E; [discriminate|].
  intros Hr.
  assert (Hr' : r = (a - b * inject_Z (Qfloor (a / b)))%Q) by congruence.
  subst r. clear Hr.
  assert (Hnz : ~ (b == 0)%Q) by (intros Hz; rewrite Hz in Hb; now apply Qlt_irrefl in Hb).
  pose proof (Qfloor_le (a / b)) as Hlo.
  pose proof (Qlt_floor (a / b)) as Hhi.
  rewrite inject_Z_plus in Hhi.
  assert (Ha : (a == b * (a / b))%Q) by (field; exact Hnz).
  set (k := inject_Z (Qfloor (a / b))) in *. clearbody k.
  apply (Qmult_le_l _ _ b Hb) in Hlo.
  apply (Qmult_lt_l _ _ b Hb) in Hhi.
  rewrite <- Ha in Hlo, Hhi.
  change (inject_Z 1) with 1%Q in Hhi.
  rewrite Qmult_plus_distr_r, Qmult_1_r in Hhi.
  set (bk := (b * k)%Q) in *. clearbody bk.
  split; lra.
Qed.

Lemma fmod_comp a a' b :
  (a == a')%Q -> option_Forall2 Qeq (fmod a b) (fmod a' b).
Proof.
  intros He. unfold fmod. destruct (Qeq_bool b 0); constructor.
  assert (Hf : Qfloor (a / b) = Qfloor (a' / b)).
  { apply Qfloor_comp. now rewrite He. }
  rewrite Hf, He. reflexivity.
Qed.

Lemma int_range_nonneg q (c : Z) :
  (0 <= q)%Q -> (q < inject_Z c)%Q -> 0 <= int q < c.
Proof.
  intros H0 Hc. rewrite (int_nonneg_floor _ H0). split.
  - change 0 with (Qfloor (inject_Z 0)) at 1.
    + apply Qfloor_resp_le. exact H0.
  - pose proof (Qfloor_le q) as Hfl.
    assert (Hlt : (inject_Z (Qfloor q) < inject_Z c)%Q)
      by (eapply Qle_lt_trans; eauto).
    now rewrite <- Zlt_Qlt in Hlt.
Qed.

End Py.

(** ** Binary64 cross-checks

    The few float products whose integer part a claim depends on are
    evaluated here in IEEE binary64 as well, to compare with the rational
    embedding. *)

Module Binary64.

Definition of_Z (k : Z) : PrimFloat.float := PrimFloat.of_uint63 (Uint63.of_Z k).

(** The float [0.6]: the quotient [6.0 / 10.0], correctly rounded. *)
Definition six_tenths : PrimFloat.float := PrimFloat.div (of_Z 6) (of_Z 10).

(** [int(f) == k] for a non-negative float [f]: [k <= f < k + 1]. *)
Definition int_is (f : PrimFloat.float) (k : Z) : bool :=
  PrimFloat.leb (of_Z k) f && PrimFloat.ltb f (of_Z (k + 1)).

(** The cycle lengths a request may carry: 30, ..., 180. *)
Definition cycles : list Z := map (fun n => 30 + Z.of_nat n) (seq 0 151).

End Binary64.

(** ** Python floats in binary64

    A Python [float] is an IEEE binary64 number.  The arithmetic is that of
    the primitive floats ([PrimFloat]), which the kernel evaluates as the
    processor does; the facts about it are proved from the specification
    of the primitives over [SpecFloat].  The operations of Python that are
    not primitives ([float(int)], [%], [int()], the comparison with an
    [int]) are defined on the exact value of a double. *)

Module Double.

Definition float : Set := PrimFloat.float.
Definition spec_float : Set := SpecFloat.spec_float.

Definition prec : Z := FloatOps.prec.
Definition emax : Z := FloatOps.emax.

Definition SF (f : float) : spec_float := FloatOps.Prim2SF f.

Definition pow2 (e : Z) : Q := Qpower 2 e.

Definition SF2Q (x : spec_float) : option Q :=
  match x with
  | SpecFloat.S754_zero _ => Some 0%Q
  | SpecFloat.S754_finite s m e =>
      Some (inject_Z (SpecFloat.cond_Zopp s (Z.pos m)) * pow2 e)%Q
  | _ => None
  end.

Lemma digits2_size p : SpecFloat.digits2_pos p = Pos.size p.
Proof. induction p; simpl; congruence. Qed.

Lemma digits2_bounds p :
  2 ^ (Z.pos (SpecFloat.digits2_pos p) - 1) <= Z.pos p
  < 2 ^ Z.pos (SpecFloat.digits2_pos p).
Proof.
  rewrite digits2_size. split.
  - pose proof (Pos.size_le p) as H.
    assert (H' : Z.pos (2 ^ Pos.size p) <= 2 * Z.pos p) by lia.
    rewrite Pos2Z.inj_pow in H'.
    replace (Z.pos (Pos.size p)) with (Z.succ (Z.pos (Pos.size p) - 1)) in H' by lia.
    rewrite Z.pow_succ_r in H' by lia. lia.
  - pose proof (Pos.size_gt p) as H.
    assert (H' : Z.pos p < Z.pos (2 ^ Pos.size p)) by lia.
    now rewrite Pos2Z.inj_pow in H'.
Qed.

Lemma digits2_le p q :
  Z.pos p <= Z.pos q ->
  Z.pos (SpecFloat.digits2_pos p) <= Z.pos (SpecFloat.digits2_pos q).
Proof.
  intros H. destruct (digits2_bounds p) as [Hp _].
  destruct (digits2_bounds q) as [_ Hq].
  assert (Hlt : 2 ^ (Z.pos (SpecFloat.digits2_pos p) - 1)
                < 2 ^ Z.pos (SpecFloat.digits2_pos q)) by lia.
  apply Z.pow_lt_mono_r_iff in Hlt; lia.
Qed.

Lemma iter_xO_pos p k : Z.pos (Pos.iter xO p k) = Z.pos p * 2 ^ Z.pos k.
Proof.
  induction k using Pos.peano_ind.
  - simpl. lia.
  - rewrite Pos.iter_succ, Pos2Z.inj_xO, IHk, Pos2Z.inj_succ, Z.pow_succ_r by lia. lia.
Qed.

Lemma iter_xO_digits p k :
  Z.pos (SpecFloat.digits2_pos (Pos.iter xO p k))
  = Z.pos (SpecFloat.digits2_pos p) + Z.pos k.
Proof.
  induction k using Pos.peano_ind.
  - simpl. lia.
  - rewrite Pos.iter_succ. simpl SpecFloat.digits2_pos.
    rewrite Pos2Z.inj_succ, IHk. lia.
Qed.

(** A canonical mantissa is left as it is by the rounding. *)
Lemma round_aux_canonical s m e :
  SpecFloat.fexp prec emax (Z.pos (SpecFloat.digits2_pos m) + e) = e ->
  e <= emax - prec ->
  SpecFloat.binary_round_aux prec emax s (Z.pos m) e SpecFloat.loc_Exact
  = SpecFloat.S754_finite s m e.
Proof.
  intros Hc He. unfold SpecFloat.binary_round_aux, SpecFloat.shr_fexp.
  cbn [SpecFloat.Zdigits2 SpecFloat.shr_record_of_loc].
  rewrite Hc, Z.sub_diag. cbn [SpecFloat.shr SpecFloat.shr_m SpecFloat.loc_of_shr_record
    SpecFloat.round_nearest_even SpecFloat.Zdigits2 SpecFloat.shr_record_of_loc].
  rewrite Hc, Z.sub_diag. cbn [SpecFloat.shr SpecFloat.shr_m].
  apply Z.leb_le in He. now rewrite He.
Qed.

(** A value with at most 53 digits above the least exponent is
    represented exactly. *)
Lemma binary_round_exact s p e :
  Z.pos (SpecFloat.digits2_pos p) <= prec ->
  SpecFloat.emin prec emax <= e ->
  Z.pos (SpecFloat.digits2_pos p) + e <= emax ->
  exists m t,
    SpecFloat.binary_round prec emax s p e = SpecFloat.S754_finite s m t
    /\ SpecFloat.bounded prec emax m t = true
    /\ t <= e /\ Z.pos m = Z.pos p * 2 ^ (e - t).
Proof.
  intros Hd He Hmax. unfold SpecFloat.binary_round, SpecFloat.shl_align.
  set (d := Z.pos (SpecFloat.digits2_pos p)) in *.
  set (t := SpecFloat.fexp prec emax (d + e)).
  assert (Ht : t <= e).
  { unfold t, SpecFloat.fexp. lia. }
  assert (Ht2 : t <= emax - prec).
  { unfold t, SpecFloat.fexp, SpecFloat.emin.
    unfold prec, emax, FloatOps.prec, FloatOps.emax in *. lia. }
  destruct (t - e) as [|k|k] eqn:Ek; try lia.
  - assert (Hte : t = e) by lia. unfold t in Hte.
    exists p, e. rewrite round_aux_canonical; [|exact Hte|lia].
    split; [reflexivity|]. split; [|split; [lia|rewrite Z.sub_diag; lia]].
    unfold SpecFloat.bounded, SpecFloat.canonical_mantissa. fold d. rewrite Hte.
    rewrite Z.eqb_refl. assert (Hb : (e <=? emax - prec) = true) by (apply Z.leb_le; lia).
    now rewrite Hb.
  - exists (Pos.iter xO p k), t.
    assert (Hdig : SpecFloat.fexp prec emax
                     (Z.pos (SpecFloat.digits2_pos (Pos.iter xO p k)) + t) = t).
    { rewrite iter_xO_digits. fold d. replace (d + Z.pos k + t) with (d + e) by lia.
      reflexivity. }
    rewrite round_aux_canonical; [|exact Hdig|exact Ht2].
    split; [reflexivity|]. split; [|split; [lia|]].
    + unfold SpecFloat.bounded, SpecFloat.canonical_mantissa. rewrite Hdig.
      rewrite Z.eqb_refl. apply Z.leb_le in Ht2. now rewrite Ht2.
    + rewrite iter_xO_pos. f_equal. f_equal. lia.
Qed.

(** *** Signs *)

(** Not negative: a zero of either sign, a positive number, [+inf]
    or a NaN. *)
Definition nn (x : spec_float) : Prop :=
  match x with
  | SpecFloat.S754_finite true _ _ | SpecFloat.S754_infinity true => False
  | _ => True
  end.

(** Positive: a positive number or [+inf]. *)
Definition positive_sf (x : spec_float) : Prop :=
  match x with
  | SpecFloat.S754_finite false _ _ | SpecFloat.S754_infinity false => True
  | _ => False
  end.

Lemma round_aux_sign s m e l :
  match SpecFloat.binary_round_aux prec emax s m e l with
  | SpecFloat.S754_zero s' | SpecFloat.S754_infinity s'
  | SpecFloat.S754_finite s' _ _ => s' = s
  | SpecFloat.S754_nan => True
  end.
Proof.
  unfold SpecFloat.binary_round_aux.
  destruct (SpecFloat.shr_fexp prec emax m e l) as [mrs e'].
  destruct (SpecFloat.shr_fexp prec emax _ e' SpecFloat.loc_Exact) as [mrs2 e2].
  destruct (SpecFloat.shr_m mrs2); [reflexivity| |exact I].
  destruct (e2 <=? emax - prec); reflexivity.
Qed.

Lemma round_aux_nn m e l : nn (SpecFloat.binary_round_aux prec emax false m e l).
Proof.
  pose proof (round_aux_sign false m e l) as H.
  destruct (SpecFloat.binary_round_aux prec emax false m e l); simpl; subst; exact I.
Qed.

Lemma nn_add x y :
  nn x -> nn y -> nn (SpecFloat.SFadd prec emax x y).
Proof.
  destruct x as [sx|[]| |[] mx ex]; destruct y as [sy|[]| |[] my ey];
    simpl; try tauto; try (destruct sx, sy; simpl; tauto).
  intros _ _. unfold SpecFloat.binary_round. 
  destruct (SpecFloat.shl_align _ _ _) as [mz ez]. apply round_aux_nn.
Qed.

Lemma nn_div x y :
  nn x -> nn y ->
  match y with SpecFloat.S754_zero _ => False | _ => True end ->
  nn (SpecFloat.SFdiv prec emax x y).
Proof.
  destruct x as [sx|[]| |[] mx ex]; destruct y as [sy|[]| |[] my ey];
    simpl; try tauto; try (destruct sx; simpl; tauto).
  intros _ _ _.
  destruct (SpecFloat.SFdiv_core_binary prec emax (Z.pos mx) ex (Z.pos my) ey)
    as [[mz ez] lz].
  apply round_aux_nn.
Qed.

Lemma nn_mul x y :
  nn x -> nn y -> nn (SpecFloat.SFmul prec emax x y).
Proof.
  destruct x as [sx|[]| |[] mx ex]; destruct y as [sy|[]| |[] my ey];
    simpl; try tauto; try (destruct sx; simpl; tauto);
    try (destruct sy; simpl; tauto); try (destruct sx, sy; simpl; tauto).
  intros _ _. apply round_aux_nn.
Qed.

(** *** Order

    The comparison of two doubles is the lexicographic comparison of their
    ranks; a NaN has no rank and compares with nothing. *)

Definition rank (x : spec_float) : option (Z * Z * Z) :=
  match x with
  | SpecFloat.S754_nan => None
  | SpecFloat.S754_infinity true => Some (0, 0, 0)
  | SpecFloat.S754_finite true m e => Some (1, - e, - Z.pos m)
  | SpecFloat.S754_zero _ => Some (2, 0, 0)
  | SpecFloat.S754_finite false m e => Some (3, e, Z.pos m)
  | SpecFloat.S754_infinity false => Some (4, 0, 0)
  end.

Definition lex_lt (a b : Z * Z * Z) : Prop :=
  a.1.1 < b.1.1
  \/ (a.1.1 = b.1.1 /\ (a.1.2 < b.1.2 \/ (a.1.2 = b.1.2 /\ a.2 < b.2))).

Lemma lex_lt_trans a b c : lex_lt a b -> lex_lt b c -> lex_lt a c.
Proof. unfold lex_lt. lia. Qed.

Lemma lex_lt_irrefl a : ~ lex_lt a a.
Proof. unfold lex_lt. lia. Qed.

Ltac rank_case :=
  split;
  [ intros H;
    first [ discriminate H
          | eexists; eexists; split; [reflexivity|]; split; [reflexivity|];
            unfold lex_lt; simpl; lia ]
  | intros (ra & rb & Ha & Hb & H);
    first [ discriminate Ha | discriminate Hb
          | injection Ha as <-; injection Hb as <-;
            unfold lex_lt in H; simpl in H; first [reflexivity | lia] ] ].

Lemma SFltb_rank a b :
  SpecFloat.SFltb a b = true
  <-> exists ra rb, rank a = Some ra /\ rank b = Some rb /\ lex_lt ra rb.
Proof.
  unfold SpecFloat.SFltb.
  destruct a as [[]|[]| |[] ma ea]; destruct b as [[]|[]| |[] mb eb];
    cbn [SpecFloat.SFcompare rank]; try rank_case.
  - change (Pos.compare_cont Eq ma mb) with (Pos.compare ma mb).
    destruct (Z.compare_spec ea eb) as [He|He|He];
      [destruct (Pos.compare_spec ma mb) as [Hm|Hm|Hm]| |]; simpl; rank_case.
  - change (Pos.compare_cont Eq ma mb) with (Pos.compare ma mb).
    destruct (Z.compare_spec ea eb) as [He|He|He];
      [destruct (Pos.compare_spec ma mb) as [Hm|Hm|Hm]| |]; simpl; rank_case.
Qed.

Lemma SFeqb_rank a b :
  SpecFloat.SFeqb a b = true -> exists r, rank a = Some r /\ rank b = Some r.
Proof.
  unfold SpecFloat.SFeqb.
  destruct a as [[]|[]| |[] ma ea]; destruct b as [[]|[]| |[] mb eb];
    cbn [SpecFloat.SFcompare rank]; try discriminate;
    try (intros _; eexists; split; reflexivity).
  - change (Pos.compare_cont Eq ma mb) with (Pos.compare ma mb).
    destruct (Z.compare_spec ea eb) as [He|He|He]; try discriminate.
    destruct (Pos.compare_spec ma mb) as [Hm|Hm|Hm]; try discriminate.
    subst. intros _. eexists; split; reflexivity.
  - change (Pos.compare_cont Eq ma mb) with (Pos.compare ma mb).
    destruct (Z.compare_spec ea eb) as [He|He|He]; try discriminate.
    destruct (Pos.compare_spec ma mb) as [Hm|Hm|Hm]; try discriminate.
    subst. intros _. eexists; split; reflexivity.
Qed.

(** [<] on doubles is transitive, and [==] is compatible with it. *)
Lemma ltb_trans a b c :
  PrimFloat.ltb a b = true -> PrimFloat.ltb b c = true -> PrimFloat.ltb a c = true.
Proof.
  rewrite !FloatAxioms.ltb_spec, !SFltb_rank.
  intros (ra & rb & Ha & Hb & H1) (rb' & rc & Hb' & Hc & H2).
  assert (rb' = rb) by congruence. subst rb'.
  exists ra, rc. split; [exact Ha|]. split; [exact Hc|].
  eapply lex_lt_trans; eauto.
Qed.

Lemma eqb_ltb_l a b c :
  PrimFloat.eqb a b = true -> PrimFloat.ltb a c = true -> PrimFloat.ltb b c = true.
Proof.
  rewrite FloatAxioms.eqb_spec, !FloatAxioms.ltb_spec, !SFltb_rank.
  intros He (ra & rc & Ha & Hc & H). apply SFeqb_rank in He as (r & Hr1 & Hr2).
  exists ra, rc. split; [congruence|]. split; [exact Hc | exact H].
Qed.

Lemma eqb_ltb_r a b c :
  PrimFloat.eqb a b = true -> PrimFloat.ltb c a = true -> PrimFloat.ltb c b = true.
Proof.
  rewrite FloatAxioms.eqb_spec, !FloatAxioms.ltb_spec, !SFltb_rank.
  intros He (rc & ra & Hc & Ha & H). apply SFeqb_rank in He as (r & Hr1 & Hr2).
  exists rc, ra. split; [exact Hc|]. split; [congruence | exact H].
Qed.

Lemma ltb_irrefl a : PrimFloat.ltb a a = false.
Proof.
  destruct (PrimFloat.ltb a a) eqn:E; [|reflexivity].
  rewrite FloatAxioms.ltb_spec, SFltb_rank in E.
  destruct E as (ra & rb & Ha & Hb & H).
  assert (rb = ra) by congruence. subst. now apply lex_lt_irrefl in H.
Qed.

(** *** Python operations on floats *)

(** The double nearest to [m * 2^e], ties to even. *)
Definition of_dyadic (m e : Z) : float :=
  FloatOps.SF2Prim (SpecFloat.binary_normalize prec emax m e false).

(** [float(k)] for a Python int [k]; [OverflowError] is [None]. *)
Definition of_int (k : Z) : option float :=
  match SpecFloat.binary_normalize prec emax k 0 false with
  | SpecFloat.S754_infinity _ => None
  | x => Some (FloatOps.SF2Prim x)
  end.

(** A float literal with an integer value, and a decimal literal [n / d]:
    the nearest double. *)
Definition lit (k : Z) : float := of_dyadic k 0.
Definition dec (n d : Z) : float := PrimFloat.div (lit n) (lit d).

(** The exact value of a finite double. *)
Definition value (f : float) : option Q := SF2Q (SF f).

Definition is_zero (f : float) : bool :=
  match SF f with SpecFloat.S754_zero _ => true | _ => false end.

Definition is_finite (f : float) : bool :=
  match SF f with
  | SpecFloat.S754_zero _ | SpecFloat.S754_finite _ _ _ => true
  | _ => false
  end.

(** [a / b]; [ZeroDivisionError] is [None]. *)
Definition truediv (a b : float) : option float :=
  if is_zero b then None else Some (PrimFloat.div a b).

(** [int(f)]: truncation toward zero; [ValueError] on a NaN and
    [OverflowError] on an infinity are [None]. *)
Definition int (f : float) : option Z := Py.int <$> value f.

(** C's [fmod(x, w)]: the exact remainder, with the sign of [x]. *)
Definition SFfmod (x w : spec_float) : spec_float :=
  match x, w with
  | SpecFloat.S754_nan, _ | _, SpecFloat.S754_nan => SpecFloat.S754_nan
  | SpecFloat.S754_infinity _, _ => SpecFloat.S754_nan
  | _, SpecFloat.S754_zero _ => SpecFloat.S754_nan
  | SpecFloat.S754_zero _, _ => x
  | _, SpecFloat.S754_infinity _ => x
  | SpecFloat.S754_finite sx mx ex, SpecFloat.S754_finite _ mw ew =>
      let e := Z.min ex ew in
      let X := Z.pos mx * 2 ^ (ex - e) in
      let W := Z.pos mw * 2 ^ (ew - e) in
      SpecFloat.binary_normalize prec emax (SpecFloat.cond_Zopp sx (X mod W)) e sx
  end.

Definition fmod (x w : float) : float := FloatOps.SF2Prim (SFfmod (SF x) (SF w)).

(** [x % w] on floats ([float_rem] of CPython): the remainder of [fmod],
    moved by [w] when it is not zero and its sign differs from the sign of
    [w]; a zero remainder takes the sign of [w].  [ZeroDivisionError] is
    [None]. *)
Definition rem (x w : float) : option float :=
  if is_zero w then None
  else
    let m := fmod x w in
    if is_zero m then
      Some (if PrimFloat.ltb w PrimFloat.zero then PrimFloat.neg_zero
            else PrimFloat.zero)
    else if Bool.eqb (PrimFloat.ltb w PrimFloat.zero) (PrimFloat.ltb m PrimFloat.zero)
         then Some m
         else Some (PrimFloat.add m w).

(** [x % k] and [x * k] with an int [k], which Python converts first. *)
Definition rem_int (x : float) (k : Z) : option float :=
  w ← of_int k; rem x w.

Definition mul_int (x : float) (k : Z) : option float :=
  w ← of_int k; Some (PrimFloat.mul x w).

(** [f >= k] and [f < k] for an int [k]: Python compares the exact
    values. *)
Definition ge_int (f : float) (k : Z) : bool :=
  match SF f with
  | SpecFloat.S754_nan => false
  | SpecFloat.S754_infinity s => negb s
  | x => match SF2Q x with Some q => Py.leb (inject_Z k) q | None => false end
  end.

Definition lt_int (f : float) (k : Z) : bool :=
  match SF f with
  | SpecFloat.S754_nan => false
  | SpecFloat.S754_infinity s => s
  | x => match SF2Q x with Some q => Py.ltb q (inject_Z k) | None => false end
  end.

(** *** Facts on the operations *)

Lemma pow2_pos e : (0 < pow2 e)%Q.
Proof. apply Qpower_0_lt. reflexivity. Qed.

Lemma pow2_add a b : (pow2 (a + b) == pow2 a * pow2 b)%Q.
Proof. apply Qpower_plus. discriminate. Qed.

Lemma pow2_Z n : 0 <= n -> (inject_Z (2 ^ n) == pow2 n)%Q.
Proof. intros H. unfold pow2. now rewrite Zpower_Qpower. Qed.

Lemma scaled_value m e t :
  t <= e ->
  (inject_Z (m * 2 ^ (e - t)) * pow2 t == inject_Z m * pow2 e)%Q.
Proof.
  intros H. rewrite inject_Z_mult, pow2_Z by lia.
  replace e with ((e - t) + t) at 2 by lia. rewrite pow2_add. ring.
Qed.

Lemma SF_valid x : SpecFloat.valid_binary prec emax x = true ->
  SF (FloatOps.SF2Prim x) = x.
Proof. apply FloatAxioms.Prim2SF_SF2Prim. Qed.

Lemma bounded_facts m e :
  SpecFloat.bounded prec emax m e = true ->
  Z.pos (SpecFloat.digits2_pos m) <= prec
  /\ SpecFloat.emin prec emax <= e /\ e <= emax - prec.
Proof.
  unfold SpecFloat.bounded, SpecFloat.canonical_mantissa, SpecFloat.fexp.
  intros H. apply andb_true_iff in H as [H1 H2].
  apply Z.eqb_eq in H1. apply Z.leb_le in H2. lia.
Qed.

Lemma SF_bounded f s m e :
  SF f = SpecFloat.S754_finite s m e -> SpecFloat.bounded prec emax m e = true.
Proof.
  intros H. pose proof (FloatAxioms.Prim2SF_valid f) as Hv.
  unfold SF in H. rewrite H in Hv. exact Hv.
Qed.

Lemma digits2_small p n : Z.pos p < 2 ^ n -> Z.pos (SpecFloat.digits2_pos p) <= n.
Proof.
  intros H. destruct (digits2_bounds p) as [Hp _].
  assert (Hlt : 2 ^ (Z.pos (SpecFloat.digits2_pos p) - 1) < 2 ^ n) by lia.
  destruct (Z_lt_le_dec n 0) as [Hn|Hn].
  - rewrite (Z.pow_neg_r 2 n Hn) in H. lia.
  - apply Z.pow_lt_mono_r_iff in Hlt; lia.
Qed.

(** An int below [2^53] converts exactly. *)
Lemma of_int_small c :
  0 < c < 2 ^ 53 ->
  exists w m t,
    of_int c = Some w /\ SF w = SpecFloat.S754_finite false m t
    /\ (inject_Z (Z.pos m) * pow2 t == inject_Z c)%Q.
Proof.
  intros [H0 H1]. destruct c as [|p|p]; try lia.
  unfold of_int. cbn [SpecFloat.binary_normalize].
  destruct (binary_round_exact false p 0) as (m & t & E & Hb & Ht & Hm).
  - apply digits2_small. exact H1.
  - unfold SpecFloat.emin, prec, emax. cbv. discriminate.
  - pose proof (digits2_small p 53 H1). unfold emax, FloatOps.emax. lia.
  - rewrite E. eexists _, m, t. split; [reflexivity|].
    split; [apply SF_valid; exact Hb|].
    rewrite Hm. rewrite scaled_value by lia.
    change (pow2 0) with 1%Q. ring.
Qed.

Lemma SF_zero : SF PrimFloat.zero = SpecFloat.S754_zero false.
Proof. reflexivity. Qed.

Lemma leb_zero_nn d : PrimFloat.leb PrimFloat.zero d = true -> nn (SF d).
Proof.
  rewrite FloatAxioms.leb_spec. fold (SF PrimFloat.zero). fold (SF d).
  rewrite SF_zero. unfold SpecFloat.SFleb.
  destruct (SF d) as [s|[]| |[] m e]; simpl; try discriminate; auto.
Qed.

Lemma ltb_zero_positive v :
  PrimFloat.ltb PrimFloat.zero v = true -> positive_sf (SF v).
Proof.
  rewrite FloatAxioms.ltb_spec. fold (SF PrimFloat.zero). fold (SF v).
  rewrite SF_zero. unfold SpecFloat.SFltb.
  destruct (SF v) as [s|[]| |[] m e]; simpl; try discriminate; auto.
Qed.

Lemma fmod_value q c X W e :
  0 < W ->
  (q == inject_Z X * pow2 e)%Q -> (inject_Z c == inject_Z W * pow2 e)%Q ->
  exists r, Py.fmod q (inject_Z c) = Some r
            /\ (r == inject_Z (X mod W) * pow2 e)%Q.
Proof.
  intros HW Hq Hc. pose proof (pow2_pos e) as Hp.
  assert (HWq : (0 < inject_Z W)%Q).
  { change 0%Q with (inject_Z 0). now rewrite <- Zlt_Qlt. }
  assert (Hcpos : (0 < inject_Z c)%Q).
  { rewrite Hc. apply Qmult_lt_0_compat; assumption. }
  unfold Py.fmod.
  destruct (Qeq_bool (inject_Z c) 0) eqn:E0.
  { apply Qeq_bool_iff in E0. rewrite E0 in Hcpos. now apply Qlt_irrefl in Hcpos. }
  eexists. split; [reflexivity|].
  assert (Hfl : Qfloor (q / inject_Z c) = X / W).
  { destruct W as [|wp|wp]; try lia.
    transitivity (Qfloor (X # wp)); [|reflexivity].
    apply Qfloor_comp. rewrite Hq, Hc.
    assert (Hpz : ~ (pow2 e == 0)%Q).
    { intros H. rewrite H in Hp. now apply Qlt_irrefl in Hp. }
    assert (HWz : ~ (inject_Z (Z.pos wp) == 0)%Q).
    { intros H. rewrite H in HWq. now apply Qlt_irrefl in HWq. }
    rewrite (Qmake_Qdiv X wp). field. auto. }
  rewrite Hfl, Hq, Hc.
  rewrite (Z.mod_eq X W) by lia.
  unfold Zminus. rewrite inject_Z_plus, inject_Z_opp, inject_Z_mult. ring.
Qed.

Lemma ltb_zero_finite_pos w m t :
  SF w = SpecFloat.S754_finite false m t -> PrimFloat.ltb w PrimFloat.zero = false.
Proof.
  intros H. rewrite FloatAxioms.ltb_spec. fold (SF w). fold (SF PrimFloat.zero).
  rewrite H, SF_zero. reflexivity.
Qed.

Lemma int_zero : int PrimFloat.zero = Some 0.
Proof. reflexivity. Qed.

(** [int(x % c)] for a finite, non-negative [x] and an int [0 < c < 2^53]:
    no step of it rounds, so the result is the truncated remainder of the
    exact value of [x]. *)
Lemma rem_int_nonneg x c :
  0 < c < 2 ^ 53 -> nn (SF x) -> is_finite x = true ->
  exists q r m,
    value x = Some q /\ (0 <= q)%Q
    /\ Py.fmod q (inject_Z c) = Some r
    /\ rem_int x c = Some m /\ int m = Some (Py.int r).
Proof.
  intros Hc Hnn Hfin.
  destruct (of_int_small c Hc) as (w & mw & tw & Ew & Hw & Hwv).
  pose proof (SF_bounded _ _ _ _ Hw) as Hbw. apply bounded_facts in Hbw.
  unfold rem_int. rewrite Ew. cbn [mbind option_bind].
  unfold rem, fmod.
  assert (Hzw : is_zero w = false) by (unfold is_zero; now rewrite Hw).
  rewrite Hzw, (ltb_zero_finite_pos _ _ _ Hw).
  unfold value, is_finite in *.
  destruct (SF x) as [s| | |[] mx ex] eqn:Ex; try discriminate; try contradiction.
  - rewrite Hw. cbn [SFfmod].
    assert (Hz : is_zero (FloatOps.SF2Prim (SpecFloat.S754_zero s)) = true).
    { unfold is_zero. now rewrite SF_valid. }
    rewrite Hz.
    destruct (fmod_value 0 c 0 c 0) as (r & Er & Hr); [lia| | |].
    { change (pow2 0) with 1%Q. ring. }
    { change (pow2 0) with 1%Q. ring. }
    exists 0%Q, r, PrimFloat.zero. cbn [SF2Q].
    split; [reflexivity|]. split; [apply Qle_refl|]. split; [exact Er|].
    split; [reflexivity|]. rewrite int_zero. f_equal.
    change 0 with (Py.int 0%Q) at 1. apply Py.int_comp_nonneg; [apply Qle_refl|].
    rewrite Hr. rewrite Z.mod_0_l by lia. ring.
  - pose proof (SF_bounded _ _ _ _ Ex) as Hbx. apply bounded_facts in Hbx.
    rewrite Hw. cbn [SFfmod SpecFloat.cond_Zopp SF2Q].
    set (e := Z.min ex tw).
    set (X := Z.pos mx * 2 ^ (ex - e)).
    set (W := Z.pos mw * 2 ^ (tw - e)).
    assert (HW : 0 < W).
    { unfold W. apply Z.mul_pos_pos; [lia|]. apply Z.pow_pos_nonneg; lia. }
    assert (HX : 0 <= X).
    { unfold X. apply Z.mul_nonneg_nonneg; [lia|]. apply Z.pow_nonneg. lia. }
    destruct (fmod_value (inject_Z (Z.pos mx) * pow2 ex) c X W e HW)
      as (r & Er & Hr).
    { unfold X. symmetry. apply scaled_value. lia. }
    { rewrite <- Hwv. unfold W. symmetry. apply scaled_value. lia. }
    pose proof (Z.mod_pos_bound X W HW) as HR.
    assert (Hq0 : (0 <= inject_Z (Z.pos mx) * pow2 ex)%Q).
    { apply Qmult_le_0_compat; [|apply Qlt_le_weak, pow2_pos].
      change 0%Q with (inject_Z 0). rewrite <- Zle_Qle. lia. }
    destruct (X mod W) as [|pr|pr] eqn:ER; [| |lia].
    + cbn [SpecFloat.binary_normalize].
      assert (Hz : is_zero (FloatOps.SF2Prim (SpecFloat.S754_zero false)) = true)
        by reflexivity.
      rewrite Hz.
      eexists _, r, PrimFloat.zero.
      split; [reflexivity|]. split; [exact Hq0|]. split; [exact Er|].
      split; [reflexivity|]. rewrite int_zero. f_equal.
      change 0 with (Py.int 0%Q) at 1. apply Py.int_comp_nonneg; [apply Qle_refl|].
      rewrite Hr. ring.
    + cbn [SpecFloat.binary_normalize].
      assert (Hd : Z.pos (SpecFloat.digits2_pos pr) <= prec).
      { destruct (Z_le_gt_dec ex tw) as [Hle|Hgt].
        - assert (Hpx : Z.pos pr <= Z.pos mx).
          { rewrite <- ER. etransitivity; [apply Z.mod_le; lia|].
            unfold X, e. rewrite Z.min_l by lia. rewrite Z.sub_diag. lia. }
          apply digits2_le in Hpx. lia.
        - assert (Hpw : Z.pos pr <= Z.pos mw).
          { assert (W = Z.pos mw).
            { unfold W, e. rewrite Z.min_r by lia. rewrite Z.sub_diag. lia. }
            lia. }
          apply digits2_le in Hpw. lia. }
      destruct (binary_round_exact false pr e) as (mr & tr & E & Hb & Ht & Hm).
      * exact Hd.
      * unfold e. lia.
      * unfold e. unfold prec, emax, FloatOps.prec, FloatOps.emax in *. lia.
      * rewrite E.
        assert (Hsf : SF (FloatOps.SF2Prim (SpecFloat.S754_finite false mr tr))
                      = SpecFloat.S754_finite false mr tr)
          by (apply SF_valid; exact Hb).
        assert (Hz : is_zero (FloatOps.SF2Prim (SpecFloat.S754_finite false mr tr))
                     = false) by (unfold is_zero; now rewrite Hsf).
        rewrite Hz, (ltb_zero_finite_pos _ _ _ Hsf). cbn [Bool.eqb].
        eexists _, r, _.
        split; [reflexivity|]. split; [exact Hq0|]. split; [exact Er|].
        split; [reflexivity|].
        unfold int, value. rewrite Hsf. cbn [SF2Q SpecFloat.cond_Zopp fmap option_fmap option_map].
        f_equal. apply Py.int_comp_nonneg.
        -- apply Qmult_le_0_compat; [|apply Qlt_le_weak, pow2_pos].
           change 0%Q with (inject_Z 0). rewrite <- Zle_Qle. lia.
        -- rewrite Hr, Hm. apply scaled_value. lia.
Qed.

(** On an infinity or a NaN, [int(x % w)] raises. *)
Lemma rem_int_not_finite x c :
  is_finite x = false -> (rem_int x c ≫= int) = None.
Proof.
  intros Hx. unfold rem_int.
  destruct (of_int c) as [w|]; [|reflexivity]. cbn [mbind option_bind].
  unfold rem. destruct (is_zero w) eqn:Ew; [reflexivity|].
  assert (Hm : fmod x w = PrimFloat.nan).
  { unfold fmod, is_finite, is_zero in *.
    destruct (SF x) as [s|s| |s m e]; try discriminate;
      destruct (SF w) as [s'|s'| |s' m' e']; try discriminate; reflexivity. }
  rewrite Hm.
  assert (Hn : forall a, PrimFloat.ltb PrimFloat.nan a = false).
  { intros a. rewrite FloatAxioms.ltb_spec. reflexivity. }
  assert (Hna : SF (PrimFloat.add PrimFloat.nan w) = SpecFloat.S754_nan).
  { unfold SF. rewrite FloatAxioms.add_spec. reflexivity. }
  rewrite Hn. cbn [is_zero]. change (is_zero PrimFloat.nan) with false. cbv iota.
  destruct (PrimFloat.ltb w PrimFloat.zero); cbn [Bool.eqb mbind option_bind].
  - unfold int, value. now rewrite Hna.
  - reflexivity.
Qed.

(** *** Rounding to nearest is monotone

    The rounding of the library shifts the mantissa to the right and
    rounds the shifted bits to nearest, ties to even.  Its result is put in
    closed form ([nearest]); it follows that a sum is never below the
    difference of the same doubles when the second is not negative. *)

Lemma iter_twice {A} (f : A -> A) k x :
  Nat.iter k f (Nat.iter k f x) = Nat.iter (k + k) f x.
Proof. now rewrite Nat.iter_add. Qed.

Lemma iter_pos_nat {A} (f : A -> A) n : forall x,
  SpecFloat.iter_pos f n x = Nat.iter (Pos.to_nat n) f x.
Proof.
  induction n as [n IH|n IH|]; intros x; cbn [SpecFloat.iter_pos].
  - rewrite !IH, iter_twice, <- Nat.iter_succ_r. f_equal. lia.
  - rewrite !IH, iter_twice. f_equal. lia.
  - reflexivity.
Qed.

(** Where a remainder [rho] lies in a step of width [N]. *)
Definition locate (rho N : Z) : SpecFloat.location :=
  if rho =? 0 then SpecFloat.loc_Exact
  else SpecFloat.loc_Inexact (2 * rho ?= N).

Lemma shr_1_nonneg m r s :
  0 <= m ->
  SpecFloat.shr_1 (SpecFloat.Build_shr_record m r s)
  = SpecFloat.Build_shr_record (m / 2) (Z.odd m) (r || s).
Proof.
  intros Hm. destruct m as [|[p|p|]|p]; try lia; cbn [SpecFloat.shr_1].
  - reflexivity.
  - f_equal. rewrite Pos2Z.inj_xI. apply Z.div_unique with 1; lia.
  - f_equal. rewrite Pos2Z.inj_xO. apply Z.div_unique with 0; lia.
  - reflexivity.
Qed.

(** [k] shifts to the right keep the quotient by [2^k] and the place of
    the remainder. *)
Lemma shr_iter p k :
  let rec := Nat.iter k SpecFloat.shr_1
               (SpecFloat.Build_shr_record (Z.pos p) false false) in
  SpecFloat.shr_m rec = Z.pos p / 2 ^ Z.of_nat k
  /\ SpecFloat.loc_of_shr_record rec
     = locate (Z.pos p mod 2 ^ Z.of_nat k) (2 ^ Z.of_nat k).
Proof.
  induction k as [|k IH]; cbn zeta.
  - unfold Nat.iter; cbn [nat_rect SpecFloat.shr_m SpecFloat.loc_of_shr_record].
    change (2 ^ Z.of_nat 0) with 1. rewrite Z.div_1_r, Z.mod_1_r. split; reflexivity.
  - rewrite Nat.iter_succ. cbn zeta in IH.
    destruct (Nat.iter k SpecFloat.shr_1 _) as [m r s].
    cbn [SpecFloat.shr_m] in IH. destruct IH as [Hm Hloc].
    assert (Hpow : 0 < 2 ^ Z.of_nat k) by (apply Z.pow_pos_nonneg; lia).
    assert (Hm0 : 0 <= m) by (rewrite Hm; apply Z.div_pos; lia).
    rewrite (shr_1_nonneg m r s Hm0). cbn [SpecFloat.shr_m].
    rewrite Nat2Z.inj_succ, Z.pow_succ_r by lia.
    set (N := 2 ^ Z.of_nat k) in *.
    set (rho := Z.pos p mod N) in *.
    pose proof (Z.mod_pos_bound (Z.pos p) N Hpow) as Hrho. fold rho in Hrho.
    pose proof (Z.div_mod (Z.pos p) N ltac:(lia)) as Hdm. fold rho in Hdm.
    rewrite <- Hm in Hdm.
    pose proof (Z.div_mod m 2 ltac:(lia)) as Hm2.
    pose proof (Z.mod_pos_bound m 2 ltac:(lia)) as Hb2.
    assert (Hq : Z.pos p / (2 * N) = m / 2).
    { symmetry. apply Z.div_unique with (N * (m mod 2) + rho); [nia|nia]. }
    assert (Hr : Z.pos p mod (2 * N) = N * (m mod 2) + rho).
    { symmetry. apply Z.mod_unique with (m / 2); [nia|nia]. }
    split; [now rewrite Hq, Hm|].
    rewrite Hr.
    assert (Hs : r || s = negb (rho =? 0)).
    { unfold locate in Hloc. destruct (rho =? 0) eqn:E0.
      - destruct r, s; simpl in Hloc |- *; congruence.
      - destruct r, s; simpl in Hloc |- *; try congruence; reflexivity. }
    rewrite Hs. rewrite Zodd_mod. unfold locate.
    destruct (Z.eqb_spec (m mod 2) 0) as [E2|E2];
      destruct (Z.eqb_spec rho 0) as [E0|E0]; cbn [negb Z.eqb SpecFloat.loc_of_shr_record].
    + assert (E : (m mod 2 =? 1) = false) by (apply Z.eqb_neq; lia). rewrite E.
      assert (E' : (N * (m mod 2) + rho =? 0) = true) by (apply Z.eqb_eq; nia).
      now rewrite E'.
    + assert (E : (m mod 2 =? 1) = false) by (apply Z.eqb_neq; lia). rewrite E.
      assert (E' : (N * (m mod 2) + rho =? 0) = false) by (apply Z.eqb_neq; nia).
      rewrite E'. f_equal. symmetry. apply Z.compare_lt_iff. nia.
    + assert (E : (m mod 2 =? 1) = true) by (apply Z.eqb_eq; lia). rewrite E.
      assert (E' : (N * (m mod 2) + rho =? 0) = false) by (apply Z.eqb_neq; nia).
      rewrite E'. f_equal. symmetry. apply Z.compare_eq_iff. nia.
    + assert (E : (m mod 2 =? 1) = true) by (apply Z.eqb_eq; lia). rewrite E.
      assert (E' : (N * (m mod 2) + rho =? 0) = false) by (apply Z.eqb_neq; nia).
      rewrite E'. f_equal. symmetry. apply Z.compare_gt_iff. nia.
Qed.

(** The double made of a sign, an exponent and a mantissa that may be
    zero, with overflow to infinity. *)
Definition mk (s : bool) (T M : Z) : spec_float :=
  match M with
  | Z0 => SpecFloat.S754_zero s
  | Z.pos m =>
      if T <=? emax - prec then SpecFloat.S754_finite s m T
      else SpecFloat.S754_infinity s
  | Z.neg _ => SpecFloat.S754_nan
  end.

(** Rounding to nearest, ties to even, of [q + rho / N]. *)
Definition rne (q rho N : Z) : Z :=
  SpecFloat.round_nearest_even q (locate rho N).

(** Exponent and mantissa of the double nearest to [p * 2^e]. *)
Definition nearest (p : positive) (e : Z) : Z * Z :=
  let t := SpecFloat.fexp prec emax (Z.pos (SpecFloat.digits2_pos p) + e) in
  if t <=? e then (t, Z.pos p * 2 ^ (e - t))
  else
    let N := 2 ^ (t - e) in
    let m1 := rne (Z.pos p / N) (Z.pos p mod N) N in
    if m1 =? 2 ^ prec then (t + 1, 2 ^ (prec - 1)) else (t, m1).

Lemma fexp_eq x : SpecFloat.fexp prec emax x = Z.max (x - 53) (-1074).
Proof. reflexivity. Qed.

Lemma rne_bounds q rho N : q <= rne q rho N <= q + 1.
Proof.
  unfold rne, locate, SpecFloat.round_nearest_even.
  destruct (rho =? 0); [lia|]. destruct (2 * rho ?= N); try lia.
  destruct (Z.even q); lia.
Qed.

Lemma rne_mono N a b :
  0 < N -> 0 <= a <= b ->
  rne (a / N) (a mod N) N <= rne (b / N) (b mod N) N.
Proof.
  intros HN Hab.
  pose proof (Z.div_le_mono a b N HN ltac:(lia)) as Hq.
  pose proof (rne_bounds (a / N) (a mod N) N) as Ba.
  pose proof (rne_bounds (b / N) (b mod N) N) as Bb.
  destruct (Z.eq_dec (a / N) (b / N)) as [E|E]; [|lia].
  pose proof (Z.div_mod a N ltac:(lia)) as Da.
  pose proof (Z.div_mod b N ltac:(lia)) as Db.
  pose proof (Z.mod_pos_bound a N HN) as Ra.
  pose proof (Z.mod_pos_bound b N HN) as Rb.
  assert (Hr : a mod N <= b mod N) by (rewrite E in Da; lia).
  revert Ba Bb. unfold rne, locate, SpecFloat.round_nearest_even. rewrite E.
  destruct (Z.eqb_spec (a mod N) 0) as [A0|A0]; [lia|].
  destruct (Z.eqb_spec (b mod N) 0) as [B0|B0]; [lia|].
  destruct (Z.compare_spec (2 * (a mod N)) N) as [Ca|Ca|Ca];
    destruct (Z.compare_spec (2 * (b mod N)) N) as [Cb|Cb|Cb];
    try lia; destruct (Z.even (b / N)); lia.
Qed.

(** The second half of a rounding: a mantissa of at most [2^53] is kept,
    and [2^53] itself moves to the next exponent. *)
Lemma round_tail s m1 t :
  SpecFloat.emin prec emax <= t -> 0 <= m1 <= 2 ^ prec ->
  (let '(mrs, e2) := SpecFloat.shr_fexp prec emax m1 t SpecFloat.loc_Exact in
   match SpecFloat.shr_m mrs with
   | Z0 => SpecFloat.S754_zero s
   | Z.pos m =>
       if e2 <=? emax - prec then SpecFloat.S754_finite s m e2
       else SpecFloat.S754_infinity s
   | Z.neg _ => SpecFloat.S754_nan
   end)
  = if m1 =? 2 ^ prec then mk s (t + 1) (2 ^ (prec - 1)) else mk s t m1.
Proof.
  intros Ht Hm. unfold SpecFloat.shr_fexp.
  cbn [SpecFloat.shr_record_of_loc].
  change (SpecFloat.emin prec emax) with (-1074) in Ht.
  change (2 ^ prec) with 9007199254740992 in *.
  destruct (Z.eqb_spec m1 9007199254740992) as [E|E].
  - subst m1. change (SpecFloat.Zdigits2 9007199254740992) with 54.
    rewrite fexp_eq.
    replace (Z.max (54 + t - 53) (-1074) - t) with 1 by lia.
    cbn [SpecFloat.shr SpecFloat.iter_pos SpecFloat.shr_1 SpecFloat.shr_m].
    reflexivity.
  - destruct m1 as [|m|m]; [| |lia].
    + cbn [SpecFloat.Zdigits2]. rewrite fexp_eq.
      destruct (Z.max (0 + t - 53) (-1074) - t) as [|k|k] eqn:Ek; try lia;
        reflexivity.
    + cbn [SpecFloat.Zdigits2].
      assert (Hd : Z.pos (SpecFloat.digits2_pos m) <= 53)
        by (apply digits2_small; change (2 ^ 53) with 9007199254740992; lia).
      rewrite fexp_eq.
      destruct (Z.max (Z.pos (SpecFloat.digits2_pos m) + t - 53) (-1074) - t)
        as [|k|k] eqn:Ek; try lia; reflexivity.
Qed.

(** The library's rounding of a positive mantissa, in closed form. *)
Lemma binary_round_nearest s p e :
  SpecFloat.binary_round prec emax s p e
  = mk s (nearest p e).1 (nearest p e).2.
Proof.
  unfold SpecFloat.binary_round, SpecFloat.shl_align, nearest.
  set (d := Z.pos (SpecFloat.digits2_pos p)).
  set (t := SpecFloat.fexp prec emax (d + e)).
  assert (Htmin : SpecFloat.emin prec emax <= t).
  { unfold t. rewrite fexp_eq. change (SpecFloat.emin prec emax) with (-1074). lia. }
  assert (Htd : d + e - 53 <= t) by (unfold t; rewrite fexp_eq; lia).
  destruct (Z.leb_spec t e) as [Hle|Hgt].
  - cbn [fst snd].
    assert (Hcan : forall mz, Z.pos (SpecFloat.digits2_pos mz) + t = d + e ->
      SpecFloat.binary_round_aux prec emax s (Z.pos mz) t SpecFloat.loc_Exact
      = mk s t (Z.pos mz)).
    { intros mz Hmz. unfold SpecFloat.binary_round_aux, SpecFloat.shr_fexp.
      cbn [SpecFloat.Zdigits2 SpecFloat.shr_record_of_loc].
      rewrite Hmz. fold t. rewrite Z.sub_diag.
      cbn [SpecFloat.shr SpecFloat.shr_m SpecFloat.loc_of_shr_record
           SpecFloat.round_nearest_even SpecFloat.Zdigits2
           SpecFloat.shr_record_of_loc].
      rewrite Hmz. fold t. rewrite Z.sub_diag. reflexivity. }
    destruct (t - e) as [|k|k] eqn:Ek; try lia.
    + assert (Hte : t = e) by lia. rewrite <- Hte at 1.
      rewrite Hcan by (fold d; lia).
      replace (e - t) with 0 by lia. now rewrite Z.mul_1_r.
    + rewrite Hcan by (rewrite iter_xO_digits; fold d; lia).
      rewrite iter_xO_pos. replace (e - t) with (Z.pos k) by lia. reflexivity.
  - destruct (t - e) as [|k|k] eqn:Ek; try lia.
    unfold SpecFloat.binary_round_aux.
    unfold SpecFloat.shr_fexp at 1.
    cbn [SpecFloat.Zdigits2 SpecFloat.shr_record_of_loc]. fold d. fold t.
    rewrite Ek. cbn [SpecFloat.shr].
    rewrite iter_pos_nat.
    destruct (shr_iter p (Pos.to_nat k)) as [Hm Hloc].
    rewrite positive_nat_Z in Hm, Hloc.
    rewrite Hm, Hloc.
    fold (rne (Z.pos p / 2 ^ Z.pos k) (Z.pos p mod 2 ^ Z.pos k) (2 ^ Z.pos k)).
    set (m1 := rne _ _ _).
    replace (e + Z.pos k) with t by lia.
    assert (HN : 0 < 2 ^ Z.pos k) by (apply Z.pow_pos_nonneg; lia).
    assert (Hq0 : 0 <= Z.pos p / 2 ^ Z.pos k) by (apply Z.div_pos; lia).
    assert (Hq1 : Z.pos p / 2 ^ Z.pos k < 2 ^ prec).
    { apply Z.div_lt_upper_bound; [lia|].
      destruct (digits2_bounds p) as [_ Hp]. fold d in Hp.
      rewrite <- Z.pow_add_r by (unfold prec, FloatOps.prec; lia).
      eapply Z.lt_le_trans; [exact Hp|].
      apply Z.pow_le_mono_r; unfold prec, FloatOps.prec; lia. }
    pose proof (rne_bounds (Z.pos p / 2 ^ Z.pos k) (Z.pos p mod 2 ^ Z.pos k)
                  (2 ^ Z.pos k)) as Hb. fold m1 in Hb.
    rewrite (round_tail s m1 t Htmin ltac:(lia)).
    destruct (m1 =? 2 ^ prec); reflexivity.
Qed.

(** The exponent chosen for [p * 2^e], the mantissa bounds that come with
    it. *)
Lemma nearest_spec p e :
  let t := SpecFloat.fexp prec emax (Z.pos (SpecFloat.digits2_pos p) + e) in
  ((nearest p e).1 = t \/ ((nearest p e).1 = t + 1 /\ (nearest p e).2 = 2 ^ (prec - 1)))
  /\ 0 <= (nearest p e).2
  /\ (SpecFloat.emin prec emax < t -> 2 ^ (prec - 1) <= (nearest p e).2).
Proof.
  cbn zeta. unfold nearest.
  set (d := Z.pos (SpecFloat.digits2_pos p)).
  set (t := SpecFloat.fexp prec emax (d + e)).
  destruct (digits2_bounds p) as [Hlo Hhi]. fold d in Hlo, Hhi.
  assert (Hd : 1 <= d) by (unfold d; lia).
  change (SpecFloat.emin prec emax) with (-1074).
  assert (Ht : t = Z.max (d + e - 53) (-1074)) by (unfold t; now rewrite fexp_eq).
  change (prec - 1) with 52.
  destruct (Z.leb_spec t e) as [Hle|Hgt]; cbn [fst snd].
  - assert (HN : 0 < 2 ^ (e - t)) by (apply Z.pow_pos_nonneg; lia).
    split; [now left|]. split; [nia|].
    intros Hn. assert (Htd : t = d + e - 53) by lia.
    replace 52 with ((d - 1) + (e - t)) by lia.
    rewrite Z.pow_add_r by lia. nia.
  - set (N := 2 ^ (t - e)).
    assert (HN : 0 < N) by (apply Z.pow_pos_nonneg; lia).
    pose proof (rne_bounds (Z.pos p / N) (Z.pos p mod N) N) as Hb.
    set (m1 := rne _ _ _) in *.
    assert (Hq0 : 0 <= Z.pos p / N) by (apply Z.div_pos; lia).
    destruct (Z.eqb_spec m1 (2 ^ prec)) as [E|E]; cbn [fst snd].
    + split; [right; split; reflexivity|]. split; [lia|]. lia.
    + split; [now left|]. split; [lia|].
      intros Hn. assert (Htd : t = d + e - 53) by lia.
      assert (Hq : 2 ^ 52 <= Z.pos p / N).
      { apply Z.div_le_lower_bound; [lia|]. unfold N.
        rewrite Z.mul_comm, <- Z.pow_add_r by lia.
        replace (52 + (t - e)) with (d - 1) by lia. exact Hlo. }
      lia.
Qed.

Lemma nearest_same_exponent p1 p2 e :
  Z.pos p1 <= Z.pos p2 ->
  SpecFloat.fexp prec emax (Z.pos (SpecFloat.digits2_pos p1) + e)
  = SpecFloat.fexp prec emax (Z.pos (SpecFloat.digits2_pos p2) + e) ->
  ((nearest p1 e).1 < (nearest p2 e).1 /\ 0 < (nearest p2 e).2)
  \/ ((nearest p1 e).1 = (nearest p2 e).1 /\ (nearest p1 e).2 <= (nearest p2 e).2).
Proof.
  intros Hp Ht. unfold nearest. rewrite Ht.
  set (d := Z.pos (SpecFloat.digits2_pos p2)).
  set (t := SpecFloat.fexp prec emax (d + e)).
  destruct (Z.leb_spec t e) as [Hle|Hgt]; cbn [fst snd].
  - right. split; [reflexivity|].
    assert (HN : 0 < 2 ^ (e - t)) by (apply Z.pow_pos_nonneg; lia). nia.
  - set (N := 2 ^ (t - e)).
    assert (HN : 0 < N) by (apply Z.pow_pos_nonneg; lia).
    pose proof (rne_mono N (Z.pos p1) (Z.pos p2) HN ltac:(lia)) as Hm.
    pose proof (rne_bounds (Z.pos p2 / N) (Z.pos p2 mod N) N) as Hb.
    assert (Hq : Z.pos p2 / N < 2 ^ prec).
    { apply Z.div_lt_upper_bound; [lia|].
      destruct (digits2_bounds p2) as [_ Hhi]. fold d in Hhi.
      unfold N. rewrite <- Z.pow_add_r by (unfold prec, FloatOps.prec; lia).
      eapply Z.lt_le_trans; [exact Hhi|].
      apply Z.pow_le_mono_r; [lia|].
      unfold t. rewrite fexp_eq. unfold prec, FloatOps.prec. lia. }
    set (a := rne (Z.pos p1 / N) _ _) in *.
    set (b := rne (Z.pos p2 / N) _ _) in *.
    assert (Hpos : 0 < 2 ^ (prec - 1)) by reflexivity.
    destruct (Z.eqb_spec a (2 ^ prec)) as [Ea|Ea];
      destruct (Z.eqb_spec b (2 ^ prec)) as [Eb|Eb]; cbn [fst snd]; lia.
Qed.

(** Rounding to nearest is monotone: a larger mantissa at the same
    exponent gives a double that is not smaller. *)
Lemma nearest_mono p1 p2 e :
  Z.pos p1 <= Z.pos p2 ->
  ((nearest p1 e).1 < (nearest p2 e).1 /\ 0 < (nearest p2 e).2)
  \/ ((nearest p1 e).1 = (nearest p2 e).1 /\ (nearest p1 e).2 <= (nearest p2 e).2).
Proof.
  intros Hp.
  pose proof (digits2_le p1 p2 Hp) as Hd.
  destruct (Z.eq_dec
    (SpecFloat.fexp prec emax (Z.pos (SpecFloat.digits2_pos p1) + e))
    (SpecFloat.fexp prec emax (Z.pos (SpecFloat.digits2_pos p2) + e))) as [E|E].
  - now apply nearest_same_exponent.
  - destruct (nearest_spec p1 e) as (H1 & _ & _).
    destruct (nearest_spec p2 e) as (H2 & _ & Hn2).
    cbn zeta in H1, H2, Hn2. rewrite !fexp_eq in *.
    change (SpecFloat.emin prec emax) with (-1074) in Hn2.
    assert (Hpos : 0 < 2 ^ (prec - 1)) by reflexivity.
    lia.
Qed.

Lemma mk_mono T1 M1 T2 M2 :
  0 <= M1 -> 0 <= M2 ->
  (T1 < T2 /\ 0 < M2) \/ (T1 = T2 /\ M1 <= M2) ->
  SpecFloat.SFltb (mk false T2 M2) (mk false T1 M1) = false
  /\ SpecFloat.SFltb (mk true T1 M1) (mk true T2 M2) = false.
Proof.
  intros H1 H2 H. unfold mk.
  destruct M1 as [|m1|m1]; destruct M2 as [|m2|m2]; try lia;
    destruct (Z.leb_spec T1 (emax - prec)); destruct (Z.leb_spec T2 (emax - prec));
    try lia; try (split; reflexivity);
    unfold SpecFloat.SFltb; cbn [SpecFloat.SFcompare];
    change (Pos.compare_cont Eq m1 m2) with (Pos.compare m1 m2);
    change (Pos.compare_cont Eq m2 m1) with (Pos.compare m2 m1);
    destruct (Z.compare_spec T2 T1); destruct (Z.compare_spec T1 T2); try lia;
    try (split; reflexivity);
    destruct (Pos.compare_spec m2 m1); destruct (Pos.compare_spec m1 m2);
    try lia; split; reflexivity.
Qed.

(** Normalising is monotone in the integer that is normalised. *)
Lemma normalize_mono z1 z2 e :
  z1 <= z2 ->
  SpecFloat.SFltb (SpecFloat.binary_normalize prec emax z2 e false)
                  (SpecFloat.binary_normalize prec emax z1 e false) = false.
Proof.
  intros Hz. unfold SpecFloat.binary_normalize.
  destruct z1 as [|p1|p1]; destruct z2 as [|p2|p2]; try lia;
    rewrite ?binary_round_nearest.
  - reflexivity.
  - destruct (nearest_spec p2 e) as (_ & H0 & _). unfold mk.
    destruct (nearest p2 e).2; [reflexivity| |lia].
    destruct (_ <=? _); reflexivity.
  - destruct (nearest_spec p1 e) as (_ & H1 & _).
    destruct (nearest_spec p2 e) as (_ & H2 & _).
    apply mk_mono; [exact H1|exact H2|]. apply nearest_mono. lia.
  - destruct (nearest_spec p1 e) as (_ & H0 & _). unfold mk.
    destruct (nearest p1 e).2; [reflexivity| |lia].
    destruct (_ <=? _); reflexivity.
  - destruct (nearest_spec p1 e) as (_ & H1 & _).
    destruct (nearest_spec p2 e) as (_ & H2 & _). unfold mk.
    destruct (nearest p1 e).2; destruct (nearest p2 e).2; try lia;
      repeat destruct (_ <=? _); reflexivity.
  - destruct (nearest_spec p1 e) as (_ & H1 & _).
    destruct (nearest_spec p2 e) as (_ & H2 & _).
    apply mk_mono; [exact H2|exact H1|]. apply nearest_mono. lia.
Qed.

Lemma SFltb_irrefl x : SpecFloat.SFltb x x = false.
Proof.
  destruct (SpecFloat.SFltb x x) eqn:E; [|reflexivity].
  apply SFltb_rank in E. destruct E as (ra & rb & Ha & Hb & Hlt).
  rewrite Ha in Hb. injection Hb as <-. now apply lex_lt_irrefl in Hlt.
Qed.

(** For a tolerance that is not negative, the sum is not below the
    difference, whatever the rounding. *)
Lemma SFadd_sub_order x y :
  nn y ->
  SpecFloat.SFltb (SpecFloat.SFadd prec emax x y) (SpecFloat.SFsub prec emax x y)
  = false.
Proof.
  intros Hy.
  destruct x as [sx|sx| |sx mx ex]; destruct y as [sy|[]| |[] my ey];
    try contradiction; cbn [SpecFloat.SFadd SpecFloat.SFsub negb];
    first [ apply SFltb_irrefl
          | apply normalize_mono; destruct sx; cbn [SpecFloat.cond_Zopp]; lia
          | destruct sx; try destruct sy; reflexivity
          | reflexivity ].
Qed.

Lemma thresholds_in_order H delta :
  PrimFloat.leb PrimFloat.zero delta = true ->
  PrimFloat.ltb (PrimFloat.add H delta) (PrimFloat.sub H delta) = false.
Proof.
  intros Hd. apply leb_zero_nn in Hd.
  rewrite FloatAxioms.ltb_spec, FloatAxioms.add_spec, FloatAxioms.sub_spec.
  now apply SFadd_sub_order.
Qed.

(** *** Whole numbers

    The doubles of the ints below [2^53] are exact, and so is their
    difference. *)

Lemma digits2_unique p n :
  2 ^ (n - 1) <= Z.pos p < 2 ^ n -> Z.pos (SpecFloat.digits2_pos p) = n.
Proof.
  intros [Hlo Hhi]. destruct (digits2_bounds p) as [Dlo Dhi].
  set (d := Z.pos (SpecFloat.digits2_pos p)) in *.
  assert (Hd : 1 <= d) by (unfold d; lia).
  assert (Hn : 1 <= n).
  { destruct (Z_lt_le_dec n 1) as [H|H]; [|exact H].
    destruct (Z.eq_dec n 0) as [->|Hz]; [simpl in Hhi; lia|].
    rewrite Z.pow_neg_r in Hhi by lia. lia. }
  assert (H1 : 2 ^ (n - 1) < 2 ^ d) by lia.
  assert (H2 : 2 ^ (d - 1) < 2 ^ n) by lia.
  apply Z.pow_lt_mono_r_iff in H1; [|lia|lia].
  apply Z.pow_lt_mono_r_iff in H2; [|lia|lia]. lia.
Qed.

(** An integer below [2^53] given with a scaled mantissa is rounded to
    itself. *)
Lemma nearest_exact p e c :
  e <= 0 -> 0 < c < 2 ^ 53 -> Z.pos p = c * 2 ^ (- e) ->
  exists T, (nearest p e).1 = T /\ -1074 <= T <= 0
            /\ (nearest p e).2 = c * 2 ^ (- T).
Proof.
  intros He [Hc0 Hc1] Hp.
  destruct c as [|c|c]; try lia.
  destruct (digits2_bounds c) as [Clo Chi].
  pose proof (digits2_small c 53 Hc1) as Hdc.
  set (dc := Z.pos (SpecFloat.digits2_pos c)) in *.
  assert (Hdc1 : 1 <= dc) by (unfold dc; lia).
  assert (HE : 0 < 2 ^ (- e)) by (apply Z.pow_pos_nonneg; lia).
  assert (Hd : Z.pos (SpecFloat.digits2_pos p) = dc - e).
  { apply digits2_unique. rewrite Hp.
    replace (dc - e - 1) with ((dc - 1) + (- e)) by lia.
    replace (dc - e) with (dc + (- e)) by lia.
    rewrite !Z.pow_add_r by lia. nia. }
  unfold nearest. rewrite Hd, fexp_eq.
  replace (dc - e + e - 53) with (dc - 53) by lia.
  replace (Z.max (dc - 53) (-1074)) with (dc - 53) by lia.
  set (t := dc - 53).
  assert (Ht : t <= 0) by (unfold t; lia).
  assert (HT : 0 < 2 ^ (- t)) by (apply Z.pow_pos_nonneg; lia).
  exists t. destruct (Z.leb_spec t e) as [Hle|Hgt]; cbn [fst snd].
  - split; [reflexivity|]. split; [unfold t; lia|].
    rewrite Hp, <- Z.mul_assoc, <- Z.pow_add_r by lia. f_equal. f_equal. lia.
  - set (N := 2 ^ (t - e)).
    assert (HN : 0 < N) by (apply Z.pow_pos_nonneg; lia).
    assert (Hpq : Z.pos p = (Z.pos c * 2 ^ (- t)) * N).
    { rewrite Hp. unfold N. rewrite <- Z.mul_assoc, <- Z.pow_add_r by lia.
      f_equal. f_equal. lia. }
    assert (Hq : Z.pos p / N = Z.pos c * 2 ^ (- t)).
    { rewrite Hpq. apply Z.div_mul. lia. }
    assert (Hr : Z.pos p mod N = 0).
    { rewrite Hpq. apply Z.mod_mul. lia. }
    rewrite Hq, Hr. unfold rne, locate. cbn [Z.eqb SpecFloat.round_nearest_even].
    assert (Hlt : Z.pos c * 2 ^ (- t) < 2 ^ prec).
    { change prec with 53.
      replace (2 ^ 53) with (2 ^ (dc + (- t))) by (f_equal; unfold t; lia).
      rewrite Z.pow_add_r by lia. nia. }
    destruct (Z.eqb_spec (Z.pos c * 2 ^ (- t)) (2 ^ prec)) as [E|E]; [lia|].
    cbn [fst snd]. split; [reflexivity|]. split; [unfold t; lia|reflexivity].
Qed.

Lemma mk_value s T c :
  -1074 <= T <= 0 -> 0 < c ->
  exists q, SF2Q (mk s T (c * 2 ^ (- T))) = Some q
            /\ (q == inject_Z (SpecFloat.cond_Zopp s c))%Q.
Proof.
  intros HT Hc.
  assert (HP : 0 < 2 ^ (- T)) by (apply Z.pow_pos_nonneg; lia).
  unfold mk. destruct (c * 2 ^ (- T)) as [|m|m] eqn:Em; try nia.
  assert (Hle : (T <=? emax - prec) = true)
    by (apply Z.leb_le; unfold emax, prec, FloatOps.emax, FloatOps.prec; lia).
  rewrite Hle. cbn [SF2Q]. eexists. split; [reflexivity|].
  destruct s; cbn [SpecFloat.cond_Zopp].
  - change (Z.neg m) with (- Z.pos m). rewrite <- Em.
    replace (- (c * 2 ^ (- T))) with ((- c) * 2 ^ (0 - T)) by (replace (0 - T) with (- T) by lia; ring).
    rewrite scaled_value by lia. change (pow2 0) with 1%Q. ring.
  - rewrite <- Em. replace (- T) with (0 - T) by lia.
    rewrite scaled_value by lia. change (pow2 0) with 1%Q. ring.
Qed.

(** The doubles of the ints below [2^53]. *)
Lemma SF_lit c :
  0 < c < 2 ^ 53 ->
  exists m t, SF (lit c) = SpecFloat.S754_finite false m t
              /\ t <= 0 /\ Z.pos m = c * 2 ^ (- t).
Proof.
  intros [H0 H1]. destruct c as [|p|p]; try lia.
  unfold lit, of_dyadic. cbn [SpecFloat.binary_normalize].
  destruct (binary_round_exact false p 0) as (m & t & E & Hb & Ht & Hm).
  - apply digits2_small. exact H1.
  - unfold SpecFloat.emin, prec, emax. cbv. discriminate.
  - pose proof (digits2_small p 53 H1). unfold emax, FloatOps.emax. lia.
  - rewrite E. exists m, t. split; [apply SF_valid; exact Hb|].
    split; [exact Ht|]. rewrite Hm. reflexivity.
Qed.

Lemma SF_lit_0 : SF (lit 0) = SpecFloat.S754_zero false.
Proof. reflexivity. Qed.

Lemma shl_align_fst m e e' :
  e' <= e -> Z.pos (SpecFloat.shl_align m e e').1 = Z.pos m * 2 ^ (e - e').
Proof.
  intros H. unfold SpecFloat.shl_align.
  destruct (e' - e) as [|k|k] eqn:Ek; try lia; cbn [fst].
  - replace (e - e') with 0 by lia. lia.
  - rewrite iter_xO_pos. f_equal. f_equal. lia.
Qed.

(** The difference of two such doubles is exact. *)
Lemma sub_lit_value a b :
  0 <= a < 2 ^ 53 -> 0 <= b < 2 ^ 53 ->
  exists q, value (PrimFloat.sub (lit b) (lit a)) = Some q
            /\ (q == inject_Z (b - a))%Q.
Proof.
  intros Ha Hb. unfold value, SF. rewrite FloatAxioms.sub_spec.
  fold (SF (lit b)). fold (SF (lit a)). unfold FloatAxioms.SF64sub.
  change FloatOps.prec with prec. change FloatOps.emax with emax.
  destruct (Z.eq_dec a 0) as [->|Ha0]; destruct (Z.eq_dec b 0) as [->|Hb0];
    rewrite ?SF_lit_0.
  - eexists. split; [reflexivity|]. reflexivity.
  - destruct (SF_lit b ltac:(lia)) as (mb & tb & -> & Htb & Emb).
    cbn [SpecFloat.SFsub SF2Q]. eexists. split; [reflexivity|].
    unfold SpecFloat.cond_Zopp. rewrite Emb. replace (- tb) with (0 - tb) by lia.
    rewrite scaled_value by lia. rewrite Z.sub_0_r. change (pow2 0) with 1%Q. ring.
  - destruct (SF_lit a ltac:(lia)) as (ma & ta & -> & Hta & Ema).
    cbn [SpecFloat.SFsub SF2Q negb]. eexists. split; [reflexivity|].
    unfold SpecFloat.cond_Zopp. change (negb false) with true. cbv iota.
    change (Z.neg ma) with (- Z.pos ma). rewrite Ema.
    replace (- (a * 2 ^ (- ta))) with ((- a) * 2 ^ (0 - ta))
      by (replace (0 - ta) with (- ta) by lia; ring).
    rewrite scaled_value by lia. change (pow2 0) with 1%Q.
    change (0 - a) with (- a). ring.
  - destruct (SF_lit a ltac:(lia)) as (ma & ta & -> & Hta & Ema).
    destruct (SF_lit b ltac:(lia)) as (mb & tb & -> & Htb & Emb).
    cbn [SpecFloat.SFsub]. cbn zeta. unfold SpecFloat.cond_Zopp.
    set (ez := Z.min tb ta).
    rewrite !shl_align_fst by (unfold ez; lia).
    assert (HE : 0 < 2 ^ (- ez)) by (apply Z.pow_pos_nonneg; unfold ez; lia).
    assert (Hz : Z.pos mb * 2 ^ (tb - ez) - Z.pos ma * 2 ^ (ta - ez)
                 = (b - a) * 2 ^ (- ez)).
    { rewrite Ema, Emb, <- !Z.mul_assoc, <- !Z.pow_add_r by (unfold ez; lia).
      replace (- tb + (tb - ez)) with (- ez) by lia.
      replace (- ta + (ta - ez)) with (- ez) by lia. ring. }
    rewrite Hz.
    destruct ((b - a) * 2 ^ (- ez)) as [|p|p] eqn:Ep;
      cbn [SpecFloat.binary_normalize].
    + eexists. split; [reflexivity|].
      assert (b - a = 0) by nia. rewrite H. reflexivity.
    + rewrite binary_round_nearest.
      destruct (nearest_exact p ez (b - a)) as (T & -> & HT & ->);
        [unfold ez; lia|nia|lia|].
      destruct (mk_value false T (b - a) HT ltac:(nia)) as (q & -> & Hq).
      exists q. split; [reflexivity|exact Hq].
    + rewrite binary_round_nearest.
      destruct (nearest_exact p ez (a - b)) as (T & -> & HT & ->);
        [unfold ez; lia|nia|lia|].
      destruct (mk_value true T (a - b) HT ltac:(nia)) as (q & -> & Hq).
      exists q. split; [reflexivity|]. rewrite Hq. cbn [SpecFloat.cond_Zopp].
      replace (b - a) with (- (a - b)) by lia. reflexivity.
Qed.

Lemma ge_int_value f k q c :
  value f = Some q -> (q == inject_Z c)%Q -> ge_int f k = (k <=? c).
Proof.
  unfold value, ge_int. intros Hv Hq.
  destruct (SF f) as [s|s| |s m e]; try discriminate; rewrite Hv.
  - destruct (Z.leb_spec k c) as [H|H].
    + apply Py.leb_le. rewrite Hq, <- Zle_Qle. exact H.
    + apply Py.leb_gt. rewrite Hq, <- Zlt_Qlt. exact H.
  - destruct (Z.leb_spec k c) as [H|H].
    + apply Py.leb_le. rewrite Hq, <- Zle_Qle. exact H.
    + apply Py.leb_gt. rewrite Hq, <- Zlt_Qlt. exact H.
Qed.

(** *** The rounding step for any position of the remainder *)








(** *** Magnitudes

    [below x E]: [x] is a zero or a positive number whose exponent is at
    most [E]. *)
Definition below (x : spec_float) (E : Z) : Prop :=
  match x with
  | SpecFloat.S754_zero _ => True
  | SpecFloat.S754_finite false _ e => e <= E
  | _ => False
  end.



Lemma below_nn x E : below x E -> nn x.
Proof. destruct x as [s|[]| |[] m e]; simpl; tauto. Qed.









(** *** Bounds read off a comparison *)





End Double.

(** ** [backend/core/glide/offsets.py] in exact arithmetic

    The offset loop with its floats read as exact rationals.  It carries
    the facts that do not depend on a rounded value: the prefix property,
    the validator, the agreement with the copy of the loop in
    [app_glide.py].  The values the program computes are those of
    [Offsets64] below. *)

Module Offsets.

(** The body of [for distance in distances_m:] in [compute_offsets], with
    the two loop-carried variables [cumulative_travel] and [offsets]. *)
Fixpoint offsets_loop (v_ms : Q) (cycle_s : Z) (cumulative_travel : Q)
    (offsets : list Z) (distances_m : list Q) : option (list Z) :=
  match distances_m with
  | [] => Some offsets
  | distance :: rest =>
      travel_time ← Py.div distance v_ms;
      let cumulative_travel := (cumulative_travel + travel_time)%Q in
      r ← Py.fmod cumulative_travel (inject_Z cycle_s);
      offsets_loop v_ms cycle_s cumulative_travel (offsets ++ [Py.int r]) rest
  end.

Definition compute_offsets (distances_m : list Q) (cycle_s : Z)
    (v_prog_kmh : Q) : option (list Z) :=
  match distances_m with
  | [] => Some [0]
  | _ =>
      let v_ms := (v_prog_kmh / (36 # 10))%Q in
      offsets_loop v_ms cycle_s 0%Q [0] distances_m
  end.

Definition green_width (main_split : Q) (cycle_s : Z) : Z :=
  Py.int (main_split * inject_Z cycle_s)%Q.

(** [validate_offsets]: the third loop of the source (the monotonicity
    check) has [pass] as its only statement and so contributes nothing. *)
Definition out_of_range (cycle_s offset : Z) : bool :=
  (offset <? 0) || (offset >=? cycle_s).

Definition validate_offsets (offsets : list Z) (cycle_s : Z) : bool :=
  match offsets with
  | [] => false
  | o0 :: _ =>
      if negb (o0 =? 0) then false
      else if existsb (out_of_range cycle_s) offsets then false
           else true
  end.

(** Cumulative travel time up to and including the [i]-th distance, as the
    specification words it: the sum of [distance / speed] over the first
    [i + 1] distances, with the speed converted to metres per second. *)
Definition travel_time_sum (distances_m : list Q) (v_prog_kmh : Q) (i : nat) : Q :=
  fold_right Qplus 0%Q
    (map (fun d => (d / (v_prog_kmh / (36 # 10)))%Q) (take (S i) distances_m)).

Section Loop.
Variables (v_ms : Q) (cycle_s : Z).
Hypothesis Hv : ~ (v_ms == 0)%Q.
Hypothesis Hc : 0 < cycle_s.

Let tsum (ds : list Q) (i : nat) : Q :=
    fold_right Qplus 0%Q (map (fun d => (d / v_ms)%Q) (take (S i) ds)).

Lemma cycle_pos_Q : (0 < inject_Z cycle_s)%Q.
  Proof. change 0%Q with (inject_Z 0). now rewrite <- Zlt_Qlt. Qed.

Lemma div_v_ms d : Py.div d v_ms = Some (d / v_ms)%Q.
  Proof.
    unfold Py.div. destruct (Qeq_bool v_ms 0) eqn:E; [|reflexivity].
    apply Qeq_bool_iff in E. contradiction.
  Qed.

Lemma fmod_cycle a :
    exists r, Py.fmod a (inject_Z cycle_s) = Some r
              /\ (0 <= r)%Q /\ (r < inject_Z cycle_s)%Q.
  Proof.
    pose proof cycle_pos_Q as Hp.
    destruct (Py.fmod a (inject_Z cycle_s)) as [r|] eqn:E.
    - exists r. split; [reflexivity|]. eapply Py.fmod_range; eauto.
    - unfold Py.fmod in E.
      destruct (Qeq_bool (inject_Z cycle_s) 0) eqn:E0; [|discriminate].
      apply Qeq_bool_iff in E0. rewrite E0 in Hp. now apply Qlt_irrefl in Hp.
  Qed.

Lemma fmod_int_comp a a' r :
    (a == a')%Q -> Py.fmod a (inject_Z cycle_s) = Some r ->
    exists r', Py.fmod a' (inject_Z cycle_s) = Some r' /\ Py.int r' = Py.int r.
  Proof.
    intros He Er.
    pose proof (Py.fmod_comp a a' (inject_Z cycle_s) He) as Hcmp.
    rewrite Er in Hcmp. inversion Hcmp as [? r' Hrr' | ]; subst.
    exists r'. split; [reflexivity|].
    symmetry. apply Py.int_comp_nonneg; [|exact Hrr'].
    eapply Py.fmod_range; [apply cycle_pos_Q | exact Er].
  Qed.

  (** The loop appends one in-range offset per distance; the [i]-th appended
      offset is the truncated remainder of the travel time accumulated so
      far. *)
Lemma offsets_loop_spec ds : forall cum acc,
    exists res,
      offsets_loop v_ms cycle_s cum acc ds = Some (acc ++ res)
      /\ length res = length ds
      /\ Forall (fun o => 0 <= o < cycle_s) res
      /\ forall i, (i < length ds)%nat ->
           exists r, Py.fmod (cum + tsum ds i) (inject_Z cycle_s) = Some r
                     /\ res !! i = Some (Py.int r).
  Proof.
    induction ds as [|d ds IH]; intros cum acc.
    - exists []. simpl. rewrite app_nil_r. repeat split; auto.
      intros i Hi. simpl in Hi. lia.
    - simpl. rewrite div_v_ms. simpl.
      destruct (fmod_cycle (cum + d / v_ms)) as (r & Er & Hr0 & Hr1).
      rewrite Er. simpl.
      destruct (IH (cum + d / v_ms)%Q (acc ++ [Py.int r]))
        as (res & E & Hlen & Hall & Hnth).
      exists (Py.int r :: res). rewrite E, <- app_assoc. simpl.
      repeat split; auto.
      + constructor; [|exact Hall]. now apply Py.int_range_nonneg.
      + intros [|i] Hi.
        * destruct (fmod_int_comp (cum + d / v_ms) (cum + tsum (d :: ds) 0) r)
            as (r' & Er' & Hint); [|exact Er|].
          { unfold tsum. simpl. destruct ds; simpl; ring. }
          exists r'. split; [exact Er'|]. simpl. now rewrite Hint.
        * destruct (Hnth i) as (r1 & Er1 & Hl1); [simpl in Hi; lia|].
          destruct (fmod_int_comp (cum + d / v_ms + tsum ds i)
                      (cum + tsum (d :: ds) (S i)) r1)
            as (r' & Er' & Hint); [|exact Er1|].
          { unfold tsum. simpl. ring. }
          exists r'. split; [exact Er'|]. simpl. now rewrite Hint.
  Qed.
End Loop.

(** [validate_offsets] accepts exactly the non-empty lists that start with
    0 and whose entries all lie in [[0, cycle)]. *)
Lemma validate_offsets_iff offsets cycle_s :
  validate_offsets offsets cycle_s = true <->
  head offsets = Some 0 /\ Forall (fun o => 0 <= o < cycle_s) offsets.
Proof.
  unfold validate_offsets. destruct offsets as [|o0 rest].
  - split; [discriminate | intros [H _]; discriminate].
  - destruct (o0 =? 0) eqn:E0; cbn [negb head].
    + apply Z.eqb_eq in E0. subst o0.
      destruct (existsb (out_of_range cycle_s) (0 :: rest)) eqn:Ex.
      * split; [discriminate|]. intros [_ HF]. exfalso.
        apply existsb_exists in Ex. destruct Ex as (o & Hin & Ho).
        rewrite Forall_forall in HF. apply list_elem_of_In in Hin.
        specialize (HF o Hin). unfold out_of_range in Ho. lia.
      * split; [|reflexivity]. intros _. split; [reflexivity|].
        rewrite Forall_forall. intros o Hin. apply list_elem_of_In in Hin.
        destruct (out_of_range cycle_s o) eqn:Eo.
        -- assert (Hex : existsb (out_of_range cycle_s) (0 :: rest) = true)
             by (apply existsb_exists; exists o; split; assumption).
           congruence.
        -- unfold out_of_range in Eo. lia.
    + apply Z.eqb_neq in E0. split; [discriminate|].
      intros [H _]. congruence.
Qed.

(** Totality, shape and range of [compute_offsets], together with the
    closed form of each entry. *)
Lemma compute_offsets_total (distances_m : list Q) (cycle_s : Z) (v_prog_kmh : Q) :
  0 < cycle_s -> (0 < v_prog_kmh)%Q ->
  exists offsets,
    compute_offsets distances_m cycle_s v_prog_kmh = Some offsets
    /\ length offsets = S (length distances_m)
    /\ head offsets = Some 0
    /\ Forall (fun o => 0 <= o < cycle_s) offsets
    /\ forall i, (i < length distances_m)%nat ->
         exists r,
           Py.fmod (travel_time_sum distances_m v_prog_kmh i) (inject_Z cycle_s) = Some r
           /\ offsets !! S i = Some (Py.int r).
Proof.
  intros Hc Hv.
  unfold compute_offsets. destruct distances_m as [|d ds].
  - exists [0]. simpl. repeat split; auto.
    + constructor; [lia | constructor].
    + intros i Hi. lia.
  - assert (Hvms : ~ (v_prog_kmh / (36 # 10) == 0)%Q).
    { intros Hz.
      assert (Hv' : (v_prog_kmh == v_prog_kmh / (36 # 10) * (36 # 10))%Q)
        by (field; discriminate).
      rewrite Hz, Qmult_0_l in Hv'.
      rewrite Hv' in Hv. now apply Qlt_irrefl in Hv. }
    destruct (offsets_loop_spec _ cycle_s Hvms Hc (d :: ds) 0%Q [0])
      as (res & E & Hlen & Hall & Hnth).
    exists (0 :: res). split; [exact E|]. simpl. repeat split.
    + now rewrite Hlen.
    + constructor; [lia | exact Hall].
    + intros i Hi. destruct (Hnth i Hi) as (r & Er & Hl).
      match type of Er with
      | Py.fmod ?a _ = _ =>
          assert (Heq : (a == travel_time_sum (d :: ds) v_prog_kmh i)%Q)
            by (unfold travel_time_sum; ring)
      end.
      destruct (fmod_int_comp cycle_s Hc _ _ r Heq Er) as (r' & Er' & Hint).
      exists r'. split; [exact Er'|]. now rewrite Hint.
Qed.

(** *** Further facts on the offset utilities *)

Lemma offsets_loop_app v_ms cycle_s ds1 : forall ds2 cum acc,
  offsets_loop v_ms cycle_s cum acc (ds1 ++ ds2)
  = match offsets_loop v_ms cycle_s cum acc ds1 with
    | Some acc1 =>
        offsets_loop v_ms cycle_s
          (fold_left (fun c d => (c + d / v_ms)%Q) ds1 cum) acc1 ds2
    | None => None
    end.
Proof.
  induction ds1 as [|d ds1 IH]; intros ds2 cum acc; simpl; [reflexivity|].
  destruct (Py.div d v_ms) as [q|] eqn:Eq; simpl; [|reflexivity].
  assert (q = (d / v_ms)%Q) as ->.
  { unfold Py.div in Eq. destruct (Qeq_bool v_ms 0); congruence. }
  destruct (Py.fmod (cum + d / v_ms) (inject_Z cycle_s)) as [r|]; simpl; [|reflexivity].
  apply IH.
Qed.

Lemma offsets_loop_extends v_ms cycle_s ds : forall cum acc res,
  offsets_loop v_ms cycle_s cum acc ds = Some res ->
  exists tail, res = acc ++ tail /\ length tail = length ds.
Proof.
  induction ds as [|d ds IH]; intros cum acc res; simpl.
  - intros [= <-]. exists []. now rewrite app_nil_r.
  - destruct (Py.div d v_ms) as [q|]; simpl; [|discriminate].
    destruct (Py.fmod (cum + q) (inject_Z cycle_s)) as [r|]; simpl; [|discriminate].
    intros E. apply IH in E as (tail & -> & Hlen).
    exists (Py.int r :: tail). rewrite <- app_assoc. simpl. auto.
Qed.

(** Adding nodes downstream leaves the offsets upstream as they are: the
    offsets of a corridor are a prefix of the offsets of every extension of
    it. *)
Theorem compute_offsets_prefix (ds1 ds2 : list Q) (cycle_s : Z) (v_prog_kmh : Q)
    (offsets : list Z) :
  compute_offsets (ds1 ++ ds2) cycle_s v_prog_kmh = Some offsets ->
  compute_offsets ds1 cycle_s v_prog_kmh = Some (take (S (length ds1)) offsets).
Proof.
  unfold compute_offsets. destruct ds1 as [|d ds1].
  - simpl. destruct ds2 as [|d2 ds2].
    + now intros [= <-].
    + intros E. apply offsets_loop_extends in E as (tail & -> & _). reflexivity.
  - change ((d :: ds1) ++ ds2) with (d :: (ds1 ++ ds2)).
    change (d :: (ds1 ++ ds2)) with ((d :: ds1) ++ ds2).
    rewrite offsets_loop_app.
    destruct (offsets_loop (v_prog_kmh / (36 # 10)) cycle_s 0 [0] (d :: ds1))
      as [acc1|] eqn:E1; [|discriminate].
    intros E2.
    apply offsets_loop_extends in E1 as (t1 & -> & Hl1).
    apply offsets_loop_extends in E2 as (t2 & -> & _).
    f_equal. rewrite take_app_length'; [reflexivity|].
    rewrite length_app. simpl in *. lia.
Qed.

Lemma compute_offsets_prefix_witness :
  compute_offsets [300 # 1]%Q 90 (40 # 1) = Some (take 2 [0; 27; 52]).
Proof.
  apply (compute_offsets_prefix [300 # 1]%Q [280 # 1]%Q 90 (40 # 1) [0; 27; 52]).
  reflexivity.
Defined.

(** [validate_offsets] looks at the first entry and at the range of each
    entry and at nothing else: the order of the entries after the first does
    not matter, so a sequence that is not monotone is accepted as well. *)
Theorem validate_offsets_order_blind (o0 : Z) (rest rest' : list Z) (cycle_s : Z) :
  Permutation rest rest' ->
  validate_offsets (o0 :: rest) cycle_s = validate_offsets (o0 :: rest') cycle_s.
Proof.
  intros Hp.
  destruct (validate_offsets (o0 :: rest) cycle_s) eqn:E1;
    destruct (validate_offsets (o0 :: rest') cycle_s) eqn:E2; try reflexivity.
  - apply validate_offsets_iff in E1 as [Hh HF]. simpl in Hh.
    assert (validate_offsets (o0 :: rest') cycle_s = true); [|congruence].
    apply validate_offsets_iff. split; [exact Hh|].
    inversion HF; subst. constructor; [assumption|].
    eapply Permutation_Forall; eauto.
  - apply validate_offsets_iff in E2 as [Hh HF]. simpl in Hh.
    assert (validate_offsets (o0 :: rest) cycle_s = true); [|congruence].
    apply validate_offsets_iff. split; [exact Hh|].
    inversion HF; subst. constructor; [assumption|].
    eapply Permutation_Forall; [symmetry|]; eauto.
Qed.

Lemma validate_offsets_order_blind_witness :
  validate_offsets [0; 52; 27] 90 = validate_offsets [0; 27; 52] 90
  /\ validate_offsets [0; 52; 27] 90 = true.
Proof.
  split; [|reflexivity].
  apply (validate_offsets_order_blind 0 [52; 27] [27; 52] 90).
  apply perm_swap.
Defined.

End Offsets.

(** ** [backend/core/glide/offsets.py] in binary64 *)

Module Offsets64.

(** The literal [3.6]. *)
Definition three_point_six : Double.float := Double.dec 36 10.

(** The body of [for distance in distances_m:] in [compute_offsets]. *)
Fixpoint offsets_loop (v_ms : Double.float) (cycle_s : Z)
    (cumulative_travel : Double.float) (offsets : list Z)
    (distances_m : list Double.float) : option (list Z) :=
  match distances_m with
  | [] => Some offsets
  | distance :: rest =>
      travel_time ← Double.truediv distance v_ms;
      let cumulative_travel := PrimFloat.add cumulative_travel travel_time in
      r ← Double.rem_int cumulative_travel cycle_s;
      offset ← Double.int r;
      offsets_loop v_ms cycle_s cumulative_travel (offsets ++ [offset]) rest
  end.

Definition compute_offsets (distances_m : list Double.float) (cycle_s : Z)
    (v_prog_kmh : Double.float) : option (list Z) :=
  match distances_m with
  | [] => Some [0]
  | _ =>
      v_ms ← Double.truediv v_prog_kmh three_point_six;
      offsets_loop v_ms cycle_s PrimFloat.zero [0] distances_m
  end.

(** The cumulative travel time after the [i]-th distance, as the program
    accumulates it: each quotient and each sum rounded to a double. *)
Definition travel_time_from (v_ms cum : Double.float)
    (distances_m : list Double.float) (i : nat) : Double.float :=
  fold_left (fun acc d => PrimFloat.add acc (PrimFloat.div d v_ms))
            (take (S i) distances_m) cum.

Definition travel_time_sum (distances_m : list Double.float)
    (v_prog_kmh : Double.float) (i : nat) : Double.float :=
  travel_time_from (PrimFloat.div v_prog_kmh three_point_six) PrimFloat.zero
                   distances_m i.

Lemma travel_time_from_0 v_ms cum d ds :
  travel_time_from v_ms cum (d :: ds) 0
  = PrimFloat.add cum (PrimFloat.div d v_ms).
Proof. reflexivity. Qed.

Lemma travel_time_from_S v_ms cum d ds i :
  travel_time_from v_ms cum (d :: ds) (S i)
  = travel_time_from v_ms (PrimFloat.add cum (PrimFloat.div d v_ms)) ds i.
Proof. reflexivity. Qed.

Section Loop.
Variables (v_ms : Double.float) (cycle_s : Z).
Hypothesis Hv : Double.nn (Double.SF v_ms).
Hypothesis Hc : 0 < cycle_s < 2 ^ 53.

Lemma nn_step cum d :
  Double.nn (Double.SF cum) -> Double.nn (Double.SF d) ->
  Double.is_zero v_ms = false ->
  Double.nn (Double.SF (PrimFloat.add cum (PrimFloat.div d v_ms))).
Proof.
  intros Hcum Hd Hz. unfold Double.SF.
  rewrite FloatAxioms.add_spec, FloatAxioms.div_spec.
  apply Double.nn_add; [exact Hcum|].
  apply Double.nn_div; [exact Hd | exact Hv|].
  unfold Double.is_zero, Double.SF in Hz.
  destruct (FloatOps.Prim2SF v_ms); [discriminate | exact I..].
Qed.

(** A zero speed makes every cumulative travel time an infinity or a
    NaN. *)
Lemma zero_speed_not_finite cum d :
  Double.nn (Double.SF cum) -> Double.nn (Double.SF d) ->
  Double.is_zero v_ms = true ->
  Double.is_finite (PrimFloat.add cum (PrimFloat.div d v_ms)) = false.
Proof.
  intros Hcum Hd Hz. unfold Double.is_finite, Double.SF.
  rewrite FloatAxioms.add_spec, FloatAxioms.div_spec.
  unfold Double.is_zero, Double.nn, Double.SF in *.
  destruct (FloatOps.Prim2SF v_ms) as [sv| | |]; try discriminate.
  destruct (FloatOps.Prim2SF d) as [sd|[]| |[] md ed]; try contradiction;
    destruct (FloatOps.Prim2SF cum) as [sc|[]| |[] mc ec]; try contradiction;
    try reflexivity; destruct sv; reflexivity.
Qed.

(** While the cumulative travel times are finite the loop appends one
    in-range offset per distance: the truncated remainder of the travel
    time accumulated so far. *)
Lemma offsets_loop_finite ds : forall cum acc,
  Double.nn (Double.SF cum) ->
  Forall (fun d => Double.nn (Double.SF d)) ds ->
  (forall i, (i < length ds)%nat ->
     Double.is_finite (travel_time_from v_ms cum ds i) = true) ->
  exists res,
    offsets_loop v_ms cycle_s cum acc ds = Some (acc ++ res)
    /\ length res = length ds
    /\ Forall (fun o => 0 <= o < cycle_s) res
    /\ forall i, (i < length ds)%nat ->
         exists q r,
           Double.value (travel_time_from v_ms cum ds i) = Some q
           /\ Py.fmod q (inject_Z cycle_s) = Some r
           /\ res !! i = Some (Py.int r).
Proof.
  induction ds as [|d ds IH]; intros cum acc Hcum Hds Hfin.
  - exists []. simpl. rewrite app_nil_r. repeat split; auto.
    intros i Hi. simpl in Hi. lia.
  - inversion Hds as [|? ? Hd Hds']; subst.
    assert (Hz : Double.is_zero v_ms = false).
    { destruct (Double.is_zero v_ms) eqn:E; [|reflexivity].
      pose proof (Hfin 0%nat ltac:(simpl; lia)) as H0.
      rewrite travel_time_from_0 in H0.
      rewrite (zero_speed_not_finite cum d Hcum Hd E) in H0. discriminate. }
    set (cum' := PrimFloat.add cum (PrimFloat.div d v_ms)).
    assert (Hnn : Double.nn (Double.SF cum')) by (apply nn_step; assumption).
    assert (Hf0 : Double.is_finite cum' = true).
    { pose proof (Hfin 0%nat ltac:(simpl; lia)) as H0.
      rewrite travel_time_from_0 in H0. exact H0. }
    destruct (Double.rem_int_nonneg cum' cycle_s Hc Hnn Hf0)
      as (q & r & m & Eq & Hq0 & Er & Em & Ei).
    destruct (IH cum' (acc ++ [Py.int r]) Hnn Hds') as (res & E & Hlen & Hall & Hnth).
    { intros i Hi. unfold cum'. rewrite <- (travel_time_from_S v_ms cum d ds i).
      apply (Hfin (S i)). simpl. lia. }
    exists (Py.int r :: res).
    cbn [offsets_loop]. unfold Double.truediv. rewrite Hz. cbn [mbind option_bind].
    fold cum'. rewrite Em. cbn [mbind option_bind]. rewrite Ei. cbn [mbind option_bind].
    rewrite E, <- app_assoc. simpl.
    split; [reflexivity|]. split; [now rewrite Hlen|]. split.
    + constructor; [|exact Hall].
      assert (Hcq : (0 < inject_Z cycle_s)%Q).
      { change 0%Q with (inject_Z 0). rewrite <- Zlt_Qlt. lia. }
      destruct (Py.fmod_range _ _ _ Hcq Er) as [Hr0 Hr1].
      apply Py.int_range_nonneg; assumption.
    + intros [|i] Hi.
      * exists q, r. rewrite travel_time_from_0. fold cum'. auto.
      * destruct (Hnth i ltac:(simpl in Hi; lia)) as (q1 & r1 & H1 & H2 & H3).
        exists q1, r1. rewrite travel_time_from_S. fold cum'.
        split; [exact H1|]. split; [exact H2|exact H3].
Qed.

(** A cumulative travel time that is not finite makes the loop raise. *)
Lemma offsets_loop_raises ds : forall cum acc i,
  (i < length ds)%nat ->
  Double.is_finite (travel_time_from v_ms cum ds i) = false ->
  offsets_loop v_ms cycle_s cum acc ds = None.
Proof.
  induction ds as [|d ds IH]; intros cum acc i Hi Hnf; [simpl in Hi; lia|].
  cbn [offsets_loop]. unfold Double.truediv.
  destruct (Double.is_zero v_ms); [reflexivity|]. cbn [mbind option_bind].
  set (cum' := PrimFloat.add cum (PrimFloat.div d v_ms)).
  destruct i as [|i].
  - rewrite travel_time_from_0 in Hnf. fold cum' in Hnf.
    pose proof (Double.rem_int_not_finite cum' cycle_s Hnf) as Hr.
    destruct (Double.rem_int cum' cycle_s) as [m|]; [|reflexivity].
    cbn [mbind option_bind] in Hr |- *. now rewrite Hr.
  - destruct (Double.rem_int cum' cycle_s) as [m|]; [|reflexivity].
    cbn [mbind option_bind].
    destruct (Double.int m) as [o|]; [|reflexivity]. cbn [mbind option_bind].
    rewrite travel_time_from_S in Hnf.
    apply (IH cum' _ i); [simpl in Hi; lia|exact Hnf].
Qed.
End Loop.

Lemma SF_three_point_six :
  Double.SF three_point_six
  = SpecFloat.S754_finite false 8106479329266893 (-51).
Proof. vm_compute. reflexivity. Qed.

Lemma speed_nn v_prog_kmh :
  PrimFloat.ltb PrimFloat.zero v_prog_kmh = true ->
  Double.nn (Double.SF (PrimFloat.div v_prog_kmh three_point_six)).
Proof.
  intros Hv. apply Double.ltb_zero_positive in Hv.
  unfold Double.SF in *. rewrite FloatAxioms.div_spec.
  fold (Double.SF three_point_six). rewrite SF_three_point_six.
  apply Double.nn_div; [|exact I|exact I].
  destruct (FloatOps.Prim2SF v_prog_kmh) as [s|[]| |[] m e]; simpl in *; tauto.
Qed.

Lemma truediv_three_point_six v :
  Double.truediv v three_point_six = Some (PrimFloat.div v three_point_six).
Proof.
  unfold Double.truediv, Double.is_zero. now rewrite SF_three_point_six.
Qed.

Lemma all_or_some (f : nat -> bool) (n : nat) :
  (forall i, (i < n)%nat -> f i = true) \/ (exists i, (i < n)%nat /\ f i = false).
Proof.
  induction n as [|n [IH|(i & Hi & Hf)]].
  - left. intros i Hi. lia.
  - destruct (f n) eqn:E.
    + left. intros i Hi. destruct (decide (i = n)) as [->|Hne]; [exact E|].
      apply IH. lia.
    + right. exists n. split; [lia | exact E].
  - right. exists i. split; [lia | exact Hf].
Qed.

(** With finite cumulative travel times [compute_offsets] returns, and its
    result has the shape, the range and the entries of the loop. *)
Lemma compute_offsets_returns (distances_m : list Double.float) (cycle_s : Z)
    (v_prog_kmh : Double.float) :
  Forall (fun d => PrimFloat.leb PrimFloat.zero d = true) distances_m ->
  0 < cycle_s < 2 ^ 53 ->
  PrimFloat.ltb PrimFloat.zero v_prog_kmh = true ->
  (forall i, (i < length distances_m)%nat ->
     Double.is_finite (travel_time_sum distances_m v_prog_kmh i) = true) ->
  exists offsets,
    compute_offsets distances_m cycle_s v_prog_kmh = Some offsets
    /\ length offsets = S (length distances_m)
    /\ head offsets = Some 0
    /\ Forall (fun o => 0 <= o < cycle_s) offsets
    /\ forall i, (i < length distances_m)%nat ->
         exists q r,
           Double.value (travel_time_sum distances_m v_prog_kmh i) = Some q
           /\ Py.fmod q (inject_Z cycle_s) = Some r
           /\ offsets !! S i = Some (Py.int r).
Proof.
  intros Hds Hc Hv Hfin.
  destruct distances_m as [|d ds].
  - exists [0]. simpl. repeat split; auto.
    + constructor; [lia | constructor].
    + intros i Hi. lia.
  - unfold compute_offsets. rewrite truediv_three_point_six. cbn [mbind option_bind].
    destruct (offsets_loop_finite (PrimFloat.div v_prog_kmh three_point_six) cycle_s
                (speed_nn _ Hv) Hc (d :: ds) PrimFloat.zero [0])
      as (res & E & Hlen & Hall & Hnth).
    + rewrite Double.SF_zero. exact I.
    + eapply Forall_impl; [exact Hds|]. intros x Hx. now apply Double.leb_zero_nn.
    + exact Hfin.
    + exists (0 :: res). split; [exact E|]. simpl.
      split; [now rewrite Hlen|]. split; [reflexivity|].
      split; [constructor; [lia | exact Hall]|]. exact Hnth.
Qed.

(** A cumulative travel time that is not finite makes [compute_offsets]
    raise. *)
Lemma compute_offsets_raises (distances_m : list Double.float) (cycle_s : Z)
    (v_prog_kmh : Double.float) (i : nat) :
  (i < length distances_m)%nat ->
  Double.is_finite (travel_time_sum distances_m v_prog_kmh i) = false ->
  compute_offsets distances_m cycle_s v_prog_kmh = None.
Proof.
  intros Hi Hnf. destruct distances_m as [|d ds]; [simpl in Hi; lia|].
  unfold compute_offsets. rewrite truediv_three_point_six. cbn [mbind option_bind].
  eapply offsets_loop_raises; eauto.
Qed.

(** *** Inputs for which nothing overflows *)






Section Bounded.
Variables (v_ms : Double.float) (m : positive) (T : Z).
Hypothesis Hv : Double.SF v_ms = SpecFloat.S754_finite false m T.
Hypothesis HT : -94 <= T.


End Bounded.






(** [compute_offsets] raises exactly when a cumulative travel time is not
    a finite double: the speed in m/s has underflowed to zero (the division
    then raises, [ZeroDivisionError]) or a quotient or the sum has
    overflowed ([int()] then raises on the NaN that [%] gives).  An empty
    list of distances never raises. *)
Theorem compute_offsets_raises_iff (distances_m : list Double.float) (cycle_s : Z)
    (v_prog_kmh : Double.float) :
  Forall (fun d => PrimFloat.leb PrimFloat.zero d = true) distances_m ->
  0 < cycle_s < 2 ^ 53 ->
  PrimFloat.ltb PrimFloat.zero v_prog_kmh = true ->
  compute_offsets distances_m cycle_s v_prog_kmh = None
  <-> exists i, (i < length distances_m)%nat
                /\ Double.is_finite (travel_time_sum distances_m v_prog_kmh i) = false.
Proof.
  intros Hds Hc Hv. split.
  - intros E.
    destruct (all_or_some
                (fun i => Double.is_finite (travel_time_sum distances_m v_prog_kmh i))
                (length distances_m)) as [Hfin|H]; [|exact H].
    destruct (compute_offsets_returns distances_m cycle_s v_prog_kmh Hds Hc Hv Hfin)
      as (offsets & E' & _). congruence.
  - intros (i & Hi & Hnf). eapply compute_offsets_raises; eauto.
Qed.

Lemma compute_offsets_raises_iff_witness :
  compute_offsets [Double.lit 300] 90 (Double.of_dyadic 1 (-1074)) = None
  /\ compute_offsets [Double.of_dyadic 1 1023] 90 (Double.of_dyadic 1 (-1000)) = None.
Proof.
  split.
  - destruct (compute_offsets_raises_iff [Double.lit 300] 90
                (Double.of_dyadic 1 (-1074))) as [_ H].
    + repeat constructor.
    + lia.
    + reflexivity.
    + apply H. exists 0%nat. split; [simpl; lia | reflexivity].
  - destruct (compute_offsets_raises_iff [Double.of_dyadic 1 1023] 90
                (Double.of_dyadic 1 (-1000))) as [_ H].
    + repeat constructor.
    + lia.
    + reflexivity.
    + apply H. exists 0%nat. split; [simpl; lia | reflexivity].
Defined.

Record band := {
  band_node : string;
  band_start : Z;
  band_end : Z;
  band_width : Z;
  band_offset : Z
}.

(** [int(main_split * cycle_s)]: the int is converted, the product is
    rounded to a double and truncated; [int()] raises on an infinity or a
    NaN. *)
Definition green_width (main_split : Double.float) (cycle_s : Z) : option Z :=
  w ← Double.mul_int main_split cycle_s; Double.int w.

Definition compute_green_band (node_ids : list string)
    (offsets_map : gmap string Z) (cycle_s : Z) (main_split : Double.float)
    : option (list band) :=
  green_width ← green_width main_split cycle_s;
  Some (map (fun node_id =>
               let offset := default 0 (offsets_map !! node_id) in
               let start_time := offset in
               let end_time := Z.min cycle_s (start_time + green_width) in
               let end_time := if end_time <? start_time then cycle_s else end_time in
               {| band_node := node_id; band_start := start_time;
                  band_end := end_time; band_width := green_width;
                  band_offset := offset |})
            node_ids).

Lemma int_nn f :
  Double.nn (Double.SF f) ->
  match Double.int f with
  | Some k => 0 <= k /\ Double.is_finite f = true
  | None => Double.is_finite f = false
  end.
Proof.
  unfold Double.int, Double.value, Double.is_finite.
  destruct (Double.SF f) as [s|s| |s m e]; cbn [Double.SF2Q fmap option_fmap option_map].
  - intros _. split; [reflexivity|reflexivity].
  - reflexivity.
  - reflexivity.
  - destruct s; [intros []|]. intros _. split; [|reflexivity].
    cbn [SpecFloat.cond_Zopp].
    assert (H0 : (0 <= inject_Z (Z.pos m) * Double.pow2 e)%Q).
    { apply Qmult_le_0_compat; [|apply Qlt_le_weak, Double.pow2_pos].
      change 0%Q with (inject_Z 0). rewrite <- Zle_Qle. lia. }
    rewrite (Py.int_nonneg_floor _ H0).
    change 0 with (Qfloor (inject_Z 0)). now apply Qfloor_resp_le.
Qed.

(** The green window of a node starts at its offset and is cut at the end
    of the cycle, never wrapped around it.  For a non-negative split and a
    positive cycle below [2^53] the width is the product
    [main_split * cycle_s], rounded to a double and then truncated, and is
    not negative; [end = min(cycle, start + width)] (the boundary case of
    the source never changes that value), so [end <= cycle], and
    [start <= end] whenever the offset lies within the cycle.  A node
    without an entry in the offset map gets offset 0 and the bands come in
    the order of [node_ids].  The function raises exactly when the product
    is not a finite double. *)
Theorem green_band_shape (node_ids : list string) (offsets_map : gmap string Z)
    (cycle_s : Z) (main_split : Double.float) :
  PrimFloat.leb PrimFloat.zero main_split = true -> 0 < cycle_s < 2 ^ 53 ->
  exists c, Double.of_int cycle_s = Some c
  /\ match compute_green_band node_ids offsets_map cycle_s main_split with
     | None => Double.is_finite (PrimFloat.mul main_split c) = false
     | Some bands =>
         length bands = length node_ids
         /\ exists w,
              Double.int (PrimFloat.mul main_split c) = Some w /\ 0 <= w
              /\ forall i node_id, node_ids !! i = Some node_id ->
                   exists b,
                     bands !! i = Some b
                     /\ band_node b = node_id
                     /\ band_start b = default 0 (offsets_map !! node_id)
                     /\ band_offset b = band_start b
                     /\ band_width b = w
                     /\ band_end b = Z.min cycle_s (band_start b + w)
                     /\ band_end b <= cycle_s
                     /\ (band_start b <= cycle_s -> band_start b <= band_end b)
     end.
Proof.
  intros Hs Hc.
  destruct (Double.of_int_small cycle_s Hc) as (c & mc & tc & Ec & Hsf & _).
  exists c. split; [exact Ec|].
  unfold compute_green_band, green_width, Double.mul_int. rewrite Ec.
  cbn [mbind option_bind].
  assert (Hnn : Double.nn (Double.SF (PrimFloat.mul main_split c))).
  { unfold Double.SF. rewrite FloatAxioms.mul_spec. apply Double.nn_mul.
    - now apply Double.leb_zero_nn.
    - fold (Double.SF c). now rewrite Hsf. }
  pose proof (int_nn _ Hnn) as Hi.
  destruct (Double.int (PrimFloat.mul main_split c)) as [w|]; cbn [mbind option_bind];
    [|exact Hi].
  destruct Hi as [Hw _]. split; [apply length_map|].
  exists w. split; [reflexivity|]. split; [exact Hw|].
  intros i node_id Hi. eexists. split.
  - rewrite list_lookup_fmap, Hi. reflexivity.
  - cbn [band_node band_start band_offset band_width band_end].
    set (o := default 0 (offsets_map !! node_id)) in *.
    repeat split; try reflexivity.
    + destruct (Z.min cycle_s (o + w) <? o) eqn:E; lia.
    + destruct (Z.min cycle_s (o + w) <? o) eqn:E; lia.
    + intros Ho. destruct (Z.min cycle_s (o + w) <? o) eqn:E; lia.
Qed.

Lemma green_band_shape_witness :
  exists bands b,
    compute_green_band ["J1"; "J9"] {["J1" := 80]} 90 (Double.dec 7 10) = Some bands
    /\ bands !! 0%nat = Some b
    /\ band_start b = 80 /\ band_end b = 90 /\ band_width b = 62.
Proof.
  destruct (green_band_shape ["J1"; "J9"] {["J1" := 80]} 90 (Double.dec 7 10))
    as (c & Ec & H); [reflexivity | lia |].
  destruct (compute_green_band ["J1"; "J9"] {["J1" := 80]} 90 (Double.dec 7 10))
    as [bands|] eqn:E; [|vm_compute in E; discriminate].
  destruct H as (_ & w & Ew & _ & H).
  destruct (H 0%nat "J1" eq_refl) as (b & Eb & _ & Hs & _ & Hw & He & _).
  assert (Hw62 : w = 62).
  { vm_compute in Ec. injection Ec as <-. vm_compute in Ew. congruence. }
  exists bands, b. rewrite He, Hs, Hw, Hw62. auto.
Defined.

End Offsets64.

(** ** [backend/core/glide/tsp.py]

    The controller and the decision with floats read as exact rationals.
    It carries the bookkeeping facts (extension budget, totals, what a
    grant or a reset leaves unchanged, the headway of sorted records).  The
    thresholds and the cooldown as the program computes them are in
    [Tsp64] below. *)

Module Tsp.

(** The [reason] text of a decision.  The source formats it with f-strings
    ([f"Late bus: headway {h_now:.0f}s > {H+delta:.0f}s"], ...); the
    embedding keeps the template and the numbers that are interpolated. *)
Inductive reason_text :=
| NoReason
| LateBus (h_now bound : Q)
| EarlyBus (h_now bound : Q)
| NormalHeadway (h_now lo hi : Q).

Record TSPDecision := {
  grant : bool;
  extend : Z;
  advance : Z;
  hold : Z;
  reason : reason_text
}.

(** [TSPDecision()] with the dataclass defaults. *)
Definition TSPDecision_default : TSPDecision :=
  {| grant := false; extend := 0; advance := 0; hold := 0; reason := NoReason |}.

Record TSPController := {
  last_grant_time : gmap string Q;
  total_extensions : gmap string Z;
  cycle_start_time : gmap string Q
}.

(** [TSPController.__init__] *)
Definition TSPController_init : TSPController :=
  {| last_grant_time := ∅; total_extensions := ∅; cycle_start_time := ∅ |}.

Definition reset_cycle (self : TSPController) (tls_id : string)
    (current_time : Q) : TSPController :=
  {| last_grant_time := last_grant_time self;
     total_extensions := <[tls_id := 0]> (total_extensions self);
     cycle_start_time := <[tls_id := current_time]> (cycle_start_time self) |}.

Definition can_grant_tsp (self : TSPController) (tls_id : string)
    (current_time : Q) (cooldown : Z) : bool :=
  let last_time := default 0%Q (last_grant_time self !! tls_id) in
  Py.leb (inject_Z cooldown) (current_time - last_time).

Definition get_cycle_extensions (self : TSPController) (tls_id : string) : Z :=
  default 0 (total_extensions self !! tls_id).

Definition record_grant (self : TSPController) (tls_id : string)
    (current_time : Q) (extend_sec : Z) : TSPController :=
  let current_ext := default 0 (total_extensions self !! tls_id) in
  {| last_grant_time := <[tls_id := current_time]> (last_grant_time self);
     total_extensions := <[tls_id := current_ext + extend_sec]> (total_extensions self);
     cycle_start_time := cycle_start_time self |}.

Definition tsp_policy (h_now H delta : Q) (max_ext max_adv cooldown : Z)
    : TSPDecision :=
  if Py.ltb (H + delta) h_now then
    {| grant := true; extend := max_ext; advance := max_adv; hold := 0;
       reason := LateBus h_now (H + delta) |}
  else if Py.ltb h_now (H - delta) then
    {| grant := false; extend := 0; advance := 0; hold := 15;
       reason := EarlyBus h_now (H - delta) |}
  else
    {| grant := false; extend := 0; advance := 0; hold := 0;
       reason := NormalHeadway h_now (H - delta) (H + delta) |}.

Definition apply_tsp_to_phase (current_green_remaining current_cycle_extensions : Z)
    (decision : TSPDecision) (min_green max_cycle_extension : Z) : Z * bool :=
  if negb (grant decision) then (0, false)
  else
    let remaining_budget := max_cycle_extension - current_cycle_extensions in
    if remaining_budget <=? 0 then (0, false)
    else
      let requested_extension := extend decision in
      let actual_extension := Z.min requested_extension remaining_budget in
      if actual_extension <=? 0 then (0, false)
      else (actual_extension, true).

(** *** Use of the controller

    The workflow of the callers ([SumoCorridorSimulator.apply_tsp_control]
    and the integration test): the extension is asked from
    [apply_tsp_to_phase] with the node's current cycle total, and is
    recorded with [record_grant] when it is granted. *)
Definition grant_extension (max_cycle_extension : Z) (self : TSPController)
    (tls_id : string) (current_time : Q) (current_green_remaining : Z)
    (decision : TSPDecision) (min_green : Z) : TSPController * Z :=
  let current_ext := get_cycle_extensions self tls_id in
  let '(actual_ext, granted) :=
    apply_tsp_to_phase current_green_remaining current_ext decision
                       min_green max_cycle_extension in
  if granted && (0 <? actual_ext)
  then (record_grant self tls_id current_time actual_ext, actual_ext)
  else (self, 0).

(** Operations on a controller over time. *)
Inductive op :=
| Reset (tls_id : string) (current_time : Q)
| Extend (tls_id : string) (current_time : Q) (current_green_remaining : Z)
         (decision : TSPDecision) (min_green : Z).

Definition op_node (o : op) : string :=
  match o with Reset n _ => n | Extend n _ _ _ _ => n end.

(** The controller after an operation, with the seconds it granted. *)
Definition exec (budget : Z) (self : TSPController) (o : op) : TSPController * Z :=
  match o with
  | Reset n t => (reset_cycle self n t, 0)
  | Extend n t g d mg => grant_extension budget self n t g d mg
  end.

(** Replays [ops]; next to the controller it sums, for node [n], the
    seconds granted since the last [Reset] of [n] (an observer's count, kept
    apart from the controller's own [total_extensions]). *)
Fixpoint replay (budget : Z) (n : string) (self : TSPController) (granted : Z)
    (ops : list op) : TSPController * Z :=
  match ops with
  | [] => (self, granted)
  | o :: rest =>
      let '(self', a) := exec budget self o in
      let granted' :=
        if decide (op_node o = n)
        then match o with Reset _ _ => 0 | Extend _ _ _ _ _ => granted + a end
        else granted in
      replay budget n self' granted' rest
  end.

(** *** Headway of the last bus *)

(** [calculate_headway]; [target_bus_id] is tested for truth, so [None] and
    the empty string both select the last two records. *)
Definition calculate_headway (bus_times : list (string * Q))
    (target_bus_id : option string) : Q :=
  if (length bus_times <? 2)%nat then (360 # 1)%Q
  else
    match target_bus_id with
    | Some tid =>
        if bool_decide (tid = "") then
          (default 0%Q (snd <$> last bus_times)
           - default 0%Q (snd <$> bus_times !! (length bus_times - 2)%nat))%Q
        else
          match list_find (fun r => fst r = tid) bus_times with
          | Some (S i, r) =>
              (snd r - default 0%Q (snd <$> bus_times !! i))%Q
          | _ => (360 # 1)%Q
          end
    | None =>
        (default 0%Q (snd <$> last bus_times)
         - default 0%Q (snd <$> bus_times !! (length bus_times - 2)%nat))%Q
    end.

(** Records ordered by time. *)
Definition time_sorted (bus_times : list (string * Q)) : Prop :=
  forall i j ri rj, (i <= j)%nat ->
    bus_times !! i = Some ri -> bus_times !! j = Some rj -> (snd ri <= snd rj)%Q.

(** *** Extension budget *)

Lemma apply_tsp_to_phase_cases g cur d mg budget :
  let '(a, granted) := apply_tsp_to_phase g cur d mg budget in
  (granted = true /\ a = Z.min (extend d) (budget - cur)
   /\ 0 < a /\ grant d = true /\ a <= budget - cur)
  \/ (granted = false /\ a = 0).
Proof.
  unfold apply_tsp_to_phase.
  destruct (grant d); simpl; [|right; auto].
  destruct (budget - cur <=? 0) eqn:E1; [right; auto|].
  destruct (Z.min (extend d) (budget - cur) <=? 0) eqn:E2; [right; auto|].
  left. repeat split; lia.
Qed.

Lemma grant_extension_total budget self n t g d mg m :
  get_cycle_extensions self m <= budget ->
  let '(self', a) := grant_extension budget self n t g d mg in
  0 <= a
  /\ get_cycle_extensions self' m <= budget
  /\ get_cycle_extensions self' m =
     get_cycle_extensions self m + (if decide (n = m) then a else 0).
Proof.
  intros Hle. unfold grant_extension.
  pose proof (apply_tsp_to_phase_cases g (get_cycle_extensions self n) d mg budget) as Hc.
  destruct (apply_tsp_to_phase g (get_cycle_extensions self n) d mg budget) as [a granted].
  destruct Hc as [(-> & Ha & Hpos & _ & Hb) | (-> & ->)]; simpl.
  - assert (E : (0 <? a) = true) by lia. rewrite E.
    unfold get_cycle_extensions in *. simpl.
    destruct (decide (n = m)) as [->|Hne].
    + rewrite lookup_insert_eq. simpl. repeat split; lia.
    + rewrite lookup_insert_ne by assumption. repeat split; lia.
  - destruct (decide (n = m)); repeat split; lia.
Qed.

Lemma replay_invariant budget n ops : 0 <= budget -> forall self granted,
  granted = get_cycle_extensions self n -> granted <= budget ->
  let '(self', granted') := replay budget n self granted ops in
  granted' = get_cycle_extensions self' n /\ granted' <= budget.
Proof.
  intros H0.
  induction ops as [|o ops IH]; intros self granted Hg Hb; simpl; [auto|].
  destruct o as [m t | m t g d mg]; simpl.
  - destruct (decide (m = n)) as [->|Hne]; apply IH;
      unfold get_cycle_extensions, reset_cycle; simpl.
    + now rewrite lookup_insert_eq.
    + exact H0.
    + now rewrite lookup_insert_ne.
    + exact Hb.
  - pose proof (grant_extension_total budget self m t g d mg n) as Ht.
    destruct (grant_extension budget self m t g d mg) as [self' a].
    destruct Ht as (Ha & Hle & Heq); [lia|].
    apply IH; destruct (decide (m = n)); lia.
Qed.

(** C3.  [apply_tsp_to_phase] returns
    [(min (decision.extend, max_cycle_extension - current_cycle_extensions), True)]
    when the decision grants, the remaining budget is positive and that
    minimum is positive, and [(0, False)] when the decision does not grant or
    the budget is exhausted.  Consequently, over any sequence of cycle
    resets and of grants whose amount comes from [apply_tsp_to_phase] and is
    recorded with [record_grant], the seconds granted at a node since its
    last [reset_cycle] equal the controller's cycle total for that node and
    never exceed the configured budget. *)
Theorem extension_budget_respected (budget : Z) :
  0 <= budget ->
  (forall g cur d mg,
     grant d = true -> 0 < budget - cur -> 0 < Z.min (extend d) (budget - cur) ->
     apply_tsp_to_phase g cur d mg budget = (Z.min (extend d) (budget - cur), true))
  /\ (forall g cur d mg,
     grant d = false \/ budget - cur <= 0 ->
     apply_tsp_to_phase g cur d mg budget = (0, false))
  /\ (forall (ops : list op) (n : string),
     let '(self, granted) := replay budget n TSPController_init 0 ops in
     granted = get_cycle_extensions self n /\ granted <= budget).
Proof.
  intros Hb. repeat split.
  - intros g cur d mg Hg H1 H2. unfold apply_tsp_to_phase. rewrite Hg. simpl.
    destruct (budget - cur <=? 0) eqn:E1; [lia|].
    destruct (Z.min (extend d) (budget - cur) <=? 0) eqn:E2; [lia|]. reflexivity.
  - intros g cur d mg [Hg | Hx]; unfold apply_tsp_to_phase.
    + now rewrite Hg.
    + destruct (grant d); simpl; [|reflexivity].
      destruct (budget - cur <=? 0) eqn:E1; [reflexivity | lia].
  - intros ops n.
    exact (replay_invariant budget n ops Hb TSPController_init 0 eq_refl Hb).
Qed.

Lemma extension_budget_respected_witness :
  0 <= 10
  /\ apply_tsp_to_phase 20 8 (tsp_policy (480 # 1) (360 # 1) (90 # 1) 8 6 60) 10 10
     = (2, true)
  /\ apply_tsp_to_phase 20 10 (tsp_policy (480 # 1) (360 # 1) (90 # 1) 8 6 60) 10 10
     = (0, false)
  /\ let '(self, granted) :=
       replay 10 "J1" TSPController_init 0
         [Extend "J1" (31 # 1) 20 (tsp_policy (480 # 1) (360 # 1) (90 # 1) 8 6 60) 10;
          Extend "J1" (95 # 1) 12 (tsp_policy (480 # 1) (360 # 1) (90 # 1) 8 6 60) 10] in
     granted = get_cycle_extensions self "J1" /\ granted <= 10.
Proof.
  destruct (extension_budget_respected 10) as (H1 & H2 & H3); [lia|].
  split; [lia|]. split; [|split].
  - apply (H1 20 8 (tsp_policy (480 # 1) (360 # 1) (90 # 1) 8 6 60) 10);
      [reflexivity | lia | reflexivity].
  - apply (H2 20 10 (tsp_policy (480 # 1) (360 # 1) (90 # 1) 8 6 60) 10).
    right. lia.
  - apply (H3 [Extend "J1" (31 # 1) 20 (tsp_policy (480 # 1) (360 # 1) (90 # 1) 8 6 60) 10;
               Extend "J1" (95 # 1) 12 (tsp_policy (480 # 1) (360 # 1) (90 # 1) 8 6 60) 10]
              "J1").
Defined.

(** *** Cooldown *)

Lemma can_grant_after_record self n t ext t' cooldown :
  can_grant_tsp (record_grant self n t ext) n t' cooldown
  = Py.leb (inject_Z cooldown) (t' - t).
Proof.
  unfold can_grant_tsp, record_grant. simpl. now rewrite lookup_insert_eq.
Qed.

(** *** Facts on the controller *)

Lemma record_grant_total (self : TSPController) (n : string) (t : Q) (ext : Z) :
  get_cycle_extensions (record_grant self n t ext) n
  = get_cycle_extensions self n + ext.
Proof.
  unfold get_cycle_extensions, record_grant. simpl. now rewrite lookup_insert_eq.
Qed.

Lemma record_grant_other (self : TSPController) (n m : string) (t t' : Q)
    (ext cooldown : Z) :
  m <> n ->
  get_cycle_extensions (record_grant self n t ext) m = get_cycle_extensions self m
  /\ can_grant_tsp (record_grant self n t ext) m t' cooldown
     = can_grant_tsp self m t' cooldown.
Proof.
  intros Hne. unfold get_cycle_extensions, can_grant_tsp, record_grant. simpl.
  rewrite !lookup_insert_ne by congruence. auto.
Qed.

(** [record_grant] at a node restarts that node's cooldown and adds to that
    node's cycle total; every other node keeps its total and its cooldown. *)
Theorem record_grant_effect (self : TSPController) (n m : string) (t t' : Q)
    (ext cooldown : Z) :
  get_cycle_extensions (record_grant self n t ext) n
  = get_cycle_extensions self n + ext
  /\ (m <> n ->
      get_cycle_extensions (record_grant self n t ext) m = get_cycle_extensions self m
      /\ can_grant_tsp (record_grant self n t ext) m t' cooldown
         = can_grant_tsp self m t' cooldown).
Proof.
  unfold get_cycle_extensions, can_grant_tsp, record_grant. simpl. split.
  - now rewrite lookup_insert_eq.
  - intros Hne. rewrite !lookup_insert_ne by congruence. auto.
Qed.

Lemma record_grant_effect_witness :
  get_cycle_extensions (record_grant TSPController_init "J1" (100 # 1) 5) "J2" = 0
  /\ can_grant_tsp (record_grant TSPController_init "J1" (100 # 1) 5) "J2" (100 # 1) 60
     = true.
Proof.
  destruct (record_grant_effect TSPController_init "J1" "J2" (100 # 1) (100 # 1) 5 60)
    as [_ H].
  destruct H as [H1 H2]; [discriminate|].
  split; [exact H1 | rewrite H2; reflexivity].
Defined.

(** [reset_cycle] at a node sets that node's cycle total back to 0 and
    touches nothing else: the totals of the other nodes stay, and no node's
    cooldown is cleared, the reset node's included. *)
Theorem reset_cycle_effect (self : TSPController) (n m : string) (t t' : Q)
    (cooldown : Z) :
  get_cycle_extensions (reset_cycle self n t) n = 0
  /\ can_grant_tsp (reset_cycle self n t) m t' cooldown
     = can_grant_tsp self m t' cooldown
  /\ (m <> n ->
      get_cycle_extensions (reset_cycle self n t) m = get_cycle_extensions self m).
Proof.
  unfold get_cycle_extensions, can_grant_tsp, reset_cycle. simpl.
  split; [now rewrite lookup_insert_eq|]. split; [reflexivity|].
  intros Hne. now rewrite lookup_insert_ne by congruence.
Qed.

Lemma reset_cycle_effect_witness :
  get_cycle_extensions
    (reset_cycle (record_grant TSPController_init "J1" (100 # 1) 5) "J2" (190 # 1)) "J1"
  = 5.
Proof.
  destruct (reset_cycle_effect (record_grant TSPController_init "J1" (100 # 1) 5)
              "J2" "J1" (190 # 1) 0%Q 60) as (_ & _ & H).
  rewrite H; [reflexivity | discriminate].
Defined.

(** A node that never had a grant is treated as granted at time 0: on a
    fresh controller [can_grant_tsp] answers [True] exactly from
    [current_time >= cooldown] on. *)
Theorem fresh_node_cooldown (n : string) (t : Q) (cooldown : Z) :
  can_grant_tsp TSPController_init n t cooldown = true
  <-> (inject_Z cooldown <= t)%Q.
Proof.
  unfold can_grant_tsp, TSPController_init. simpl. rewrite lookup_empty. simpl.
  rewrite Py.leb_le. split; intros H; lra.
Qed.

(** *** Facts on the headway *)

Lemma last_two_sorted (bus_times : list (string * Q)) :
  time_sorted bus_times -> (2 <= length bus_times)%nat ->
  (0 <= default 0%Q (snd <$> last bus_times)
        - default 0%Q (snd <$> bus_times !! (length bus_times - 2)%nat))%Q.
Proof.
  intros Hs Hl. rewrite last_lookup.
  destruct (bus_times !! Nat.pred (length bus_times)) as [rl|] eqn:El.
  2:{ apply lookup_ge_None in El. lia. }
  destruct (bus_times !! (length bus_times - 2)%nat) as [rp|] eqn:Ep.
  2:{ apply lookup_ge_None in Ep. lia. }
  simpl. assert (H : (snd rp <= snd rl)%Q); [|lra].
  eapply (Hs (length bus_times - 2)%nat (Nat.pred (length bus_times))); eauto. lia.
Qed.

(** On records ordered by time the headway is never negative, with or
    without a target bus; when it cannot be computed (fewer than two
    records, or a target that is absent or has no predecessor) it is the
    default 360. *)
Theorem calculate_headway_sorted (bus_times : list (string * Q))
    (target_bus_id : option string) :
  time_sorted bus_times ->
  (0 <= calculate_headway bus_times target_bus_id)%Q
  /\ ((length bus_times < 2)%nat ->
      calculate_headway bus_times target_bus_id = (360 # 1)%Q)
  /\ (forall tid, target_bus_id = Some tid -> tid <> "" ->
        (tid ∉ (fst <$> bus_times) \/ fst <$> head bus_times = Some tid) ->
        calculate_headway bus_times target_bus_id = (360 # 1)%Q).
Proof.
  intros Hs. unfold calculate_headway. split; [|split].
  - destruct (length bus_times <? 2)%nat eqn:El; [discriminate|].
    apply Nat.ltb_ge in El.
    destruct target_bus_id as [tid|]; [|now apply last_two_sorted].
    destruct (bool_decide (tid = "")); [now apply last_two_sorted|].
    destruct (list_find _ bus_times) as [[[|i] r]|] eqn:Ef; try discriminate.
    apply list_find_Some in Ef as (Hr & _ & _).
    destruct (bus_times !! i) as [rp|] eqn:Ep.
    2:{ apply lookup_ge_None in Ep. apply lookup_lt_Some in Hr. lia. }
    simpl. assert (H : (snd rp <= snd r)%Q); [|lra].
    eapply (Hs i (S i)); eauto.
  - intros Hl. apply Nat.ltb_lt in Hl. now rewrite Hl.
  - intros tid -> Hne Hcase.
    destruct (length bus_times <? 2)%nat; [reflexivity|].
    rewrite bool_decide_eq_false_2 by exact Hne.
    destruct (list_find _ bus_times) as [[[|i] r]|] eqn:Ef; try reflexivity.
    exfalso. apply list_find_Some in Ef as (Hr & Hfst & Hprev).
    destruct Hcase as [Habs | Hhead].
    + apply Habs. apply list_elem_of_fmap. exists r. split; [now symmetry|].
      eapply list_elem_of_lookup_2; eauto.
    + destruct bus_times as [|r0 rest]; [discriminate|]. simpl in Hhead.
      injection Hhead as Hhead.
      apply (Hprev 0%nat r0); [reflexivity | lia | exact Hhead].
Qed.

Lemma calculate_headway_sorted_witness :
  (0 <= calculate_headway [("bus_1", 100 # 1); ("bus_2", 460 # 1); ("bus_3", 820 # 1)]%Q
                          (Some "bus_2"))%Q
  /\ calculate_headway [("bus_1", 100 # 1); ("bus_2", 460 # 1); ("bus_3", 820 # 1)]%Q
                       (Some "bus_1") = (360 # 1)%Q.
Proof.
  assert (Hs : time_sorted [("bus_1", 100 # 1); ("bus_2", 460 # 1); ("bus_3", 820 # 1)]%Q).
  { intros i j ri rj Hij Hi Hj.
    destruct i as [|[|[|i]]]; destruct j as [|[|[|j]]]; simpl in Hi, Hj;
      try discriminate; try lia;
      injection Hi as <-; injection Hj as <-; simpl; discriminate. }
  split.
  - apply (calculate_headway_sorted _ (Some "bus_2") Hs).
  - destruct (calculate_headway_sorted _ (Some "bus_1") Hs) as (_ & _ & H).
    apply (H "bus_1"); [reflexivity | discriminate | right; reflexivity].
Defined.

End Tsp.

(** ** [backend/core/glide/tsp.py] in binary64 *)

Module Tsp64.

(** The [reason] text of a decision, with the numbers that the f-strings
    interpolate. *)
Inductive reason_text :=
| NoReason
| LateBus (h_now bound : Double.float)
| EarlyBus (h_now bound : Double.float)
| NormalHeadway (h_now lo hi : Double.float).

Record TSPDecision := {
  grant : bool;
  extend : Z;
  advance : Z;
  hold : Z;
  reason : reason_text
}.

Definition tsp_policy (h_now H delta : Double.float)
    (max_ext max_adv cooldown : Z) : TSPDecision :=
  if PrimFloat.ltb (PrimFloat.add H delta) h_now then
    {| grant := true; extend := max_ext; advance := max_adv; hold := 0;
       reason := LateBus h_now (PrimFloat.add H delta) |}
  else if PrimFloat.ltb h_now (PrimFloat.sub H delta) then
    {| grant := false; extend := 0; advance := 0; hold := 15;
       reason := EarlyBus h_now (PrimFloat.sub H delta) |}
  else
    {| grant := false; extend := 0; advance := 0; hold := 0;
       reason := NormalHeadway h_now (PrimFloat.sub H delta) (PrimFloat.add H delta) |}.

Definition apply_tsp_to_phase (current_green_remaining current_cycle_extensions : Z)
    (decision : TSPDecision) (min_green max_cycle_extension : Z) : Z * bool :=
  if negb (grant decision) then (0, false)
  else
    let remaining_budget := max_cycle_extension - current_cycle_extensions in
    if remaining_budget <=? 0 then (0, false)
    else
      let requested_extension := extend decision in
      let actual_extension := Z.min requested_extension remaining_budget in
      if actual_extension <=? 0 then (0, false)
      else (actual_extension, true).

Record TSPController := {
  last_grant_time : gmap string Double.float;
  total_extensions : gmap string Z;
  cycle_start_time : gmap string Double.float
}.

(** [TSPController.__init__] *)
Definition TSPController_init : TSPController :=
  {| last_grant_time := ∅; total_extensions := ∅; cycle_start_time := ∅ |}.

(** [can_grant_tsp]: the elapsed time is the double [current_time -
    last_time]; the [0] a node without a grant gets is converted to [0.0]
    by the subtraction. *)
Definition can_grant_tsp (self : TSPController) (tls_id : string)
    (current_time : Double.float) (cooldown : Z) : bool :=
  let last_time := default PrimFloat.zero (last_grant_time self !! tls_id) in
  Double.ge_int (PrimFloat.sub current_time last_time) cooldown.

Definition record_grant (self : TSPController) (tls_id : string)
    (current_time : Double.float) (extend_sec : Z) : TSPController :=
  let current_ext := default 0 (total_extensions self !! tls_id) in
  {| last_grant_time := <[tls_id := current_time]> (last_grant_time self);
     total_extensions := <[tls_id := current_ext + extend_sec]> (total_extensions self);
     cycle_start_time := cycle_start_time self |}.

(** One attempt under the cooldown: the grant is recorded only when
    [can_grant_tsp] allows it; the flag tells whether it was. *)
Definition grant_attempt (cooldown : Z) (self : TSPController)
    (tls_id : string) (current_time : Double.float) (extend_sec : Z)
    : TSPController * bool :=
  if can_grant_tsp self tls_id current_time cooldown
  then (record_grant self tls_id current_time extend_sec, true)
  else (self, false).

(** *** The decision function *)

(** C2.  For all doubles [h], [H] and [delta] with [delta >= 0], a
    tolerance, and all [max_ext], [max_adv], the decision is: grant with
    [extend = max_ext], [advance = max_adv], [hold = 0] when
    [h > H + delta]; no grant, [extend = advance = 0], [hold = 15] when
    [h < H - delta]; no grant and [extend = advance = hold = 0] otherwise,
    which includes [h == H + delta] and [h == H - delta] because both tests
    are strict.  The sums and the comparisons are those of the program, in
    binary64. *)
Theorem tsp_policy_cases (h H delta : Double.float) (max_ext max_adv cooldown : Z) :
  PrimFloat.leb PrimFloat.zero delta = true ->
  let d := tsp_policy h H delta max_ext max_adv cooldown in
  (PrimFloat.ltb (PrimFloat.add H delta) h = true ->
     grant d = true /\ extend d = max_ext /\ advance d = max_adv /\ hold d = 0)
  /\ (PrimFloat.ltb h (PrimFloat.sub H delta) = true ->
     grant d = false /\ extend d = 0 /\ advance d = 0 /\ hold d = 15)
  /\ (PrimFloat.ltb (PrimFloat.add H delta) h = false ->
      PrimFloat.ltb h (PrimFloat.sub H delta) = false ->
     grant d = false /\ extend d = 0 /\ advance d = 0 /\ hold d = 0)
  /\ (PrimFloat.eqb h (PrimFloat.add H delta) = true
      \/ PrimFloat.eqb h (PrimFloat.sub H delta) = true ->
     grant d = false /\ extend d = 0 /\ advance d = 0 /\ hold d = 0).
Proof.
  intros Hdelta d. unfold d, tsp_policy.
  pose proof (Double.thresholds_in_order H delta Hdelta) as Hord.
  destruct (PrimFloat.ltb (PrimFloat.add H delta) h) eqn:E1;
    [|destruct (PrimFloat.ltb h (PrimFloat.sub H delta)) eqn:E2];
    cbn [grant extend advance hold].
  - split; [intros _; repeat split; reflexivity|].
    split; [intros E2; rewrite (Double.ltb_trans _ _ _ E1 E2) in Hord; discriminate|].
    split; [discriminate|].
    intros [He|He]; exfalso.
    + pose proof (Double.eqb_ltb_r _ _ _ He E1) as Hc.
      rewrite Double.ltb_irrefl in Hc. discriminate.
    + pose proof (Double.eqb_ltb_r _ _ _ He E1) as Hc. congruence.
  - split; [discriminate|].
    split; [intros _; repeat split; reflexivity|].
    split; [discriminate|].
    intros [He|He]; exfalso.
    + pose proof (Double.eqb_ltb_l _ _ _ He E2) as Hc. congruence.
    + pose proof (Double.eqb_ltb_l _ _ _ He E2) as Hc.
      rewrite Double.ltb_irrefl in Hc. discriminate.
  - split; [discriminate|]. split; [discriminate|].
    split; intros; repeat split; reflexivity.
Qed.

Lemma tsp_policy_cases_witness :
  let late := tsp_policy (Double.dec 4503 10) (Double.dec 3602 10) (Double.dec 901 10) 8 6 60 in
  let early := tsp_policy (Double.dec 2699 10) (Double.dec 3601 10) (Double.dec 902 10) 8 6 60 in
  let edge := tsp_policy (Double.lit 450) (Double.lit 360) (Double.lit 90) 8 6 60 in
  (grant late = true /\ extend late = 8 /\ advance late = 6 /\ hold late = 0)
  /\ (grant early = false /\ extend early = 0 /\ advance early = 0 /\ hold early = 15)
  /\ (grant edge = false /\ extend edge = 0 /\ advance edge = 0 /\ hold edge = 0).
Proof.
  split; [|split].
  - apply (tsp_policy_cases (Double.dec 4503 10) (Double.dec 3602 10)
             (Double.dec 901 10) 8 6 60); reflexivity.
  - apply (tsp_policy_cases (Double.dec 2699 10) (Double.dec 3601 10)
             (Double.dec 902 10) 8 6 60); reflexivity.
  - apply (tsp_policy_cases (Double.lit 450) (Double.lit 360) (Double.lit 90) 8 6 60);
      [reflexivity|]. left. reflexivity.
Defined.

(** *** Cooldown *)

Lemma lt_int_not_ge f k : Double.lt_int f k = true -> Double.ge_int f k = false.
Proof.
  unfold Double.lt_int, Double.ge_int.
  destruct (Double.SF f) as [s|[]| |s m e]; cbn [Double.SF2Q negb];
    try discriminate; try reflexivity;
    intros H; apply Py.ltb_lt in H; now apply Py.leb_gt.
Qed.

Lemma elapsed_after_record self n t ext t' cooldown :
  can_grant_tsp (record_grant self n t ext) n t' cooldown
  = Double.ge_int (PrimFloat.sub t' t) cooldown.
Proof.
  unfold can_grant_tsp, record_grant. simpl. now rewrite lookup_insert_eq.
Qed.

(** C4.  After [record_grant n t], [can_grant_tsp n t' cooldown] is [False]
    whenever [t' - t < cooldown] and [True] whenever [t' - t >= cooldown],
    the difference being the double that the controller computes; hence of
    two grant attempts at one node, the second less than one cooldown after
    the first, at most one is granted.  At whole-second times below [2^53]
    the difference is exact, and the answer is [True] exactly when the
    integer [t' - t] is at least the cooldown. *)
Theorem cooldown_blocks_second_grant (self : TSPController) (n : string)
    (t t' : Double.float) (cooldown ext : Z) :
  (Double.lt_int (PrimFloat.sub t' t) cooldown = true ->
     can_grant_tsp (record_grant self n t ext) n t' cooldown = false)
  /\ (Double.ge_int (PrimFloat.sub t' t) cooldown = true ->
     can_grant_tsp (record_grant self n t ext) n t' cooldown = true)
  /\ (Double.lt_int (PrimFloat.sub t' t) cooldown = true -> forall ext',
     let '(self1, granted1) := grant_attempt cooldown self n t ext in
     let '(self2, granted2) := grant_attempt cooldown self1 n t' ext' in
     granted1 && granted2 = false)
  /\ (forall a b : Z, 0 <= a < 2 ^ 53 -> 0 <= b < 2 ^ 53 ->
     can_grant_tsp (record_grant self n (Double.lit a) ext) n (Double.lit b) cooldown
     = (cooldown <=? b - a)).
Proof.
  split; [|split; [|split]].
  - intros Hlt. rewrite elapsed_after_record. now apply lt_int_not_ge.
  - intros Hge. now rewrite elapsed_after_record.
  - intros Hlt ext'. unfold grant_attempt.
    destruct (can_grant_tsp self n t cooldown) eqn:E1.
    + rewrite elapsed_after_record, (lt_int_not_ge _ _ Hlt). reflexivity.
    + destruct (can_grant_tsp self n t' cooldown); reflexivity.
  - intros a b Ha Hb. rewrite elapsed_after_record.
    destruct (Double.sub_lit_value a b Ha Hb) as (q & Hv & Hq).
    exact (Double.ge_int_value _ cooldown q (b - a) Hv Hq).
Qed.

Lemma cooldown_blocks_second_grant_witness :
  can_grant_tsp (record_grant TSPController_init "J1" (Double.dec 41 10) 5) "J1"
                (Double.dec 641 10) 60 = false
  /\ can_grant_tsp (record_grant TSPController_init "J1" (Double.dec 3 10) 5) "J1"
                   (Double.dec 603 10) 60 = true
  /\ (let '(self1, granted1) :=
        grant_attempt 60 TSPController_init "J1" (Double.lit 1000) 5 in
      let '(self2, granted2) := grant_attempt 60 self1 "J1" (Double.lit 1030) 3 in
      granted1 && granted2 = false)
  /\ can_grant_tsp (record_grant TSPController_init "J1" (Double.lit 1000) 5) "J1"
                   (Double.lit 1060) 60 = true.
Proof.
  split; [|split; [|split]].
  - apply (cooldown_blocks_second_grant TSPController_init "J1" (Double.dec 41 10)
             (Double.dec 641 10) 60 5).
    reflexivity.
  - apply (cooldown_blocks_second_grant TSPController_init "J1" (Double.dec 3 10)
             (Double.dec 603 10) 60 5).
    reflexivity.
  - destruct (cooldown_blocks_second_grant TSPController_init "J1" (Double.lit 1000)
                (Double.lit 1030) 60 5) as (_ & _ & H & _).
    assert (Hlt : Double.lt_int (PrimFloat.sub (Double.lit 1030) (Double.lit 1000)) 60
                  = true) by reflexivity.
    exact (H Hlt 3).
  - destruct (cooldown_blocks_second_grant TSPController_init "J1" (Double.lit 1000)
                (Double.lit 1030) 60 5) as (_ & _ & _ & H).
    rewrite (H 1000 1060); [reflexivity | lia | lia].
Defined.

(** *** The decision applied to a phase *)

(** What [apply_tsp_to_phase] makes of a decision of [tsp_policy]: an
    extension is granted exactly when the bus is late ([h > H + delta], the
    sum rounded and compared as the program does), [max_ext] is positive and
    the cycle total is below the budget; it is then
    [min(max_ext, budget - total)], hence positive, at most [max_ext] and
    within the budget.  In every other case the result is [(0, False)].  The
    remaining green and [min_green] have no influence on the result. *)
Theorem policy_applied_to_phase (h H delta : Double.float)
    (max_ext max_adv cooldown : Z) (green_remaining cur min_green budget : Z) :
  let r := apply_tsp_to_phase green_remaining cur
             (tsp_policy h H delta max_ext max_adv cooldown) min_green budget in
  (snd r = true
   <-> PrimFloat.ltb (PrimFloat.add H delta) h = true /\ 0 < max_ext /\ cur < budget)
  /\ (snd r = true ->
      fst r = Z.min max_ext (budget - cur)
      /\ 0 < fst r /\ fst r <= max_ext /\ cur + fst r <= budget)
  /\ (snd r = false -> fst r = 0)
  /\ (forall green_remaining' min_green',
        apply_tsp_to_phase green_remaining' cur
          (tsp_policy h H delta max_ext max_adv cooldown) min_green' budget = r).
Proof.
  unfold apply_tsp_to_phase, tsp_policy. cbv zeta.
  destruct (PrimFloat.ltb (PrimFloat.add H delta) h) eqn:E1; cbn [grant extend negb].
  - destruct (budget - cur <=? 0) eqn:E2; cbn [fst snd].
    + repeat split; try discriminate; try reflexivity. intros (_ & _ & Hlt). lia.
    + destruct (Z.min max_ext (budget - cur) <=? 0) eqn:E3; cbn [fst snd].
      * repeat split; try discriminate; try reflexivity. intros (_ & Hp & Hlt). lia.
      * repeat split; try reflexivity; try lia.
  - destruct (PrimFloat.ltb h (PrimFloat.sub H delta)); cbn [grant negb fst snd];
      repeat split; try discriminate; try reflexivity; intros (Hc & _); discriminate.
Qed.

Lemma policy_applied_to_phase_witness :
  apply_tsp_to_phase 12 7
    (tsp_policy (Double.dec 4503 10) (Double.dec 3602 10) (Double.dec 901 10) 8 6 60) 5 10
  = (3, true).
Proof.
  pose proof (policy_applied_to_phase (Double.dec 4503 10) (Double.dec 3602 10)
                (Double.dec 901 10) 8 6 60 12 7 5 10) as (Hiff & Hval & _).
  destruct (apply_tsp_to_phase 12 7 _ 5 10) as [a g]. cbn [fst snd] in *.
  assert (Hg : g = true) by (apply Hiff; split; [reflexivity | lia]).
  destruct (Hval Hg) as (Ha & _). subst. reflexivity.
Defined.

End Tsp64.

(** ** [backend/core/glide/sumo_corridor.py]: the TSP control step

    The simulator talks to SUMO through TraCI.  What TraCI answers is an
    input here: whether [traci.switch] succeeds, and for each signal the
    phase index and the time of the next switch, or [None] when one of the
    two calls raises. *)

Module SumoCorridor.
Import Tsp.

Inductive event_type := TSP_EXTEND | BUS_HOLD.

Record event := {
  ev_t : Z;
  ev_type : event_type;
  ev_node : string;
  ev_sec : Z;
  ev_headway : Q;
  ev_reason : reason_text
}.

(** The fields of [SumoCorridorSimulator] the control step uses. *)
Record SumoCorridorSimulator := {
  tsp_controller : TSPController;
  bus_passage_times : list (string * Q);
  events : list event
}.

(** [SumoCorridorSimulator.__init__] *)
Definition simulator_init : SumoCorridorSimulator :=
  {| tsp_controller := TSPController_init; bus_passage_times := []; events := [] |}.

(** The [tsp_config] dictionary, read with [get] and a default. *)
Record tsp_config := {
  H_sec : option Q;
  delta_sec : option Q;
  max_extend : option Z;
  max_advance : option Z
}.

Definition tls_ids : list string := ["J1"; "J2"; "J3"].

(** The body of [for tls_id in ["J1", "J2", "J3"]:], on the controller and
    the events of this call. *)
Definition control_node (sim_time : Z) (reading : string -> option (Z * Q))
    (headway : Q) (decision : TSPDecision)
    (st : TSPController * list event) (tls_id : string)
    : TSPController * list event :=
  let '(ctl, evs) := st in
  if negb (can_grant_tsp ctl tls_id (inject_Z sim_time) 60) then st
  else if grant decision then
    match reading tls_id with
    | None => st
    | Some (phase_index, next_switch) =>
        let remaining := (next_switch - inject_Z sim_time)%Q in
        if (phase_index =? 0) && Py.ltb 0 remaining then
          let current_ext := get_cycle_extensions ctl tls_id in
          let '(actual_ext, granted) :=
            apply_tsp_to_phase (Py.int remaining) current_ext decision 10 10 in
          if granted && (0 <? actual_ext) then
            (record_grant ctl tls_id (inject_Z sim_time) actual_ext,
             evs ++ [{| ev_t := sim_time; ev_type := TSP_EXTEND; ev_node := tls_id;
                        ev_sec := actual_ext; ev_headway := headway;
                        ev_reason := reason decision |}])
          else st
        else st
    end
  else if 0 <? hold decision then
    (ctl, evs ++ [{| ev_t := sim_time; ev_type := BUS_HOLD; ev_node := tls_id;
                     ev_sec := hold decision; ev_headway := headway;
                     ev_reason := reason decision |}])
  else st.

(** [apply_tsp_control]: the simulator after the call and the events the
    call returns. *)
Definition apply_tsp_control (self : SumoCorridorSimulator) (sim_time : Z)
    (cfg : tsp_config) (switch_ok : bool) (reading : string -> option (Z * Q))
    : SumoCorridorSimulator * list event :=
  if (length (bus_passage_times self) <? 2)%nat then (self, [])
  else if negb switch_ok then (self, [])
  else
    let headway := calculate_headway (bus_passage_times self) None in
    let decision :=
      tsp_policy headway (default (360 # 1)%Q (H_sec cfg))
                 (default (90 # 1)%Q (delta_sec cfg))
                 (default 8 (max_extend cfg)) (default 6 (max_advance cfg)) 60 in
    let '(ctl, evs) :=
      fold_left (control_node sim_time reading headway decision) tls_ids
                (tsp_controller self, []) in
    ({| tsp_controller := ctl;
        bus_passage_times := bus_passage_times self;
        events := events self ++ evs |}, evs).

(** One step of a run in TSP mode: the passage records as
    [collect_frame_data] left them, then the control step. *)
Record control_call := {
  call_time : Z;
  call_passages : list (string * Q);
  call_config : tsp_config;
  call_switch_ok : bool;
  call_reading : string -> option (Z * Q)
}.

Definition run_call (self : SumoCorridorSimulator) (c : control_call)
    : SumoCorridorSimulator :=
  fst (apply_tsp_control
         {| tsp_controller := tsp_controller self;
            bus_passage_times := call_passages c;
            events := events self |}
         (call_time c) (call_config c) (call_switch_ok c) (call_reading c)).

(** Seconds of green extension the events record for node [n]. *)
Fixpoint extended_at (n : string) (evs : list event) : Z :=
  match evs with
  | [] => 0
  | e :: evs' =>
      (match ev_type e with
       | TSP_EXTEND => if decide (ev_node e = n) then ev_sec e else 0
       | BUS_HOLD => 0
       end) + extended_at n evs'
  end.

(** The controller's totals are those of the events, and within the budget. *)
Definition budget_kept (ctl : TSPController) (evs : list event) : Prop :=
  forall n, get_cycle_extensions ctl n = extended_at n evs
            /\ get_cycle_extensions ctl n <= 10.

(** What one node contributes to a call. *)
Definition node_outcome (sim_time cap : Z) (ctl ctl' : TSPController)
    (tls_id : string) (new : list event) : Prop :=
  (forall m t' cd, m <> tls_id ->
     can_grant_tsp ctl' m t' cd = can_grant_tsp ctl m t' cd)
  /\ (new = [] /\ ctl' = ctl
      \/ exists e, new = [e] /\ ev_node e = tls_id /\ ev_t e = sim_time
           /\ can_grant_tsp ctl tls_id (inject_Z sim_time) 60 = true
           /\ match ev_type e with
              | TSP_EXTEND =>
                  0 < ev_sec e <= cap
                  /\ forall t' : Q, (t' - inject_Z sim_time < 60 # 1)%Q ->
                       can_grant_tsp ctl' tls_id t' 60 = false
              | BUS_HOLD => ctl' = ctl
              end).

(** The events of one call, node by node. *)
Inductive call_events (sim_time cap : Z) :
    TSPController -> list string -> list event -> TSPController -> Prop :=
| call_done ctl : call_events sim_time cap ctl [] [] ctl
| call_node ctl ctl1 ctl2 tls_id nodes new rest :
    node_outcome sim_time cap ctl ctl1 tls_id new ->
    call_events sim_time cap ctl1 nodes rest ctl2 ->
    call_events sim_time cap ctl (tls_id :: nodes) (new ++ rest) ctl2.

Lemma extended_at_app n evs1 evs2 :
  extended_at n (evs1 ++ evs2) = extended_at n evs1 + extended_at n evs2.
Proof. induction evs1 as [|e evs1 IH]; simpl; lia. Qed.

Lemma control_node_budget sim_time reading headway decision past ctl evs tls_id :
  budget_kept ctl (past ++ evs) ->
  budget_kept (fst (control_node sim_time reading headway decision (ctl, evs) tls_id))
              (past ++ snd (control_node sim_time reading headway decision (ctl, evs) tls_id)).
Proof.
  intros Hb. unfold control_node.
  destruct (can_grant_tsp ctl tls_id (inject_Z sim_time) 60); cbn [negb]; [|exact Hb].
  destruct (grant decision).
  - destruct (reading tls_id) as [[phase_index next_switch]|]; [|exact Hb].
    destruct ((phase_index =? 0) && Py.ltb 0 (next_switch - inject_Z sim_time));
      [|exact Hb].
    pose proof (apply_tsp_to_phase_cases (Py.int (next_switch - inject_Z sim_time))
                  (get_cycle_extensions ctl tls_id) decision 10 10) as Hc.
    destruct (apply_tsp_to_phase _ _ decision 10 10) as [a g].
    destruct Hc as [(-> & _ & Hpos & _ & Hle) | (-> & ->)]; [|exact Hb].
    assert (E : (0 <? a) = true) by lia. rewrite E. cbn [andb fst snd].
    intros n. rewrite app_assoc, extended_at_app. cbn [extended_at ev_type ev_node ev_sec].
    pose proof (record_grant_total ctl tls_id (inject_Z sim_time) a) as Hn.
    pose proof (record_grant_other ctl tls_id n (inject_Z sim_time) 0%Q a 0) as Hm.
    destruct (Hb n) as [Heq Hle10].
    destruct (decide (tls_id = n)) as [->|Hne].
    + rewrite Hn. lia.
    + destruct Hm as [Hm _]; [congruence|]. rewrite Hm. lia.
  - destruct (0 <? hold decision); [|exact Hb]. cbn [fst snd].
    intros n. rewrite app_assoc, extended_at_app. cbn [extended_at ev_type].
    destruct (Hb n). lia.
Qed.

Lemma control_nodes_budget sim_time reading headway decision past nodes :
  forall ctl evs,
  budget_kept ctl (past ++ evs) ->
  budget_kept
    (fst (fold_left (control_node sim_time reading headway decision) nodes (ctl, evs)))
    (past ++ snd (fold_left (control_node sim_time reading headway decision) nodes (ctl, evs))).
Proof.
  induction nodes as [|n nodes IH]; intros ctl evs Hb; cbn [fold_left]; [exact Hb|].
  pose proof (control_node_budget sim_time reading headway decision past ctl evs n Hb) as H.
  destruct (control_node sim_time reading headway decision (ctl, evs) n) as [ctl' evs'].
  cbn [fst snd] in H. exact (IH ctl' evs' H).
Qed.

Lemma apply_tsp_control_budget self sim_time cfg switch_ok reading :
  budget_kept (tsp_controller self) (events self) ->
  let r := apply_tsp_control self sim_time cfg switch_ok reading in
  budget_kept (tsp_controller (fst r)) (events (fst r))
  /\ events (fst r) = events self ++ snd r.
Proof.
  intros Hb. unfold apply_tsp_control.
  destruct (length (bus_passage_times self) <? 2)%nat;
    [cbn; split; [exact Hb | now rewrite app_nil_r]|].
  destruct switch_ok; cbn [negb]; [|cbn; split; [exact Hb | now rewrite app_nil_r]].
  match goal with
  | |- context [fold_left ?f tls_ids ?i] =>
      pose proof (control_nodes_budget sim_time reading
                    (calculate_headway (bus_passage_times self) None)
                    (tsp_policy (calculate_headway (bus_passage_times self) None)
                       (default (360 # 1)%Q (H_sec cfg)) (default (90 # 1)%Q (delta_sec cfg))
                       (default 8 (max_extend cfg)) (default 6 (max_advance cfg)) 60)
                    (events self) tls_ids (tsp_controller self) []) as H;
      destruct (fold_left f tls_ids i) as [ctl evs]
  end.
  cbn. split; [|reflexivity]. apply H. now rewrite app_nil_r.
Qed.

(** The control step never resets a cycle, so the budget of 10 seconds is
    spent once per node and per run: after any sequence of control steps on
    a fresh simulator, whatever TraCI answers and whatever the
    configuration, the seconds of green extension in the event log of a node
    equal the controller's total for it and never exceed 10. *)
Theorem extension_budget_per_run (calls : list control_call) (n : string) :
  let self := fold_left run_call calls simulator_init in
  extended_at n (events self) = get_cycle_extensions (tsp_controller self) n
  /\ extended_at n (events self) <= 10.
Proof.
  cbv zeta.
  assert (H : forall self, budget_kept (tsp_controller self) (events self) ->
              budget_kept (tsp_controller (fold_left run_call calls self))
                          (events (fold_left run_call calls self))).
  { induction calls as [|c calls IH]; intros self Hb; simpl; [exact Hb|].
    apply IH. unfold run_call.
    apply (apply_tsp_control_budget
             {| tsp_controller := tsp_controller self;
                bus_passage_times := call_passages c; events := events self |}
             (call_time c) (call_config c) (call_switch_ok c) (call_reading c) Hb). }
  destruct (H simulator_init) with (n := n) as [Heq Hle].
  - intros m. split; [reflexivity|]. unfold get_cycle_extensions. simpl.
    rewrite lookup_empty. simpl. lia.
  - lia.
Qed.

Lemma control_node_outcome sim_time reading headway decision ctl evs tls_id :
  exists new,
    snd (control_node sim_time reading headway decision (ctl, evs) tls_id) = evs ++ new
    /\ node_outcome sim_time (extend decision) ctl
         (fst (control_node sim_time reading headway decision (ctl, evs) tls_id))
         tls_id new.
Proof.
  assert (Hsame : exists new, evs = evs ++ new
                       /\ node_outcome sim_time (extend decision) ctl ctl tls_id new).
  { exists []. split; [now rewrite app_nil_r|]. split; [reflexivity | left; auto]. }
  unfold control_node.
  destruct (can_grant_tsp ctl tls_id (inject_Z sim_time) 60) eqn:Eg; cbn [negb];
    [|exact Hsame].
  destruct (grant decision).
  - destruct (reading tls_id) as [[phase_index next_switch]|]; [|exact Hsame].
    destruct ((phase_index =? 0) && Py.ltb 0 (next_switch - inject_Z sim_time));
      [|exact Hsame].
    pose proof (apply_tsp_to_phase_cases (Py.int (next_switch - inject_Z sim_time))
                  (get_cycle_extensions ctl tls_id) decision 10 10) as Hc.
    destruct (apply_tsp_to_phase _ _ decision 10 10) as [a g].
    destruct Hc as [(-> & Ha & Hpos & _ & Hle) | (-> & ->)]; [|exact Hsame].
    assert (E : (0 <? a) = true) by lia. rewrite E. cbn [andb fst snd].
    eexists. split; [reflexivity|]. split.
    + intros m t' cd Hne.
      pose proof (record_grant_other ctl tls_id m (inject_Z sim_time) t' a cd) as H.
      now destruct (H Hne).
    + right. eexists. split; [reflexivity|]. cbn [ev_node ev_t ev_type ev_sec].
      split; [reflexivity|]. split; [reflexivity|]. split; [exact Eg|].
      split; [lia|].
      intros t' Hlt. rewrite can_grant_after_record. now apply Py.leb_gt.
  - destruct (0 <? hold decision); [|exact Hsame]. cbn [fst snd].
    eexists. split; [reflexivity|]. split; [reflexivity|].
    right. eexists. split; [reflexivity|]. cbn [ev_node ev_t ev_type ev_sec].
    split; [reflexivity|]. split; [reflexivity|]. split; [exact Eg | reflexivity].
Qed.

Lemma control_nodes_events sim_time reading headway decision nodes :
  forall ctl evs,
  exists new,
    snd (fold_left (control_node sim_time reading headway decision) nodes (ctl, evs))
    = evs ++ new
    /\ call_events sim_time (extend decision) ctl nodes new
         (fst (fold_left (control_node sim_time reading headway decision) nodes (ctl, evs))).
Proof.
  induction nodes as [|n nodes IH]; intros ctl evs; cbn [fold_left].
  - exists []. split; [now rewrite app_nil_r | constructor].
  - destruct (control_node_outcome sim_time reading headway decision ctl evs n)
      as (new & E & Ho).
    destruct (control_node sim_time reading headway decision (ctl, evs) n) as [ctl1 evs1].
    cbn [fst snd] in E, Ho. subst evs1.
    destruct (IH ctl1 (evs ++ new)) as (rest & E' & Hc).
    exists (new ++ rest). split; [now rewrite E', app_assoc|].
    econstructor; eauto.
Qed.

Lemma call_events_facts sim_time cap ctl nodes evs ctl' :
  call_events sim_time cap ctl nodes evs ctl' ->
  NoDup nodes ->
  sublist (ev_node <$> evs) nodes
  /\ (forall m t' cd, m ∉ nodes ->
        can_grant_tsp ctl' m t' cd = can_grant_tsp ctl m t' cd)
  /\ forall e, e ∈ evs ->
       ev_t e = sim_time
       /\ can_grant_tsp ctl (ev_node e) (inject_Z sim_time) 60 = true
       /\ (ev_type e = TSP_EXTEND ->
           0 < ev_sec e <= cap
           /\ forall t' : Q, (t' - inject_Z sim_time < 60 # 1)%Q ->
                can_grant_tsp ctl' (ev_node e) t' 60 = false).
Proof.
  induction 1 as [ctl | ctl ctl1 ctl2 tls_id nodes new rest Ho Hc IH]; intros Hnd.
  - split; [constructor|]. split; [reflexivity|]. intros e He. inversion He.
  - apply NoDup_cons in Hnd as [Hnot Hnd].
    destruct (IH Hnd) as (Hsub & Hother & Hev).
    destruct Ho as [Hind Hcase].
    assert (Hrest_nodes : forall e, e ∈ rest -> ev_node e ∈ nodes).
    { intros e He. apply (sublist_subseteq _ _ Hsub).
      apply list_elem_of_fmap. eauto. }
    split; [|split].
    + destruct Hcase as [[-> _] | (e & -> & Hn & _)]; simpl.
      * now apply sublist_cons.
      * rewrite Hn. now apply sublist_skip.
    + intros m t' cd Hm. apply not_elem_of_cons in Hm as [Hm1 Hm2].
      rewrite Hother by exact Hm2. now apply Hind.
    + intros e He. apply elem_of_app in He as [He | He].
      * destruct Hcase as [[-> _] | (e0 & -> & Hn & Ht & Hg & Hty)]; [inversion He|].
        apply list_elem_of_singleton in He. subst e0.
        split; [exact Ht|]. split; [now rewrite Hn|].
        intros Hext. rewrite Hext in Hty. destruct Hty as [Hsec Hcool].
        split; [exact Hsec|]. intros t' Hlt.
        rewrite Hn, Hother by exact Hnot. now apply Hcool.
      * destruct (Hev e He) as (Ht & Hg & Hx).
        assert (Hne : ev_node e <> tls_id).
        { intros Heq. apply Hnot. rewrite <- Heq. now apply Hrest_nodes. }
        split; [exact Ht|]. split; [now rewrite <- Hind|]. exact Hx.
Qed.

(** The events of one control step: at most one per signal, in the order
    J1, J2, J3, all stamped with the time of the call, and only at signals
    that are out of their 60-second cooldown when the call begins (hold
    recommendations included).  A green extension is between 1
    second and the configured [max_extend] (8 by default) and puts its
    signal into cooldown: until 60 seconds have passed the controller
    refuses that signal. *)
Theorem control_step_events (self : SumoCorridorSimulator) (sim_time : Z)
    (cfg : tsp_config) (switch_ok : bool) (reading : string -> option (Z * Q)) :
  let r := apply_tsp_control self sim_time cfg switch_ok reading in
  sublist (ev_node <$> snd r) tls_ids
  /\ forall e, e ∈ snd r ->
       ev_t e = sim_time
       /\ can_grant_tsp (tsp_controller self) (ev_node e) (inject_Z sim_time) 60 = true
       /\ (ev_type e = TSP_EXTEND ->
           0 < ev_sec e <= default 8 (max_extend cfg)
           /\ forall t' : Q, (t' - inject_Z sim_time < 60 # 1)%Q ->
                can_grant_tsp (tsp_controller (fst r)) (ev_node e) t' 60 = false).
Proof.
  cbv zeta. unfold apply_tsp_control.
  assert (Hnone : sublist (ev_node <$> []) tls_ids) by apply sublist_nil_l.
  destruct (length (bus_passage_times self) <? 2)%nat;
    [cbn; split; [exact Hnone | intros e He; inversion He]|].
  destruct switch_ok; cbn [negb];
    [|cbn; split; [exact Hnone | intros e He; inversion He]].
  match goal with
  | |- context [fold_left (control_node _ _ ?h ?d) tls_ids ?i] =>
      destruct (control_nodes_events sim_time reading h d tls_ids (tsp_controller self) [])
        as (new & E & Hc);
      destruct (fold_left (control_node sim_time reading h d) tls_ids i) as [ctl evs]
  end.
  cbn [fst snd] in *. simpl in E. subst evs.
  destruct (call_events_facts _ _ _ _ _ _ Hc) as (Hsub & _ & Hev).
  - compute_done.
  - split; [exact Hsub|]. intros e He.
    destruct (Hev e He) as (Ht & Hg & Hx).
    split; [exact Ht|]. split; [exact Hg|].
    intros Hext. destruct (Hx Hext) as [Hsec Hcool]. split; [|exact Hcool].
    split; [lia|]. eapply Z.le_trans; [apply Hsec|].
    unfold tsp_policy.
    repeat match goal with |- context [if ?b then _ else _] => destruct b end;
      cbn [extend]; unfold tsp_policy in Hsec;
      repeat match type of Hsec with context [if ?b then _ else _] => destruct b end;
      cbn [extend] in Hsec; lia.
Qed.

Lemma control_step_events_witness :
  let self := {| tsp_controller := TSPController_init;
                 bus_passage_times := [("bus_1", 0 # 1); ("bus_2", 600 # 1)]%Q;
                 events := [] |} in
  let cfg := {| H_sec := None; delta_sec := None; max_extend := None;
                max_advance := None |} in
  let r := apply_tsp_control self 700 cfg true (fun _ => Some (0, (720 # 1)%Q)) in
  ev_node <$> snd r = ["J1"; "J2"; "J3"]
  /\ forall e, e ∈ snd r -> ev_t e = 700.
Proof.
  intros self cfg r. split; [reflexivity|].
  intros e He.
  destruct (control_step_events self 700 cfg true (fun _ => Some (0, (720 # 1)%Q)))
    as [_ H].
  apply (H e He).
Defined.

End SumoCorridor.

(** ** [backend/app_glide.py] *)

Module AppGlide.

(** *** Request models *)

Record TSPParams := {
  max_extend_sec : Z;
  max_hold_sec : Z;
  cooldown_sec : Z
}.

Record BusLineSpec := {
  line_id : string;
  headway_sec : Z;
  jitter_sec : Z;
  dwell_sec : Z;
  phase_offset_sec : Z
}.

Inductive sim_mode := fixed | glide | glide_tsp.

Record SimRequest := {
  mode : sim_mode;
  steps : Z;
  cycle : Z;
  v_prog_kmh : Q;
  cars_per_hour : option Z;
  bus_headway_sec : option Z;
  ab_tolerance_sec : Z;
  req_dwell_sec : Z;
  simulate_bunching : bool;
  anti_bunching : bool;
  tsp : option TSPParams;
  bus_lines : option (list BusLineSpec)
}.

(** The bounds pydantic enforces on a [SimRequest] before [run_sim] is
    entered ([Field(..., ge=, le=)]). *)
Definition valid_request (req : SimRequest) : Prop :=
  60 <= steps req <= 1800
  /\ 30 <= cycle req <= 180
  /\ (20 # 1 <= v_prog_kmh req)%Q /\ (v_prog_kmh req <= 80 # 1)%Q
  /\ 0 <= ab_tolerance_sec req
  /\ 0 <= req_dwell_sec req <= 120.

(** *** Utilities *)

Fixpoint simple_offsets_loop (v : Q) (cycle : Z) (i : nat) (acc : Q)
    (offsets : gmap string Z) (distances : list Q) : option (gmap string Z) :=
  match distances with
  | [] => Some offsets
  | d :: rest =>
      q ← Py.div d v;
      let acc := (acc + q)%Q in
      r ← Py.fmod acc (inject_Z cycle);
      simple_offsets_loop v cycle (S i) acc
        (<["J" +:+ pretty (i + 2)%nat := Py.int r]> offsets) rest
  end.

Definition simple_compute_offsets (distances : list Q) (cycle : Z)
    (speed_kmh : Q) : option (gmap string Z) :=
  let v := (speed_kmh / (36 # 10))%Q in
  simple_offsets_loop v cycle 0 0%Q {["J1" := 0]} distances.

(** *** Basic parameters of a run ([# ===== 基本參數 =====]) *)

Definition C (req : SimRequest) : Z := cycle req.
Definition G (req : SimRequest) : Z := Py.int ((6 # 10) * inject_Z (C req))%Q.
Definition Y : Z := 6.
Definition V (req : SimRequest) : Q := (v_prog_kmh req / (36 # 10))%Q.
Definition V_BUS (req : SimRequest) : Q := (V req * (9 # 10))%Q.
Definition STEPS (req : SimRequest) : Z := Z.min (steps req) 1200.

(** [width] of [glide_plan]. *)
Definition plan_width (cycle : Z) : Z := Py.int (inject_Z cycle * (6 # 10))%Q.

Definition stoplines : list (string * Q) :=
  [("J1", -600 # 1); ("J2", -300 # 1); ("J3", 0 # 1); ("J4", 300 # 1); ("J5", 600 # 1)]%Q.

Definition nodes : list string := map fst stoplines.

Definition run_offsets (req : SimRequest) : option (gmap string Z) :=
  match mode req with
  | fixed => Some (list_to_map [("J1", 0); ("J2", 0); ("J3", 0); ("J4", 0); ("J5", 0)])
  | _ => simple_compute_offsets [300 # 1; 300 # 1; 300 # 1; 300 # 1]%Q
                                (C req) (v_prog_kmh req)
  end.

Inductive signal_state := Green | Yellow | Red.

(** [ew_state]; [C >= 30] on every request that reaches [run_sim], so the
    integer [%] never divides by zero and is [Z.modulo]. *)
Definition ew_state (req : SimRequest) (offsets : gmap string Z)
    (nid : string) (t_int : Z) : signal_state :=
  let tau := (t_int + default 0 (offsets !! nid)) mod C req in
  if tau <? G req then Green
  else if tau <? G req + Y then Yellow
  else Red.

(** *** Demand generator ([# ===== 汽車流量 =====])

    The pseudo-random draws are an input: [random_unit rs k] is the [k]-th
    value returned by [random.random()] and [lognormal rs k mu sigma] the
    [k]-th value returned by
    [np.random.lognormal(mean=np.log(mu), sigma=sigma)].  A property that
    holds for every [rs] holds for every run. *)

Record rng := {
  random_unit : nat -> Q;
  lognormal : nat -> Q -> Q -> Q
}.

(** What the two generators can return: [random.random()] lies in
    [[0, 1)], a log-normal variate is positive. *)
Definition rng_in_range (rs : rng) : Prop :=
  (forall k, (0 <= random_unit rs k)%Q /\ (random_unit rs k < 1)%Q)
  /\ (forall k mu sigma, (0 < lognormal rs k mu sigma)%Q).

(** [random.uniform(a, b)], that is [a + (b - a) * random()]. *)
Definition uniform (rs : rng) (k : nat) (a b : Q) : Q :=
  (a + (b - a) * random_unit rs k)%Q.

Definition target_vph (req : SimRequest) : Z :=
  match cars_per_hour req with Some n => n | None => 1700 end.

Definition mu_theory (req : SimRequest) : Q :=
  ((inject_Z (G req) * (3600 # 1) / inject_Z (C req))
   / inject_Z (Z.max 1 (target_vph req)))%Q.

Definition mu_band (req : SimRequest) : Q * Q :=
  if target_vph req >=? 2000 then (9 # 10, 22 # 10)%Q
  else if target_vph req >=? 1800 then (11 # 10, 25 # 10)%Q
  else if target_vph req <=? 800 then (28 # 10, 46 # 10)%Q
  else (16 # 10, 32 # 10)%Q.

Definition mu (req : SimRequest) : Q :=
  Py.clip (mu_theory req) (fst (mu_band req)) (snd (mu_band req)).

Definition sigma (req : SimRequest) : Q :=
  if target_vph req >=? 1600 then (25 # 100)%Q else (35 # 100)%Q.

Definition sample_headway (req : SimRequest) (rs : rng) (k : nat) : Q :=
  Py.clip (lognormal rs k (mu req) (sigma req)) (6 # 10) (6 # 1).

(** State of the generator: the timeline built so far, the values
    [sample_headway] has returned so far (an observer's record, not a
    variable of the source) and the number of draws consumed from each
    generator. *)
Record demand_state := {
  car_depart_times : list Q;
  sampled : list Q;
  n_unit : nat;
  n_lognormal : nat
}.

(** [for _ in range(3):] of the platoon injection. *)
Fixpoint burst_loop (rs : rng) (n : nat) (t_burst t_end steps : Q)
    (st : demand_state) : demand_state :=
  match n with
  | O => st
  | S n' =>
      if Py.ltb t_burst t_end && Py.ltb t_burst steps then
        burst_loop rs n'
          (t_burst + uniform rs (n_unit st) (35 # 100) (6 # 10))%Q t_end steps
          {| car_depart_times := car_depart_times st ++ [t_burst];
             sampled := sampled st;
             n_unit := S (n_unit st);
             n_lognormal := n_lognormal st |}
      else burst_loop rs n' t_burst t_end steps st
  end.

(** [while t < t_end and t < STEPS:]; [None] stands for an exhausted
    iteration bound. *)
Fixpoint depart_loop (req : SimRequest) (rs : rng) (fuel : nat)
    (t t_end steps : Q) (st : demand_state) : option demand_state :=
  if Py.ltb t t_end && Py.ltb t steps then
    match fuel with
    | O => None
    | S fuel' =>
        let dep := (t + uniform rs (n_unit st) (-10 # 100) (10 # 100))%Q in
        let h := sample_headway req rs (n_lognormal st) in
        depart_loop req rs fuel' (t + h)%Q t_end steps
          {| car_depart_times := car_depart_times st ++ [dep];
             sampled := sampled st ++ [h];
             n_unit := S (n_unit st);
             n_lognormal := S (n_lognormal st) |}
    end
  else Some st.

(** Iterations that suffice for [depart_loop]: every step advances [t] by
    at least 0.6. *)
Definition depart_bound (t t_end : Q) : nat :=
  Z.to_nat (Qceiling ((t_end - t) / (6 # 10))).

(** [while True:] over the cycle index [k]. *)
Fixpoint window_loop (req : SimRequest) (rs : rng) (offset_J1 : Z)
    (fuel : nat) (k : Z) (st : demand_state) : option demand_state :=
  let t0 := k * C req - offset_J1 in
  if STEPS req <? t0 then Some st
  else
    match fuel with
    | O => None
    | S fuel' =>
        let steps := inject_Z (STEPS req) in
        let t := (Py.max 0 (inject_Z t0) + uniform rs (n_unit st) (25 # 100) (9 # 10))%Q in
        let st := {| car_depart_times := car_depart_times st;
                     sampled := sampled st;
                     n_unit := S (n_unit st);
                     n_lognormal := n_lognormal st |} in
        let t_end := inject_Z (t0 + G req) in
        let st :=
          if target_vph req >=? 1800 then
            let t_burst := (Py.max 0 (inject_Z t0) + uniform rs (n_unit st) (2 # 10) (6 # 10))%Q in
            burst_loop rs 3 t_burst t_end steps
              {| car_depart_times := car_depart_times st;
                 sampled := sampled st;
                 n_unit := S (n_unit st);
                 n_lognormal := n_lognormal st |}
          else st in
        st' ← depart_loop req rs (depart_bound t t_end) t t_end steps st;
        window_loop req rs offset_J1 fuel' (k + 1) st'
    end.

(** Cycle indices that [window_loop] visits before it breaks. *)
Definition window_bound (req : SimRequest) (offset_J1 : Z) : nat :=
  Z.to_nat ((STEPS req + offset_J1) / C req + 1).

(** [car_depart_times.sort()] *)
Fixpoint insert_time (x : Q) (l : list Q) : list Q :=
  match l with
  | [] => [x]
  | y :: l' => if Py.ltb x y then x :: y :: l' else y :: insert_time x l'
  end.

Definition sort_times (l : list Q) : list Q := fold_right insert_time [] l.

(** The demand timeline of a run, with the headways sampled on the way. *)
Definition generate_demand (req : SimRequest) (offsets : gmap string Z)
    (rs : rng) : option (list Q * list Q) :=
  offset_J1 ← offsets !! "J1";
  st ← window_loop req rs offset_J1 (window_bound req offset_J1) 0
         {| car_depart_times := []; sampled := []; n_unit := 0; n_lognormal := 0 |};
  Some (sort_times (car_depart_times st), sampled st).

(** The gaps between consecutive entries of a timeline. *)
Fixpoint consecutive_gaps (l : list Q) : list Q :=
  match l with
  | a :: (b :: _) as rest => (b - a)%Q :: consecutive_gaps rest
  | _ => []
  end.

(** *** Stops, vehicles and the state shared by the stepper

    The dictionaries keyed by a stop position ([stop_occupancy],
    [stop_release_time], [last_arrival_time], [monitor["stops"]]) have the
    two entries of [bus_stops] as their only keys, at every point of a run;
    a stop is therefore a two-valued type and those dictionaries are one
    function from stops to a record. *)

Inductive stop := S1 | S2.

#[global] Instance stop_eq_dec : EqDecision stop.
Proof. solve_decision. Defined.

Definition bus_stops : list stop := [S1; S2].

Definition stop_x (sx : stop) : Q :=
  match sx with S1 => (-450 # 1)%Q | S2 => (450 # 1)%Q end.

Definition STOP_BERTHS : nat := 2.
Definition COINCIDENCE_WINDOW : Z := 18.
Definition PRESTOP_HOLD : Q := (16 # 1)%Q.
Definition STOPLINE_BUFFER : Q := (45 # 10)%Q.
Definition X_MIN : Q := (-800 # 1)%Q.
Definition X_MAX : Q := (800 # 1)%Q.

Inductive kind := car | bus.

(** A vehicle dictionary.  [veh_stopped_at_station] is [true] when the key
    ["stopped_at_station"] is present (it is only ever set to [True], and
    removed with [pop]); keys a car does not have read as their [get]
    default. *)
Record vehicle := {
  veh_id : string;
  veh_line : option string;
  veh_x : Q;
  veh_y : Q;
  veh_kind : kind;
  veh_v : Q;
  veh_stopped : bool;
  veh_dwell_until : option Z;
  veh_served_stops : list stop;
  veh_at_stop : option stop;
  veh_queueing : bool;
  veh_stopped_at_station : bool;
  veh_enter_t : Q;
  veh_signal_delay_s : Q;
  veh_queue_hold_s : Q;
  veh_dwell_s : Q;
  veh_stops_count : Z;
  veh_delay_s : Q
}.

Definition set_x (a : Q) (v : vehicle) : vehicle :=
  {| veh_id := veh_id v; veh_line := veh_line v; veh_x := a;
     veh_y := veh_y v; veh_kind := veh_kind v; veh_v := veh_v v;
     veh_stopped := veh_stopped v; veh_dwell_until := veh_dwell_until v;
     veh_served_stops := veh_served_stops v; veh_at_stop := veh_at_stop v;
     veh_queueing := veh_queueing v;
     veh_stopped_at_station := veh_stopped_at_station v;
     veh_enter_t := veh_enter_t v;
     veh_signal_delay_s := veh_signal_delay_s v;
     veh_queue_hold_s := veh_queue_hold_s v; veh_dwell_s := veh_dwell_s v;
     veh_stops_count := veh_stops_count v; veh_delay_s := veh_delay_s v |}.

Definition set_stopped (a : bool) (v : vehicle) : vehicle :=
  {| veh_id := veh_id v; veh_line := veh_line v; veh_x := veh_x v;
     veh_y := veh_y v; veh_kind := veh_kind v; veh_v := veh_v v;
     veh_stopped := a; veh_dwell_until := veh_dwell_until v;
     veh_served_stops := veh_served_stops v; veh_at_stop := veh_at_stop v;
     veh_queueing := veh_queueing v;
     veh_stopped_at_station := veh_stopped_at_station v;
     veh_enter_t := veh_enter_t v;
     veh_signal_delay_s := veh_signal_delay_s v;
     veh_queue_hold_s := veh_queue_hold_s v; veh_dwell_s := veh_dwell_s v;
     veh_stops_count := veh_stops_count v; veh_delay_s := veh_delay_s v |}.

Definition set_dwell_until (a : option Z) (v : vehicle) : vehicle :=
  {| veh_id := veh_id v; veh_line := veh_line v; veh_x := veh_x v;
     veh_y := veh_y v; veh_kind := veh_kind v; veh_v := veh_v v;
     veh_stopped := veh_stopped v; veh_dwell_until := a;
     veh_served_stops := veh_served_stops v; veh_at_stop := veh_at_stop v;
     veh_queueing := veh_queueing v;
     veh_stopped_at_station := veh_stopped_at_station v;
     veh_enter_t := veh_enter_t v;
     veh_signal_delay_s := veh_signal_delay_s v;
     veh_queue_hold_s := veh_queue_hold_s v; veh_dwell_s := veh_dwell_s v;
     veh_stops_count := veh_stops_count v; veh_delay_s := veh_delay_s v |}.

Definition set_served_stops (a : list stop) (v : vehicle) : vehicle :=
  {| veh_id := veh_id v; veh_line := veh_line v; veh_x := veh_x v;
     veh_y := veh_y v; veh_kind := veh_kind v; veh_v := veh_v v;
     veh_stopped := veh_stopped v; veh_dwell_until := veh_dwell_until v;
     veh_served_stops := a; veh_at_stop := veh_at_stop v;
     veh_queueing := veh_queueing v;
     veh_stopped_at_station := veh_stopped_at_station v;
     veh_enter_t := veh_enter_t v;
     veh_signal_delay_s := veh_signal_delay_s v;
     veh_queue_hold_s := veh_queue_hold_s v; veh_dwell_s := veh_dwell_s v;
     veh_stops_count := veh_stops_count v; veh_delay_s := veh_delay_s v |}.

Definition set_at_stop (a : option stop) (v : vehicle) : vehicle :=
  {| veh_id := veh_id v; veh_line := veh_line v; veh_x := veh_x v;
     veh_y := veh_y v; veh_kind := veh_kind v; veh_v := veh_v v;
     veh_stopped := veh_stopped v; veh_dwell_until := veh_dwell_until v;
     veh_served_stops := veh_served_stops v; veh_at_stop := a;
     veh_queueing := veh_queueing v;
     veh_stopped_at_station := veh_stopped_at_station v;
     veh_enter_t := veh_enter_t v;
     veh_signal_delay_s := veh_signal_delay_s v;
     veh_queue_hold_s := veh_queue_hold_s v; veh_dwell_s := veh_dwell_s v;
     veh_stops_count := veh_stops_count v; veh_delay_s := veh_delay_s v |}.

Definition set_queueing (a : bool) (v : vehicle) : vehicle :=
  {| veh_id := veh_id v; veh_line := veh_line v; veh_x := veh_x v;
     veh_y := veh_y v; veh_kind := veh_kind v; veh_v := veh_v v;
     veh_stopped := veh_stopped v; veh_dwell_until := veh_dwell_until v;
     veh_served_stops := veh_served_stops v; veh_at_stop := veh_at_stop v;
     veh_queueing := a; veh_stopped_at_station := veh_stopped_at_station v;
     veh_enter_t := veh_enter_t v;
     veh_signal_delay_s := veh_signal_delay_s v;
     veh_queue_hold_s := veh_queue_hold_s v; veh_dwell_s := veh_dwell_s v;
     veh_stops_count := veh_stops_count v; veh_delay_s := veh_delay_s v |}.

Definition set_stopped_at_station (a : bool) (v : vehicle) : vehicle :=
  {| veh_id := veh_id v; veh_line := veh_line v; veh_x := veh_x v;
     veh_y := veh_y v; veh_kind := veh_kind v; veh_v := veh_v v;
     veh_stopped := veh_stopped v; veh_dwell_until := veh_dwell_until v;
     veh_served_stops := veh_served_stops v; veh_at_stop := veh_at_stop v;
     veh_queueing := veh_queueing v; veh_stopped_at_station := a;
     veh_enter_t := veh_enter_t v;
     veh_signal_delay_s := veh_signal_delay_s v;
     veh_queue_hold_s := veh_queue_hold_s v; veh_dwell_s := veh_dwell_s v;
     veh_stops_count := veh_stops_count v; veh_delay_s := veh_delay_s v |}.

Definition set_signal_delay_s (a : Q) (v : vehicle) : vehicle :=
  {| veh_id := veh_id v; veh_line := veh_line v; veh_x := veh_x v;
     veh_y := veh_y v; veh_kind := veh_kind v; veh_v := veh_v v;
     veh_stopped := veh_stopped v; veh_dwell_until := veh_dwell_until v;
     veh_served_stops := veh_served_stops v; veh_at_stop := veh_at_stop v;
     veh_queueing := veh_queueing v;
     veh_stopped_at_station := veh_stopped_at_station v;
     veh_enter_t := veh_enter_t v; veh_signal_delay_s := a;
     veh_queue_hold_s := veh_queue_hold_s v; veh_dwell_s := veh_dwell_s v;
     veh_stops_count := veh_stops_count v; veh_delay_s := veh_delay_s v |}.

Definition set_queue_hold_s (a : Q) (v : vehicle) : vehicle :=
  {| veh_id := veh_id v; veh_line := veh_line v; veh_x := veh_x v;
     veh_y := veh_y v; veh_kind := veh_kind v; veh_v := veh_v v;
     veh_stopped := veh_stopped v; veh_dwell_until := veh_dwell_until v;
     veh_served_stops := veh_served_stops v; veh_at_stop := veh_at_stop v;
     veh_queueing := veh_queueing v;
     veh_stopped_at_station := veh_stopped_at_station v;
     veh_enter_t := veh_enter_t v;
     veh_signal_delay_s := veh_signal_delay_s v; veh_queue_hold_s := a;
     veh_dwell_s := veh_dwell_s v; veh_stops_count := veh_stops_count v;
     veh_delay_s := veh_delay_s v |}.

Definition set_dwell_s (a : Q) (v : vehicle) : vehicle :=
  {| veh_id := veh_id v; veh_line := veh_line v; veh_x := veh_x v;
     veh_y := veh_y v; veh_kind := veh_kind v; veh_v := veh_v v;
     veh_stopped := veh_stopped v; veh_dwell_until := veh_dwell_until v;
     veh_served_stops := veh_served_stops v; veh_at_stop := veh_at_stop v;
     veh_queueing := veh_queueing v;
     veh_stopped_at_station := veh_stopped_at_station v;
     veh_enter_t := veh_enter_t v;
     veh_signal_delay_s := veh_signal_delay_s v;
     veh_queue_hold_s := veh_queue_hold_s v; veh_dwell_s := a;
     veh_stops_count := veh_stops_count v; veh_delay_s := veh_delay_s v |}.

Definition set_delay_s (a : Q) (v : vehicle) : vehicle :=
  {| veh_id := veh_id v; veh_line := veh_line v; veh_x := veh_x v;
     veh_y := veh_y v; veh_kind := veh_kind v; veh_v := veh_v v;
     veh_stopped := veh_stopped v; veh_dwell_until := veh_dwell_until v;
     veh_served_stops := veh_served_stops v; veh_at_stop := veh_at_stop v;
     veh_queueing := veh_queueing v;
     veh_stopped_at_station := veh_stopped_at_station v;
     veh_enter_t := veh_enter_t v;
     veh_signal_delay_s := veh_signal_delay_s v;
     veh_queue_hold_s := veh_queue_hold_s v; veh_dwell_s := veh_dwell_s v;
     veh_stops_count := veh_stops_count v; veh_delay_s := a |}.

Record stop_state := {
  stop_occupancy : list string;
  stop_release_time : list Z;
  last_arrival_time : option Z;
  mon_arrivals : nat;
  mon_avg_dwell : Q;
  mon_sum_dwell : Q;
  mon_queue_max : Z;
  mon_queue_now : Z
}.

(** One entry of [monitor["lines"]]. *)
Record line_monitor := {
  scheduled_headway_sec : Z;
  arrivals : Z;
  holds : Z;
  tsp_extends : Z;
  queue_holds : Z;
  arr_times : list Z
}.

(** The state [update_one] reads and mutates besides the vehicle. *)
Record world := {
  stops : stop -> stop_state;
  monitor_lines : gmap string line_monitor
}.

Definition set_stop (w : world) (sx : stop) (st : stop_state) : world :=
  {| stops := fun sx' => if decide (sx' = sx) then st else stops w sx';
     monitor_lines := monitor_lines w |}.

(** [req.bus_lines or [...]]: the default corridor when the request has no
    (or an empty) list of lines. *)
Definition default_lines : list BusLineSpec :=
  [ {| line_id := "R61"; headway_sec := 240; jitter_sec := 30; dwell_sec := 25; phase_offset_sec := 0 |};
    {| line_id := "235"; headway_sec := 300; jitter_sec := 35; dwell_sec := 20; phase_offset_sec := 60 |};
    {| line_id := "236"; headway_sec := 300; jitter_sec := 35; dwell_sec := 22; phase_offset_sec := 120 |};
    {| line_id := "251"; headway_sec := 360; jitter_sec := 40; dwell_sec := 25; phase_offset_sec := 180 |};
    {| line_id := "252"; headway_sec := 420; jitter_sec := 45; dwell_sec := 25; phase_offset_sec := 210 |};
    {| line_id := "644"; headway_sec := 480; jitter_sec := 50; dwell_sec := 28; phase_offset_sec := 240 |} ].

Definition lines (req : SimRequest) : list BusLineSpec :=
  match bus_lines req with
  | Some (L :: rest) => L :: rest
  | _ => default_lines
  end.

Definition initial_stop : stop_state :=
  {| stop_occupancy := []; stop_release_time := []; last_arrival_time := None;
     mon_arrivals := 0; mon_avg_dwell := 0; mon_sum_dwell := 0;
     mon_queue_max := 0; mon_queue_now := 0 |}.

Definition initial_line_monitor (L : BusLineSpec) : line_monitor :=
  {| scheduled_headway_sec := headway_sec L; arrivals := 0; holds := 0;
     tsp_extends := 0; queue_holds := 0; arr_times := [] |}.

Definition initial_world (req : SimRequest) : world :=
  {| stops := fun _ => initial_stop;
     monitor_lines :=
       fold_left (fun m L => <[line_id L := initial_line_monitor L]> m) (lines req) ∅ |}.

(** *** The stepper ([update_one]) *)

(** [l.index(a)] when [a in l]. *)
Definition index_of (a : string) (l : list string) : option nat :=
  fst <$> list_find (fun b => b = a) l.

(** [l.pop(i)]; [IndexError] is [None]. *)
Definition pop {A} (l : list A) (i : nat) : option (list A) :=
  if decide (i < length l)%nat then Some (take i l ++ drop (S i) l) else None.

(** Leaving a stop: the bus gives its berth back. *)
Definition release_stop (w : world) (sx0 : stop) (vid : string) : option world :=
  let st := stops w sx0 in
  match index_of vid (stop_occupancy st) with
  | Some i_rm =>
      occ ← pop (stop_occupancy st) i_rm;
      rel ← pop (stop_release_time st) i_rm;
      Some (set_stop w sx0
              {| stop_occupancy := occ; stop_release_time := rel;
                 last_arrival_time := last_arrival_time st;
                 mon_arrivals := mon_arrivals st; mon_avg_dwell := mon_avg_dwell st;
                 mon_sum_dwell := mon_sum_dwell st; mon_queue_max := mon_queue_max st;
                 mon_queue_now := mon_queue_now st |})
  | None => Some w
  end.

(** [x < sx <= x_try] *)
Definition crosses (x x_try : Q) (sx : stop) : bool :=
  Py.ltb x (stop_x sx) && Py.leb (stop_x sx) x_try.

(** The test that sends a bus to the queue before the stop. *)
Definition entry_denied (st : stop_state) (t_int : Z) : bool :=
  (STOP_BERTHS <=? length (stop_occupancy st))%nat
  || match last_arrival_time st with
     | Some last => t_int - last <=? COINCIDENCE_WINDOW
     | None => false
     end.

(** [v.get("line", "BUS")] *)
Definition line_key (v : vehicle) : string := default "BUS" (veh_line v).

Definition dwell_cfg (req : SimRequest) (v : vehicle) : Z :=
  match bus_lines req with
  | Some _ =>
      match find (fun L => bool_decide (veh_line v = Some (line_id L))) (lines req) with
      | Some L => dwell_sec L
      | None => req_dwell_sec req
      end
  | None => req_dwell_sec req
  end.

(** [monitor["lines"][lid]["queue_holds"] += 1]; [KeyError] is [None]. *)
Definition count_queue_hold (w : world) (lid : string) : option world :=
  m ← monitor_lines w !! lid;
  Some {| stops := stops w;
          monitor_lines :=
            <[lid := {| scheduled_headway_sec := scheduled_headway_sec m;
                        arrivals := arrivals m; holds := holds m;
                        tsp_extends := tsp_extends m;
                        queue_holds := queue_holds m + 1;
                        arr_times := arr_times m |}]> (monitor_lines w) |}.

(** [monitor["lines"][lid]["arrivals"] += 1] and
    [monitor["lines"][lid]["arr_times"].append(t_int)]. *)
Definition count_arrival (w : world) (lid : string) (t_int : Z) : option world :=
  m ← monitor_lines w !! lid;
  Some {| stops := stops w;
          monitor_lines :=
            <[lid := {| scheduled_headway_sec := scheduled_headway_sec m;
                        arrivals := arrivals m + 1; holds := holds m;
                        tsp_extends := tsp_extends m;
                        queue_holds := queue_holds m;
                        arr_times := arr_times m ++ [t_int] |}]> (monitor_lines w) |}.

(** The stop after a bus is let in: occupancy, release time, last arrival
    and the stop's monitor card. *)
Definition enter_stop (st : stop_state) (vid : string) (t_int dwell_until : Z) : stop_state :=
  let occ := stop_occupancy st ++ [vid] in
  let n := S (mon_arrivals st) in
  let dwell_now := dwell_until - t_int in
  let sum := (mon_sum_dwell st + inject_Z dwell_now)%Q in
  let queue_now := Z.max 0 (Z.of_nat (length occ) - Z.of_nat STOP_BERTHS) in
  {| stop_occupancy := occ;
     stop_release_time := stop_release_time st ++ [dwell_until];
     last_arrival_time := Some t_int;
     mon_arrivals := n;
     mon_avg_dwell := (sum / inject_Z (Z.of_nat n))%Q;
     mon_sum_dwell := sum;
     mon_queue_max := Z.max (mon_queue_max st) queue_now;
     mon_queue_now := queue_now |}.

Definition next_stopline_x (x_now : Q) : option Q :=
  match List.filter (fun sx => Py.ltb (x_now + (1 # 10)) sx) (map snd stoplines) with
  | [] => None
  | sx :: nxt => Some (fold_left Py.min nxt sx)
  end.

(** [min(stoplines, key=lambda k: abs(stoplines[k] - sx_next))] *)
Definition nearest_node (sx_next : Q) : string :=
  fst (fold_left
         (fun best kp =>
            if Py.ltb (Qabs (snd kp - sx_next)) (Qabs (snd best - sx_next))
            then kp else best)
         stoplines ("J1", (-600 # 1)%Q)).

(** The last part of [update_one]: the stop line ahead limits the move
    while its signal is not green. *)
Definition stopline_limit (v : vehicle) (x x_try : Q)
    (green_now : gmap string bool) : vehicle :=
  let x_try :=
    match next_stopline_x x with
    | Some sx_next =>
        let nid := nearest_node sx_next in
        if negb (default false (green_now !! nid)) && Py.ltb x sx_next
        then Py.min x_try (sx_next - STOPLINE_BUFFER)%Q
        else x_try
    | None => x_try
    end in
  set_stopped_at_station false (set_stopped (Qeq_bool x_try x) (set_x x_try v)).

(** [for sx in bus_stops:] with what follows it. *)
Definition approach (req : SimRequest) (v : vehicle) (x x_try : Q) (t_int : Z)
    (green_now : gmap string bool) (w : world) : option (vehicle * world) :=
  match find (crosses x x_try) bus_stops with
  | Some sx =>
      let st := stops w sx in
      if entry_denied st t_int then
        let v := set_queueing true
                   (set_stopped true (set_x (stop_x sx - PRESTOP_HOLD)%Q v)) in
        w ← count_queue_hold w (line_key v);
        Some (v, w)
      else
        let dwell_until := t_int + dwell_cfg req v in
        let v := set_queueing false
                   (set_stopped_at_station true
                      (set_stopped true
                         (set_x (stop_x sx - (1 # 10))%Q
                            (set_at_stop (Some sx)
                               (set_dwell_until (Some dwell_until) v))))) in
        let w := set_stop w sx (enter_stop st (veh_id v) t_int dwell_until) in
        w ← count_arrival w (line_key v) t_int;
        Some (v, w)
  | None => Some (stopline_limit v x x_try green_now, w)
  end.

Definition update_one (req : SimRequest) (v : vehicle) (t_int : Z)
    (green_now : gmap string bool) (w : world) : option (vehicle * world) :=
  let x := veh_x v in
  let vel := veh_v v in
  let x_try := (x + vel)%Q in
  match veh_kind v with
  | bus =>
      match veh_dwell_until v with
      | Some dwell_until =>
          if t_int <? dwell_until then
            Some (set_x x (set_stopped_at_station true (set_stopped true v)), w)
          else
            match veh_at_stop v with
            | Some sx0 =>
                w ← release_stop w sx0 (veh_id v);
                let v := set_at_stop None
                           (set_stopped_at_station false
                              (set_dwell_until None
                                 (set_served_stops (veh_served_stops v ++ [sx0]) v))) in
                let x := Py.max x (stop_x sx0 + (2 # 10))%Q in
                let x_try := Py.max x_try (stop_x sx0 + (2 # 10))%Q in
                approach req (set_x x v) x x_try t_int green_now w
            | None => approach req v x x_try t_int green_now w
            end
      | None => approach req v x x_try t_int green_now w
      end
  | car => Some (stopline_limit v x x_try green_now, w)
  end.

(** *** The simulation loop *)

Record bus_delay := {
  delay_signal : Q;
  delay_queue : Q;
  delay_dwell : Q;
  delay_exited : Z
}.

(** The variables of [run_sim] that the loop over [range(STEPS)] carries.
    The rendered [frames] are left out: nothing is read back from them. *)
Record sim_state := {
  vehicles : list vehicle;
  shared : world;
  car_i : nat;
  bus_spawn_index : gmap string nat;
  n_draws : nat;
  car_exited : Z;
  car_zero_stop : Z;
  car_delay_sum : Q;
  car_stops_sum : Z;
  car_travel_sum : Q;
  car_exit_ts : list Z;
  bus_delay_line : gmap string bus_delay;
  arrived : Z
}.

Definition initial_state (req : SimRequest) : sim_state :=
  {| vehicles := []; shared := initial_world req; car_i := 0;
     bus_spawn_index := fold_left (fun m L => <[line_id L := 0%nat]> m) (lines req) ∅;
     n_draws := 0;
     car_exited := 0; car_zero_stop := 0; car_delay_sum := 0; car_stops_sum := 0;
     car_travel_sum := 0; car_exit_ts := []; bus_delay_line := ∅; arrived := 0 |}.

Definition new_car (req : SimRequest) (rs : rng) (n : nat) (car_i : nat)
    (t : Z) (dt : Q) : vehicle :=
  {| veh_id := "car_" +:+ pretty car_i; veh_line := None;
     veh_x := (X_MIN + V req * dt)%Q;
     veh_y := uniform rs n (-2 # 1) (2 # 1);
     veh_kind := car;
     veh_v := (V req * uniform rs (S n) (92 # 100) (105 # 100))%Q;
     veh_stopped := false; veh_dwell_until := None; veh_served_stops := [];
     veh_at_stop := None; veh_queueing := false; veh_stopped_at_station := false;
     veh_enter_t := (inject_Z t + dt)%Q;
     veh_signal_delay_s := 0; veh_queue_hold_s := 0; veh_dwell_s := 0;
     veh_stops_count := 0; veh_delay_s := 0 |}.

Definition new_bus (req : SimRequest) (L : BusLineSpec) (idx : nat)
    (t : Z) (dt : Q) : vehicle :=
  {| veh_id := "bus_" +:+ line_id L +:+ "_" +:+ pretty idx;
     veh_line := Some (line_id L);
     veh_x := (X_MIN + V_BUS req * dt)%Q;
     veh_y := 0;
     veh_kind := bus;
     veh_v := V_BUS req;
     veh_stopped := false; veh_dwell_until := None; veh_served_stops := [];
     veh_at_stop := None; veh_queueing := false; veh_stopped_at_station := false;
     veh_enter_t := (inject_Z t + dt)%Q;
     veh_signal_delay_s := 0; veh_queue_hold_s := 0; veh_dwell_s := 0;
     veh_stops_count := 0; veh_delay_s := 0 |}.

(** [while car_i < len(car_depart_times) and car_depart_times[car_i] < t + 1.0:]
    over the departures not yet used. *)
Fixpoint spawn_cars (req : SimRequest) (rs : rng) (t : Z) (pending : list Q)
    (car_i n : nat) (vs : list vehicle) : list vehicle * nat * nat :=
  match pending with
  | [] => (vs, car_i, n)
  | dep :: pending' =>
      if Py.ltb dep (inject_Z t + 1) then
        let dt := Py.max 0 (dep - inject_Z t) in
        spawn_cars req rs t pending' (S car_i) (S (S n))
                   (vs ++ [new_car req rs n car_i t dt])
      else (vs, car_i, n)
  end.

(** [while idx < len(times) and times[idx] < t + 1.0:] for one line. *)
Fixpoint spawn_line (req : SimRequest) (L : BusLineSpec) (t : Z)
    (pending : list Q) (idx : nat) (vs : list vehicle) : list vehicle * nat :=
  match pending with
  | [] => (vs, idx)
  | dep :: pending' =>
      if Py.ltb dep (inject_Z t + 1) then
        let dt := Py.max 0 (dep - inject_Z t) in
        spawn_line req L t pending' (S idx) (vs ++ [new_bus req L idx t dt])
      else (vs, idx)
  end.

(** [for L in lines:] of the bus entry; [schedule] gives each line its
    sorted departure times. *)
Fixpoint spawn_buses (req : SimRequest) (schedule : string -> list Q) (t : Z)
    (ls : list BusLineSpec) (index : gmap string nat) (vs : list vehicle)
    : list vehicle * gmap string nat :=
  match ls with
  | [] => (vs, index)
  | L :: ls' =>
      let idx := default 0%nat (index !! line_id L) in
      let '(vs, idx) := spawn_line req L t (drop idx (schedule (line_id L))) idx vs in
      spawn_buses req schedule t ls' (<[line_id L := idx]> index) vs
  end.

(** The seconds counted for a vehicle after its update. *)
Definition count_second (nv : vehicle) : vehicle :=
  match veh_kind nv with
  | car =>
      if veh_stopped nv then set_delay_s (veh_delay_s nv + 1)%Q nv else nv
  | bus =>
      if veh_stopped_at_station nv then set_dwell_s (veh_dwell_s nv + 1)%Q nv
      else if veh_queueing nv then set_queue_hold_s (veh_queue_hold_s nv + 1)%Q nv
      else if veh_stopped nv then set_signal_delay_s (veh_signal_delay_s nv + 1)%Q nv
      else nv
  end.

(** The totals of the run once [nv] has left the corridor. *)
Definition leave (t : Z) (nv : vehicle) (s : sim_state) : sim_state :=
  match veh_kind nv with
  | car =>
      {| vehicles := vehicles s; shared := shared s; car_i := car_i s;
         bus_spawn_index := bus_spawn_index s; n_draws := n_draws s;
         car_exited := car_exited s + 1;
         car_zero_stop :=
           if veh_stops_count nv =? 0 then car_zero_stop s + 1 else car_zero_stop s;
         car_delay_sum := (car_delay_sum s + veh_delay_s nv)%Q;
         car_stops_sum := car_stops_sum s + veh_stops_count nv;
         car_travel_sum := (car_travel_sum s + ((inject_Z t + 1) - veh_enter_t nv))%Q;
         car_exit_ts := car_exit_ts s ++ [t + 1];
         bus_delay_line := bus_delay_line s;
         arrived := arrived s + 1 |}
  | bus =>
      let lid := line_key nv in
      let d := default {| delay_signal := 0; delay_queue := 0; delay_dwell := 0;
                          delay_exited := 0 |} (bus_delay_line s !! lid) in
      {| vehicles := vehicles s; shared := shared s; car_i := car_i s;
         bus_spawn_index := bus_spawn_index s; n_draws := n_draws s;
         car_exited := car_exited s; car_zero_stop := car_zero_stop s;
         car_delay_sum := car_delay_sum s; car_stops_sum := car_stops_sum s;
         car_travel_sum := car_travel_sum s; car_exit_ts := car_exit_ts s;
         bus_delay_line :=
           <[lid := {| delay_signal := (delay_signal d + veh_signal_delay_s nv)%Q;
                       delay_queue := (delay_queue d + veh_queue_hold_s nv)%Q;
                       delay_dwell := (delay_dwell d + veh_dwell_s nv)%Q;
                       delay_exited := delay_exited d + 1 |}]> (bus_delay_line s);
         arrived := arrived s + 1 |}
  end.

Definition with_vehicles (vs : list vehicle) (w : world) (s : sim_state) : sim_state :=
  {| vehicles := vs; shared := w; car_i := car_i s;
     bus_spawn_index := bus_spawn_index s; n_draws := n_draws s;
     car_exited := car_exited s; car_zero_stop := car_zero_stop s;
     car_delay_sum := car_delay_sum s; car_stops_sum := car_stops_sum s;
     car_travel_sum := car_travel_sum s; car_exit_ts := car_exit_ts s;
     bus_delay_line := bus_delay_line s; arrived := arrived s |}.

(** [for v in sorted(vehicles, ...):] over the vehicles still to update;
    [vehicles s] collects [moved]. *)
Fixpoint update_all (req : SimRequest) (t : Z) (green_now : gmap string bool)
    (todo : list vehicle) (s : sim_state) : option sim_state :=
  match todo with
  | [] => Some s
  | v :: todo' =>
      '(nv, w) ← update_one req v t green_now (shared s);
      let nv := count_second nv in
      let s := with_vehicles (vehicles s) w s in
      if Py.ltb (X_MAX + (30 # 1)) (veh_x nv)
      then update_all req t green_now todo' (leave t nv s)
      else update_all req t green_now todo'
             (with_vehicles (vehicles s ++ [nv]) w s)
  end.

Definition is_bus (v : vehicle) : bool :=
  match veh_kind v with bus => true | car => false end.

(** [sorted(vehicles, key=lambda z: 0 if z["kind"] == "bus" else 1)]: the
    sort is stable, buses come first. *)
Definition buses_first (vs : list vehicle) : list vehicle :=
  List.filter is_bus vs ++ List.filter (fun v => negb (is_bus v)) vs.

Definition signals (req : SimRequest) (offsets : gmap string Z) (t : Z)
    : gmap string bool :=
  fold_left
    (fun m nid =>
       <[nid := match ew_state req offsets nid t with Green => true | _ => false end]> m)
    nodes ∅.

(** One pass of [for t in range(STEPS):]. *)
Definition tick (req : SimRequest) (offsets : gmap string Z) (rs : rng)
    (car_depart_times : list Q) (schedule : string -> list Q)
    (t : Z) (s : sim_state) : option sim_state :=
  let '(vs, ci, n) :=
    spawn_cars req rs t (drop (car_i s) car_depart_times) (car_i s) (n_draws s)
               (vehicles s) in
  let '(vs, index) := spawn_buses req schedule t (lines req) (bus_spawn_index s) vs in
  let green_now := signals req offsets t in
  let s :=
    {| vehicles := []; shared := shared s; car_i := ci;
       bus_spawn_index := index; n_draws := n;
       car_exited := car_exited s; car_zero_stop := car_zero_stop s;
       car_delay_sum := car_delay_sum s; car_stops_sum := car_stops_sum s;
       car_travel_sum := car_travel_sum s; car_exit_ts := car_exit_ts s;
       bus_delay_line := bus_delay_line s; arrived := arrived s |} in
  update_all req t green_now (buses_first vs) s.

(** The state after the ticks [0, ..., n - 1]. *)
Fixpoint run_ticks (req : SimRequest) (offsets : gmap string Z) (rs : rng)
    (car_depart_times : list Q) (schedule : string -> list Q)
    (n : nat) : option sim_state :=
  match n with
  | O => Some (initial_state req)
  | S n' =>
      s ← run_ticks req offsets rs car_depart_times schedule n';
      tick req offsets rs car_depart_times schedule (Z.of_nat n') s
  end.

(** The loop of [run_sim]: [STEPS] ticks. *)
Definition run_loop (req : SimRequest) (offsets : gmap string Z) (rs : rng)
    (car_depart_times : list Q) (schedule : string -> list Q) : option sim_state :=
  run_ticks req offsets rs car_depart_times schedule (Z.to_nat (STEPS req)).

(** *** KPIs and monitoring at the end of a run *)

(** [np.diff(ts)], also [[ts[i] - ts[i-1] for i in range(1, len(ts))]]. *)
Fixpoint np_diff (ts : list Z) : list Z :=
  match ts with
  | a :: (b :: _) as rest => (b - a) :: np_diff rest
  | _ => []
  end.

Definition sum_Z (l : list Z) : Z := fold_right Z.add 0 l.
Definition sum_Q (l : list Q) : Q := fold_right Qplus 0%Q l.

(** [np.mean] of a non-empty list of integers. *)
Definition np_mean (l : list Z) : Q :=
  (inject_Z (sum_Z l) / inject_Z (Z.of_nat (length l)))%Q.

(** [avg_headway] of [run_sim]: [None] below two exits. *)
Definition avg_headway (car_exit_ts : list Z) : option Q :=
  if (2 <=? length car_exit_ts)%nat then Some (np_mean (np_diff car_exit_ts))
  else None.

Record kpis := {
  kpi_mode : sim_mode;
  kpi_frames : Z;
  estimated_vph : Z;
  avg_discharge_headway_s : option Q;
  progression_rate : Q;
  avg_stops_main : Q;
  avg_delay_main : Q;
  avg_travel_time_s : Q;
  kpi_target_vph : Z;
  total_arrived : Z
}.

Definition compute_kpis (req : SimRequest) (s : sim_state) : kpis :=
  let exited := inject_Z (Z.max 1 (car_exited s)) in
  {| kpi_mode := mode req;
     kpi_frames := STEPS req;
     estimated_vph :=
       Py.round (inject_Z (car_exited s) * (3600 # 1)
                 / inject_Z (Z.max 1 (STEPS req)))%Q;
     avg_discharge_headway_s :=
       match avg_headway (car_exit_ts s) with
       | Some avg_headway => Some (Py.round_n avg_headway 2)
       | None => None
       end;
     progression_rate := Py.round_n (inject_Z (car_zero_stop s) / exited)%Q 4;
     avg_stops_main := Py.round_n (inject_Z (car_stops_sum s) / exited)%Q 3;
     avg_delay_main := Py.round_n (car_delay_sum s / exited)%Q 2;
     avg_travel_time_s := Py.round_n (car_travel_sum s / exited)%Q 2;
     kpi_target_vph := target_vph req;
     total_arrived := arrived s |}.

(** An entry of [monitor["lines"]] as it is returned: [arr_times] is
    dropped and the three observed figures are added. *)
Record line_report := {
  rep_scheduled_headway_sec : Z;
  rep_arrivals : Z;
  rep_holds : Z;
  rep_tsp_extends : Z;
  rep_queue_holds : Z;
  observed_headway_avg : option Q;
  observed_headway_std : option Q;
  on_time_pct : option Q
}.

(** The body of [for lid, stats in monitor["lines"].items():].  The square
    root of a float ([var ** 0.5]) is not a rational operation; it is the
    parameter [float_sqrt]. *)
Definition line_headway_report (float_sqrt : Q -> Q) (req : SimRequest)
    (stats : line_monitor) : line_report :=
  let ts := arr_times stats in
  let observed :=
    if (2 <=? length ts)%nat then
      let diffs := map inject_Z (np_diff ts) in
      let n := inject_Z (Z.of_nat (length diffs)) in
      let avg := (sum_Q diffs / n)%Q in
      let var := (sum_Q (map (fun d => (d - avg) * (d - avg)) diffs) / n)%Q in
      let tol := inject_Z (ab_tolerance_sec req) in
      let target := inject_Z (scheduled_headway_sec stats) in
      let on_time :=
        length (List.filter (fun d => Py.leb (Qabs (d - target)) tol) diffs) in
      (Some (Py.round_n avg 1),
       Some (Py.round_n (float_sqrt var) 1),
       Some (Py.round_n ((100 # 1) * inject_Z (Z.of_nat on_time) / n) 1))%Q
    else (None, None, None) in
  {| rep_scheduled_headway_sec := scheduled_headway_sec stats;
     rep_arrivals := arrivals stats;
     rep_holds := holds stats;
     rep_tsp_extends := tsp_extends stats;
     rep_queue_holds := queue_holds stats;
     observed_headway_avg := observed.1.1;
     observed_headway_std := observed.1.2;
     on_time_pct := observed.2 |}.

(** [monitor["lines"]] in the response. *)
Definition monitor_report (float_sqrt : Q -> Q) (req : SimRequest)
    (s : sim_state) : gmap string line_report :=
  line_headway_report float_sqrt req <$> monitor_lines (shared s).

(** The end-to-end scenario of the specification: fixed-time control,
    180 steps, a 90 s cycle, 40 km/h and the default volume and bus lines. *)
Definition scenario_request : SimRequest :=
  {| mode := fixed; steps := 180; cycle := 90; v_prog_kmh := 40 # 1;
     cars_per_hour := None; bus_headway_sec := Some 300;
     ab_tolerance_sec := 120; req_dwell_sec := 20;
     simulate_bunching := true; anti_bunching := true;
     tsp := None; bus_lines := None |}.

(** A source of draws that always returns the middle of the range. *)
Definition steady_rng : rng :=
  {| random_unit := fun _ => (1 # 2)%Q; lognormal := fun _ _ _ => (1 # 1)%Q |}.

(** Two lines with the same phase offset: with [simulate_bunching] off and
    180 steps the scheduler gives each line the single departure
    [max(5, min(15, 0.05 * 180)) + 0 = 9.0], so both buses reach the first
    stop in the same tick. *)
Definition twin_lines : list BusLineSpec :=
  [ {| line_id := "A"; headway_sec := 240; jitter_sec := 30; dwell_sec := 25; phase_offset_sec := 0 |};
    {| line_id := "B"; headway_sec := 240; jitter_sec := 30; dwell_sec := 25; phase_offset_sec := 0 |} ].

Definition twin_request : SimRequest :=
  {| mode := fixed; steps := 180; cycle := 90; v_prog_kmh := 40 # 1;
     cars_per_hour := None; bus_headway_sec := Some 300;
     ab_tolerance_sec := 120; req_dwell_sec := 20;
     simulate_bunching := false; anti_bunching := true;
     tsp := None; bus_lines := Some twin_lines |}.

Definition twin_schedule (lid : string) : list Q := [9 # 1]%Q.

Definition fixed_offsets : gmap string Z :=
  list_to_map [("J1", 0); ("J2", 0); ("J3", 0); ("J4", 0); ("J5", 0)].

(** Position of the vehicle [vid] in a state, in lowest terms. *)
Definition position_of (vid : string) (run : option sim_state) : option Q :=
  s ← run;
  v ← find (fun v => String.eqb (veh_id v) vid) (vehicles s);
  Some (Qred (veh_x v)).

(** A bus of line B one tick before the first stop, and the first stop just
    after a bus of line A was let in at tick 43. *)
Definition bus_before_stop : vehicle :=
  set_x (-460 # 1)%Q
        (new_bus twin_request
           {| line_id := "B"; headway_sec := 240; jitter_sec := 30; dwell_sec := 25;
              phase_offset_sec := 0 |} 0 9 0%Q).

Definition world_after_arrival : world :=
  set_stop (initial_world twin_request) S1 (enter_stop initial_stop "bus_A_0" 43 68).

(** A car two units before the stop line of J1. *)
Definition car_before_line : vehicle :=
  set_x (-602 # 1)%Q (new_car scenario_request steady_rng 0 0 35 (8 # 10)%Q).

Definition gap_in_range (g : Q) : bool := Py.leb (6 # 10) g && Py.leb g (6 # 1).

(** *** Notions used by the further facts *)

(** Name of the [j]-th node of the corridor, counting from 0: J1, J2, ... *)
Definition node_key (j : nat) : string := "J" +:+ pretty (j + 1)%nat.

(** A dictionary of offsets that holds the entries of a list under the
    node names. *)
Definition keyed_like (m : gmap string Z) (l : list Z) : Prop :=
  (forall j, m !! node_key j = l !! j)
  /\ (forall k, is_Some (m !! k) -> exists j, k = node_key j).

(** Cars among a list of vehicles. *)
Definition cars_in (vs : list vehicle) : nat :=
  length (List.filter (fun v => negb (is_bus v)) vs).

(** A stop whose monitor shows no queue, now or before. *)
Definition no_queue (st : stop_state) : Prop :=
  mon_queue_now st = 0 /\ mon_queue_max st = 0.

(** A vehicle whose stop count is untouched. *)
Definition no_stops (v : vehicle) : Prop := veh_stops_count v = 0.

(** Kept by the loop while the vehicles in [todo] are still to update. *)
Definition accounts (todo : list vehicle) (s : sim_state) : Prop :=
  Forall no_stops todo /\ Forall no_stops (vehicles s)
  /\ car_zero_stop s = car_exited s /\ car_stops_sum s = 0
  /\ car_exited s + Z.of_nat (cars_in (vehicles s)) + Z.of_nat (cars_in todo)
     = Z.of_nat (car_i s)
  /\ (forall sx, no_queue (stops (shared s) sx)).

(** The twin-line request run for 300 steps, long enough for a car that
    enters at 2 s to leave the corridor. *)
Definition long_request : SimRequest :=
  {| mode := fixed; steps := 300; cycle := 90; v_prog_kmh := 40 # 1;
     cars_per_hour := None; bus_headway_sec := Some 300;
     ab_tolerance_sec := 120; req_dwell_sec := 20;
     simulate_bunching := false; anti_bunching := true;
     tsp := None; bus_lines := Some twin_lines |}.

(** The scenario of the specification under green-wave control. *)
Definition glide_request : SimRequest :=
  {| mode := glide; steps := 180; cycle := 90; v_prog_kmh := 40 # 1;
     cars_per_hour := None; bus_headway_sec := Some 300;
     ab_tolerance_sec := 120; req_dwell_sec := 20;
     simulate_bunching := true; anti_bunching := true;
     tsp := None; bus_lines := None |}.

(** A departure time the generator may emit in a run of [steps] seconds. *)
Definition in_run (steps : Q) (d : Q) : Prop :=
  (15 # 100 <= d)%Q /\ (d < steps + (1 # 10))%Q.

(** *** Signal plan: facts *)

Lemma int_six_tenths (c : Z) : 0 <= c -> Py.int ((6 # 10) * inject_Z c)%Q = (3 * c) / 5.
Proof.
  intros Hc. rewrite Py.int_nonneg_floor.
  - assert (He : ((6 # 10) * inject_Z c == (3 * c) # 5)%Q).
    { unfold Qeq, inject_Z. simpl. lia. }
    rewrite (Qfloor_comp _ _ He). reflexivity.
  - unfold Qle, inject_Z. simpl. lia.
Qed.

(** For [C = 31], [0.6 * C = 18.6]: the green duration of the run is 18,
    not [round(18.6) = 19]. *)
Lemma green_is_not_rounded :
  ~ (forall req : SimRequest, 30 <= cycle req <= 180 ->
       G req = Py.round ((6 # 10) * inject_Z (cycle req))%Q).
Proof.
  intros Hc.
  specialize (Hc {| mode := fixed; steps := 180; cycle := 31; v_prog_kmh := 40 # 1;
                    cars_per_hour := None; bus_headway_sec := Some 300;
                    ab_tolerance_sec := 120; req_dwell_sec := 20;
                    simulate_bunching := true; anti_bunching := true;
                    tsp := None; bus_lines := None |}).
  simpl in Hc. specialize (Hc ltac:(lia)). vm_compute in Hc. discriminate.
Qed.

(** C7 (amended).  For every cycle length [C] in [[30, 180]] the green
    duration of the signal plan is [int(0.6 * C)], the integer part
    [floor(3 * C / 5)] of [0.6 * C] (the same in [run_sim], [glide_plan] and
    [compute_green_band]), and the yellow duration is 6 seconds; green and
    yellow fit in the cycle.  A node's phase at tick [t] is Green when
    [(t + offset) mod C] is below the green duration, Yellow for the next 6
    seconds and Red otherwise. *)
Theorem signal_plan_phases (req : SimRequest) :
  30 <= cycle req <= 180 ->
  G req = (3 * cycle req) / 5
  /\ plan_width (cycle req) = G req
  /\ Offsets.green_width (6 # 10) (cycle req) = G req
  /\ Y = 6
  /\ G req + Y <= cycle req
  /\ forall (offsets : gmap string Z) (nid : string) (t : Z),
       let tau := (t + default 0 (offsets !! nid)) mod cycle req in
       0 <= tau < cycle req
       /\ (tau < G req -> ew_state req offsets nid t = Green)
       /\ (G req <= tau < G req + 6 -> ew_state req offsets nid t = Yellow)
       /\ (G req + 6 <= tau -> ew_state req offsets nid t = Red).
Proof.
  intros Hc.
  assert (HG : G req = (3 * cycle req) / 5) by (apply int_six_tenths; lia).
  split; [exact HG|]. split; [|split; [|split; [reflexivity|split]]].
  - unfold plan_width. rewrite HG, <- int_six_tenths by lia.
    apply Py.int_comp_nonneg; [|ring].
    unfold Qle, inject_Z. simpl. lia.
  - unfold Offsets.green_width. rewrite HG. apply int_six_tenths. lia.
  - rewrite HG. unfold Y.
    assert (3 * cycle req / 5 <= (3 * cycle req - 90 + 60) / 5 + 6); [|].
    { replace (3 * cycle req - 90 + 60) with (3 * cycle req + (-6) * 5) by lia.
      rewrite Z.div_add by lia. lia. }
    pose proof (Z.mul_div_le (3 * cycle req) 5 ltac:(lia)). lia.
  - intros offsets nid t tau.
    assert (Htau : 0 <= tau < cycle req) by (apply Z.mod_pos_bound; lia).
    split; [exact Htau|].
    unfold ew_state, C. fold tau. unfold Y.
    repeat split; intros H.
    + destruct (tau <? G req) eqn:E; [reflexivity | lia].
    + destruct (tau <? G req) eqn:E; [lia|].
      destruct (tau <? G req + 6) eqn:E'; [reflexivity | lia].
    + destruct (tau <? G req) eqn:E; [lia|].
      destruct (tau <? G req + 6) eqn:E'; [lia | reflexivity].
Qed.

Lemma signal_plan_phases_witness :
  G scenario_request = 54
  /\ ew_state scenario_request ∅ "J1" 53 = Green
  /\ ew_state scenario_request ∅ "J1" 54 = Yellow
  /\ ew_state scenario_request ∅ "J1" 60 = Red.
Proof.
  destruct (signal_plan_phases scenario_request) as (HG & _ & _ & _ & _ & Hph);
    [simpl; lia|].
  split; [exact HG|].
  destruct (Hph ∅ "J1" 53) as (_ & Hg & _ & _).
  destruct (Hph ∅ "J1" 54) as (_ & _ & Hy & _).
  destruct (Hph ∅ "J1" 60) as (_ & _ & _ & Hr).
  split; [apply Hg; vm_compute; reflexivity|].
  split; [apply Hy; vm_compute; split; [discriminate | reflexivity]|].
  apply Hr; vm_compute; discriminate.
Defined.

(** In binary64 too, [int(0.6 * C)] and [int(C * 0.6)] are
    [floor(3 * C / 5)] for each cycle length from 30 to 180. *)
Lemma green_duration_binary64 :
  forallb (fun c => Binary64.int_is (PrimFloat.mul Binary64.six_tenths (Binary64.of_Z c))
                                    ((3 * c) / 5)
                    && Binary64.int_is (PrimFloat.mul (Binary64.of_Z c) Binary64.six_tenths)
                                       ((3 * c) / 5))
          Binary64.cycles = true.
Proof. vm_compute. reflexivity. Qed.

(** *** Demand generator: facts *)

Lemma clip_range x lo hi :
  (lo <= hi)%Q -> (lo <= Py.clip x lo hi)%Q /\ (Py.clip x lo hi <= hi)%Q.
Proof.
  intros Hle. unfold Py.clip, Py.min, Py.max.
  destruct (Py.ltb x lo) eqn:E1; [apply Py.ltb_lt in E1 | apply Py.ltb_ge in E1].
  - destruct (Py.ltb hi lo) eqn:E2; [apply Py.ltb_lt in E2 | apply Py.ltb_ge in E2];
      split; lra.
  - destruct (Py.ltb hi x) eqn:E2; [apply Py.ltb_lt in E2 | apply Py.ltb_ge in E2];
      split; lra.
Qed.

Lemma sample_headway_range req rs k :
  (6 # 10 <= sample_headway req rs k)%Q /\ (sample_headway req rs k <= 6 # 1)%Q.
Proof. apply clip_range. discriminate. Qed.

Lemma gap_in_range_spec g :
  gap_in_range g = true <-> (6 # 10 <= g)%Q /\ (g <= 6 # 1)%Q.
Proof.
  unfold gap_in_range. rewrite andb_true_iff, !Py.leb_le. reflexivity.
Qed.

Lemma burst_loop_sampled rs n : forall t_burst t_end steps st,
  sampled (burst_loop rs n t_burst t_end steps st) = sampled st.
Proof.
  induction n as [|n IH]; intros tb te sp st; simpl; [reflexivity|].
  destruct (Py.ltb tb te && Py.ltb tb sp); now rewrite IH.
Qed.

Lemma depart_loop_total req rs t_end steps fuel : forall t st,
  (t_end - t <= (6 # 10) * inject_Z (Z.of_nat fuel))%Q ->
  exists st', depart_loop req rs fuel t t_end steps st = Some st'
              /\ (Forall (fun g => gap_in_range g = true) (sampled st) ->
                  Forall (fun g => gap_in_range g = true) (sampled st')).
Proof.
  induction fuel as [|fuel IH]; intros t st Hm.
  - exists st. split; [|auto]. simpl.
    assert (E : Py.ltb t t_end = false).
    { apply Py.ltb_ge. change (inject_Z (Z.of_nat 0)) with 0%Q in Hm. lra. }
    now rewrite E.
  - cbn [depart_loop].
    destruct (Py.ltb t t_end && Py.ltb t steps); [|exists st; auto].
    pose proof (sample_headway_range req rs (n_lognormal st)) as [Hlo Hhi].
    match goal with
    | |- exists st', depart_loop _ _ _ ?t' _ _ ?s = _ /\ _ =>
        destruct (IH t' s) as (st' & E & HF)
    end.
    + rewrite Nat2Z.inj_succ in Hm. unfold Z.succ in Hm.
      rewrite inject_Z_plus in Hm. change (inject_Z 1) with 1%Q in Hm.
      set (f := inject_Z (Z.of_nat fuel)) in *. clearbody f. lra.
    + exists st'. split; [exact E|]. intros H. apply HF. simpl.
      apply Forall_app. split; [exact H|].
      constructor; [|constructor]. apply gap_in_range_spec. now split.
Qed.

Lemma depart_bound_enough t t_end :
  (t_end - t <= (6 # 10) * inject_Z (Z.of_nat (depart_bound t t_end)))%Q.
Proof.
  unfold depart_bound.
  pose proof (Qle_ceiling ((t_end - t) / (6 # 10))) as Hc.
  set (q := ((t_end - t) / (6 # 10))%Q) in *.
  assert (Hq : (t_end - t == (6 # 10) * q)%Q) by (unfold q; field).
  rewrite Hq. apply Qmult_le_l; [reflexivity|].
  eapply Qle_trans; [exact Hc|].
  rewrite <- Zle_Qle. lia.
Qed.

Lemma window_loop_total req rs offset_J1 fuel : forall k st,
  0 < C req ->
  STEPS req + offset_J1 < (k + Z.of_nat fuel) * C req ->
  exists st', window_loop req rs offset_J1 fuel k st = Some st'
              /\ (Forall (fun g => gap_in_range g = true) (sampled st) ->
                  Forall (fun g => gap_in_range g = true) (sampled st')).
Proof.
  induction fuel as [|fuel IH]; intros k st HC Hm.
  - exists st. split; [|auto]. simpl.
    assert (E : (STEPS req <? k * C req - offset_J1) = true) by lia.
    now rewrite E.
  - cbn [window_loop].
    destruct (STEPS req <? k * C req - offset_J1); [exists st; auto|].
    match goal with
    | |- exists st', (depart_loop _ _ ?f ?t ?te ?sp ?s ≫= _) = _ /\ _ =>
        destruct (depart_loop_total req rs te sp f t s (depart_bound_enough t te))
          as (s1 & E1 & HF1)
    end.
    rewrite E1. cbn [mbind option_bind].
    destruct (IH (k + 1) s1 HC) as (st' & E & HF); [lia|].
    exists st'. split; [exact E|]. intros H. apply HF, HF1.
    destruct (target_vph req >=? 1800); [rewrite burst_loop_sampled|]; exact H.
Qed.

Lemma window_bound_enough req offset_J1 :
  0 < C req ->
  STEPS req + offset_J1 < (0 + Z.of_nat (window_bound req offset_J1)) * C req.
Proof.
  intros HC. unfold window_bound.
  set (n := STEPS req + offset_J1).
  pose proof (Z.mod_pos_bound n (C req) HC) as Hmod.
  pose proof (Z.div_mod n (C req) ltac:(lia)) as Hdm.
  destruct (Z_lt_le_dec (n / C req + 1) 0) as [Hneg | Hpos].
  - rewrite Z2Nat.nonpos by lia. simpl. nia.
  - rewrite Z2Nat.id by lia. nia.
Qed.

Lemma forall_gap_in_range l :
  Forall (fun g => (6 # 10 <= g)%Q /\ (g <= 6 # 1)%Q) l ->
  forallb gap_in_range l = true.
Proof.
  intros H. apply forallb_forall. intros g Hin.
  rewrite Forall_forall in H. apply gap_in_range_spec, H.
  now apply list_elem_of_In.
Qed.

(** In the scenario run with steady draws the timeline has two green
    windows of cars one second apart, and 37 seconds lie between the last
    departure of the first window and the first departure of the second. *)
Lemma departure_gap_exceeds_six :
  ~ (forall req offsets rs times gaps,
       valid_request req -> rng_in_range rs ->
       generate_demand req offsets rs = Some (times, gaps) ->
       Forall (fun g => (6 # 10 <= g)%Q /\ (g <= 6 # 1)%Q) (consecutive_gaps times)).
Proof.
  intros Hc.
  destruct (generate_demand scenario_request {["J1" := 0]} steady_rng)
    as [[times gaps]|] eqn:E; [|vm_compute in E; discriminate].
  specialize (Hc scenario_request {["J1" := 0]} steady_rng times gaps).
  apply forall_gap_in_range in Hc.
  - vm_compute in E. injection E as <- <-. vm_compute in Hc. discriminate.
  - unfold valid_request. simpl. repeat split; try lia; discriminate.
  - split.
    + intros k. split; [discriminate | reflexivity].
    + intros k m sg. reflexivity.
  - exact E.
Qed.

(** C8 (amended).  For every run of the demand generator (every draw
    sequence, every target volume) the generator returns a timeline, and
    every gap it samples, that is every value of [sample_headway], by which
    the departure clock advances inside a green window, lies within
    [[0.6, 6.0]] seconds.  (The gaps between consecutive departure times of
    the timeline carry in addition the jitter of each departure, the platoon
    spacing and the red time between green windows.) *)
Theorem sampled_gaps_in_range (req : SimRequest) (offsets : gmap string Z)
    (rs : rng) (offset_J1 : Z) :
  0 < cycle req -> offsets !! "J1" = Some offset_J1 ->
  (forall k, (6 # 10 <= sample_headway req rs k)%Q
             /\ (sample_headway req rs k <= 6 # 1)%Q)
  /\ exists times gaps,
       generate_demand req offsets rs = Some (times, gaps)
       /\ Forall (fun g => (6 # 10 <= g)%Q /\ (g <= 6 # 1)%Q) gaps.
Proof.
  intros HC Ho. split; [intros k; apply sample_headway_range|].
  unfold generate_demand. rewrite Ho. cbn [mbind option_bind].
  destruct (window_loop_total req rs offset_J1 (window_bound req offset_J1) 0
              {| car_depart_times := []; sampled := []; n_unit := 0; n_lognormal := 0 |}
              HC (window_bound_enough req offset_J1 HC)) as (st & E & HF).
  rewrite E. cbn [mbind option_bind].
  exists (sort_times (car_depart_times st)), (sampled st). split; [reflexivity|].
  simpl in HF. specialize (HF ltac:(constructor)).
  eapply Forall_impl; [exact HF|]. intros g Hg. now apply gap_in_range_spec.
Qed.

Lemma sampled_gaps_in_range_witness :
  exists times gaps,
    generate_demand scenario_request {["J1" := 0]} steady_rng = Some (times, gaps)
    /\ Forall (fun g => (6 # 10 <= g)%Q /\ (g <= 6 # 1)%Q) gaps.
Proof.
  apply (sampled_gaps_in_range scenario_request {["J1" := 0]} steady_rng 0).
  - simpl. lia.
  - reflexivity.
Defined.

(** *** The stepper: invariants and totality *)

Definition stop_ok (st : stop_state) : Prop :=
  (length (stop_occupancy st) <= STOP_BERTHS)%nat
  /\ length (stop_release_time st) = length (stop_occupancy st).

Definition line_ok (m : line_monitor) : Prop :=
  arrivals m = Z.of_nat (length (arr_times m)).

Definition world_ok (w : world) : Prop :=
  (forall sx, stop_ok (stops w sx))
  /\ (forall lid m, monitor_lines w !! lid = Some m -> line_ok m).

(** A bus is registered when [monitor["lines"]] has an entry for its line. *)
Definition registered (w : world) (v : vehicle) : Prop :=
  veh_kind v = bus -> line_key v ∈ dom (monitor_lines w).

(** What [update_one] leaves unchanged in a vehicle. *)
Definition same_vehicle (v v' : vehicle) : Prop :=
  veh_id v' = veh_id v /\ veh_kind v' = veh_kind v /\ veh_line v' = veh_line v
  /\ veh_v v' = veh_v v.

Lemma pop_length {A} (l : list A) i l' :
  pop l i = Some l' -> S (length l') = length l.
Proof.
  unfold pop. destruct (decide (i < length l)%nat) as [Hi|]; [|discriminate].
  intros [= <-]. rewrite length_app, length_take, length_drop. lia.
Qed.

Lemma pop_in_range {A} (l : list A) i :
  (i < length l)%nat -> is_Some (pop l i).
Proof.
  intros Hi. unfold pop. destruct (decide (i < length l)%nat); [eauto | contradiction].
Qed.

Lemma index_of_lt a l i : index_of a l = Some i -> (i < length l)%nat.
Proof.
  unfold index_of. destruct (list_find (λ b, b = a) l) as [[j b]|] eqn:E; [|discriminate].
  intros [= <-]. apply list_find_Some in E as (Hl & _). simpl.
  eapply lookup_lt_Some; eauto.
Qed.

Lemma release_stop_ok w sx0 vid :
  world_ok w ->
  exists w', release_stop w sx0 vid = Some w'
             /\ world_ok w' /\ monitor_lines w' = monitor_lines w.
Proof.
  intros [Hs Hl]. unfold release_stop.
  destruct (index_of vid (stop_occupancy (stops w sx0))) as [i|] eqn:Ei;
    [|exists w; split; [reflexivity|]; split; [split; assumption | reflexivity]].
  apply index_of_lt in Ei.
  destruct (Hs sx0) as [Hcap Hpar].
  destruct (pop_in_range (stop_occupancy (stops w sx0)) i Ei) as [occ Eo].
  assert (Ei' : (i < length (stop_release_time (stops w sx0)))%nat) by lia.
  destruct (pop_in_range (stop_release_time (stops w sx0)) i Ei') as [rel Er].
  rewrite Eo, Er. cbn [mbind option_bind].
  eexists. split; [reflexivity|]. split; [|reflexivity].
  split; [|exact Hl].
  intros sx. unfold set_stop. cbn [stops].
  destruct (decide (sx = sx0)); [|exact (Hs sx)].
  apply pop_length in Eo, Er. unfold stop_ok. cbn [stop_occupancy stop_release_time].
  lia.
Qed.

Lemma count_queue_hold_ok w lid :
  world_ok w -> lid ∈ dom (monitor_lines w) ->
  exists w', count_queue_hold w lid = Some w'
             /\ world_ok w' /\ stops w' = stops w
             /\ dom (monitor_lines w') = dom (monitor_lines w).
Proof.
  intros [Hs Hl] Hin. apply elem_of_dom in Hin as [m Em].
  unfold count_queue_hold. rewrite Em. cbn [mbind option_bind].
  eexists. split; [reflexivity|]. cbn [stops monitor_lines].
  split; [split; [exact Hs|]|split; [reflexivity|]].
  - cbn [monitor_lines]. intros lid' m' E.
    destruct (decide (lid = lid')) as [->|Hne].
    + rewrite lookup_insert_eq in E. injection E as E. subst m'. exact (Hl _ _ Em).
    + rewrite lookup_insert_ne in E by assumption. exact (Hl _ _ E).
  - rewrite dom_insert_L. apply subseteq_union_1_L, singleton_subseteq_l.
    eapply elem_of_dom_2; eauto.
Qed.

Lemma count_arrival_ok w lid t_int :
  world_ok w -> lid ∈ dom (monitor_lines w) ->
  exists w', count_arrival w lid t_int = Some w'
             /\ world_ok w' /\ stops w' = stops w
             /\ dom (monitor_lines w') = dom (monitor_lines w).
Proof.
  intros [Hs Hl] Hin. apply elem_of_dom in Hin as [m Em].
  unfold count_arrival. rewrite Em. cbn [mbind option_bind].
  eexists. split; [reflexivity|]. cbn [stops monitor_lines].
  split; [split; [exact Hs|]|split; [reflexivity|]].
  - cbn [monitor_lines]. intros lid' m' E.
    destruct (decide (lid = lid')) as [->|Hne].
    + rewrite lookup_insert_eq in E. injection E as E. subst m'.
      unfold line_ok. cbn [arrivals arr_times].
      rewrite length_app. simpl. rewrite (Hl _ _ Em). lia.
    + rewrite lookup_insert_ne in E by assumption. exact (Hl _ _ E).
  - rewrite dom_insert_L. apply subseteq_union_1_L, singleton_subseteq_l.
    eapply elem_of_dom_2; eauto.
Qed.

Lemma entry_allowed_room st t_int :
  entry_denied st t_int = false ->
  (length (stop_occupancy st) < STOP_BERTHS)%nat
  /\ (forall last, last_arrival_time st = Some last -> COINCIDENCE_WINDOW < t_int - last).
Proof.
  unfold entry_denied. intros H. apply orb_false_iff in H as [H1 H2].
  split; [apply Nat.leb_gt in H1; exact H1|].
  intros last E. rewrite E in H2. lia.
Qed.

Lemma enter_stop_ok st vid t_int du :
  stop_ok st -> entry_denied st t_int = false -> stop_ok (enter_stop st vid t_int du).
Proof.
  intros [Hcap Hpar] Hd. apply entry_allowed_room in Hd as [Hroom _].
  unfold stop_ok, enter_stop. cbn [stop_occupancy stop_release_time].
  rewrite !length_app. simpl. lia.
Qed.

Lemma stopline_limit_same v x x_try green_now :
  same_vehicle v (stopline_limit v x x_try green_now).
Proof. unfold same_vehicle, stopline_limit. simpl. auto. Qed.

Lemma approach_ok req v x x_try t_int green_now w :
  world_ok w -> line_key v ∈ dom (monitor_lines w) ->
  exists v' w', approach req v x x_try t_int green_now w = Some (v', w')
                /\ world_ok w' /\ same_vehicle v v'
                /\ dom (monitor_lines w') = dom (monitor_lines w).
Proof.
  intros Hw Hr. unfold approach.
  destruct (find (crosses x x_try) bus_stops) as [sx|].
  - destruct (entry_denied (stops w sx) t_int) eqn:Ed.
    + destruct (count_queue_hold_ok w (line_key v) Hw Hr) as (w' & E & Hw' & _ & Hd).
      change (line_key (set_queueing true (set_stopped true
                (set_x (stop_x sx - PRESTOP_HOLD)%Q v)))) with (line_key v).
      rewrite E. cbn [mbind option_bind].
      eexists _, w'. split; [reflexivity|]. split; [exact Hw'|].
      split; [|exact Hd]. unfold same_vehicle. simpl. auto.
    + set (du := t_int + dwell_cfg req v).
      set (w1 := set_stop w sx (enter_stop (stops w sx) (veh_id v) t_int du)).
      assert (Hw1 : world_ok w1).
      { destruct Hw as [Hs Hl]. split; [|exact Hl].
        intros sx'. unfold w1, set_stop. cbn [stops].
        destruct (decide (sx' = sx)); [|exact (Hs sx')].
        apply enter_stop_ok; [exact (Hs sx) | exact Ed]. }
      destruct (count_arrival_ok w1 (line_key v) t_int Hw1 Hr) as (w' & E & Hw' & _ & Hd).
      cbn zeta.
      match goal with
      | |- exists v' w', (count_arrival ?a ?b ?c ≫= _) = _ /\ _ =>
          change a with w1; change b with (line_key v)
      end.
      rewrite E. cbn [mbind option_bind].
      eexists _, w'. split; [reflexivity|]. split; [exact Hw'|].
      split; [|exact Hd]. unfold same_vehicle. simpl. auto.
  - eexists _, w. split; [reflexivity|]. split; [exact Hw|].
    split; [apply stopline_limit_same | reflexivity].
Qed.

Lemma update_one_ok req v t_int green_now w :
  world_ok w -> registered w v ->
  exists v' w', update_one req v t_int green_now w = Some (v', w')
                /\ world_ok w' /\ same_vehicle v v'
                /\ dom (monitor_lines w') = dom (monitor_lines w).
Proof.
  intros Hw Hr. unfold update_one.
  destruct (veh_kind v) eqn:Ek.
  - eexists _, w. split; [reflexivity|]. split; [exact Hw|].
    split; [apply stopline_limit_same | reflexivity].
  - specialize (Hr Ek).
    destruct (veh_dwell_until v) as [du|].
    + destruct (t_int <? du).
      * eexists _, w. split; [reflexivity|]. split; [exact Hw|].
        split; [|reflexivity]. unfold same_vehicle. simpl. auto.
      * destruct (veh_at_stop v) as [sx0|].
        -- destruct (release_stop_ok w sx0 (veh_id v) Hw) as (w1 & E1 & Hw1 & Hm1).
           rewrite E1. cbn [mbind option_bind].
           match goal with
           | |- exists v' w', approach _ ?a ?b ?c _ _ _ = _ /\ _ =>
               destruct (approach_ok req a b c t_int green_now w1 Hw1)
                 as (v' & w' & E & Hw' & Hsame & Hd)
           end.
           { rewrite Hm1. exact Hr. }
           exists v', w'. split; [exact E|]. rewrite Hd, Hm1.
           split; [exact Hw'|]. split; [|reflexivity].
           unfold same_vehicle in *. simpl in Hsame. exact Hsame.
        -- destruct (approach_ok req v (veh_x v) (veh_x v + veh_v v)%Q t_int green_now w Hw Hr)
             as (v' & w' & E & H). exists v', w'. split; [exact E | exact H].
    + destruct (approach_ok req v (veh_x v) (veh_x v + veh_v v)%Q t_int green_now w Hw Hr)
        as (v' & w' & E & H). exists v', w'. split; [exact E | exact H].
Qed.

(** *** The loop: invariants and totality *)

Definition line_ids (req : SimRequest) : gset string :=
  list_to_set (map line_id (lines req)).

(** A bus of the run belongs to one of the run's lines. *)
Definition of_run (req : SimRequest) (v : vehicle) : Prop :=
  veh_kind v = bus -> line_key v ∈ line_ids req.

Definition state_ok (req : SimRequest) (s : sim_state) : Prop :=
  world_ok (shared s)
  /\ dom (monitor_lines (shared s)) = line_ids req
  /\ Forall (of_run req) (vehicles s)
  /\ car_exited s = Z.of_nat (length (car_exit_ts s)).

Lemma of_run_same req v v' : same_vehicle v v' -> of_run req v -> of_run req v'.
Proof.
  intros (_ & Hk & Hl & _) H Hb. unfold of_run, line_key in *.
  rewrite Hl. apply H. congruence.
Qed.

Lemma count_second_same v : same_vehicle v (count_second v).
Proof.
  unfold count_second, same_vehicle.
  destruct (veh_kind v) eqn:Ek, (veh_stopped v), (veh_stopped_at_station v),
    (veh_queueing v); simpl; rewrite ?Ek; repeat split; reflexivity.
Qed.

Lemma fold_insert_dom {A} (f : BusLineSpec -> A) ls : forall m : gmap string A,
  dom (fold_left (fun m L => <[line_id L := f L]> m) ls m)
  = list_to_set (map line_id ls) ∪ dom m.
Proof.
  induction ls as [|L ls IH]; intros m; simpl.
  - now rewrite union_empty_l_L.
  - rewrite IH, dom_insert_L, !(assoc_L (∪)). f_equal. apply (comm_L (∪)).
Qed.

Lemma fold_insert_all {A} (P : A -> Prop) (f : BusLineSpec -> A) ls :
  (forall L, P (f L)) -> forall m : gmap string A,
  (forall k a, m !! k = Some a -> P a) ->
  forall k a, fold_left (fun m L => <[line_id L := f L]> m) ls m !! k = Some a -> P a.
Proof.
  intros Hf. induction ls as [|L ls IH]; intros m Hm k a; simpl; [apply Hm|].
  apply IH. intros k' a' E. destruct (decide (line_id L = k')) as [Heq|Hne]; [subst k'|].
  - rewrite lookup_insert_eq in E. injection E as E. subst a'. apply Hf.
  - rewrite lookup_insert_ne in E by assumption. eapply Hm; eauto.
Qed.

Lemma initial_state_ok req : state_ok req (initial_state req).
Proof.
  unfold state_ok, initial_state, initial_world. cbn [shared vehicles car_exited car_exit_ts].
  split; [split|split; [|split]].
  - intros sx. unfold stop_ok. simpl. lia.
  - cbn [monitor_lines]. apply (fold_insert_all line_ok initial_line_monitor).
    + intros L. reflexivity.
    + intros k a E. rewrite lookup_empty in E. discriminate.
  - cbn [monitor_lines]. rewrite fold_insert_dom, dom_empty_L.
    now rewrite union_empty_r_L.
  - constructor.
  - reflexivity.
Qed.

Lemma update_all_ok req t green_now todo : forall s,
  state_ok req s -> Forall (of_run req) todo ->
  exists s', update_all req t green_now todo s = Some s' /\ state_ok req s'.
Proof.
  induction todo as [|v todo IH]; intros s Hs Htodo; [exists s; auto|].
  inversion Htodo as [|? ? Hv Hrest]; subst.
  destruct Hs as (Hw & Hd & Hvs & Hc).
  cbn [update_all].
  destruct (update_one_ok req v t green_now (shared s) Hw) as (nv & w & E & Hw' & Hsame & Hd').
  { intros Hb. rewrite Hd. apply Hv, Hb. }
  rewrite E. cbn [mbind option_bind].
  assert (Hnv : of_run req (count_second nv)).
  { eapply of_run_same; [apply count_second_same|].
    eapply of_run_same; eauto. }
  destruct (Py.ltb (X_MAX + (30 # 1)) (veh_x (count_second nv))).
  - apply IH; [|exact Hrest].
    unfold state_ok, leave, with_vehicles.
    destruct (veh_kind (count_second nv));
      cbn [shared vehicles car_exited car_exit_ts];
      (split; [exact Hw'|]; split; [congruence|]; split; [exact Hvs|]).
    + rewrite length_app. simpl. lia.
    + exact Hc.
  - apply IH; [|exact Hrest].
    unfold state_ok, with_vehicles. cbn [shared vehicles car_exited car_exit_ts].
    split; [exact Hw'|]. split; [congruence|]. split; [|exact Hc].
    apply Forall_app. split; [exact Hvs|]. constructor; [exact Hnv | constructor].
Qed.

Lemma spawn_cars_of_run req rs t pending : forall ci n vs,
  Forall (of_run req) vs ->
  Forall (of_run req) (spawn_cars req rs t pending ci n vs).1.1.
Proof.
  induction pending as [|dep pending IH]; intros ci n vs Hvs; simpl; [exact Hvs|].
  destruct (Py.ltb dep (inject_Z t + 1)); [|exact Hvs].
  apply IH. apply Forall_app. split; [exact Hvs|].
  constructor; [|constructor]. intros Hb. discriminate.
Qed.

Lemma spawn_line_of_run req L t pending : forall idx vs,
  line_id L ∈ line_ids req ->
  Forall (of_run req) vs ->
  Forall (of_run req) (spawn_line req L t pending idx vs).1.
Proof.
  induction pending as [|dep pending IH]; intros idx vs HL Hvs; simpl; [exact Hvs|].
  destruct (Py.ltb dep (inject_Z t + 1)); [|exact Hvs].
  apply IH; [exact HL|]. apply Forall_app. split; [exact Hvs|].
  constructor; [|constructor]. intros _. exact HL.
Qed.

Lemma spawn_buses_of_run req schedule t ls : forall index vs,
  Forall (fun L => line_id L ∈ line_ids req) ls ->
  Forall (of_run req) vs ->
  Forall (of_run req) (spawn_buses req schedule t ls index vs).1.
Proof.
  induction ls as [|L ls IH]; intros index vs Hls Hvs; simpl; [exact Hvs|].
  inversion Hls as [|? ? HL Hrest]; subst.
  pose proof (spawn_line_of_run req L t
                (drop (default 0%nat (index !! line_id L)) (schedule (line_id L)))
                (default 0%nat (index !! line_id L)) vs HL Hvs) as H.
  destruct (spawn_line req L t _ _ vs) as [vs' idx']. simpl in H.
  now apply IH.
Qed.

Lemma lines_in_line_ids req :
  Forall (fun L => line_id L ∈ line_ids req) (lines req).
Proof.
  apply Forall_forall. intros L HL. unfold line_ids.
  apply elem_of_list_to_set, list_elem_of_fmap. exists L. split; [reflexivity | exact HL].
Qed.

Lemma buses_first_of_run req vs :
  Forall (of_run req) vs -> Forall (of_run req) (buses_first vs).
Proof.
  intros H. unfold buses_first. apply Forall_app.
  split; apply Forall_forall; intros v Hv; apply list_elem_of_In, filter_In in Hv as [Hv _];
    rewrite Forall_forall in H; apply H, list_elem_of_In, Hv.
Qed.

Lemma tick_ok req offsets rs car_depart_times schedule t s :
  state_ok req s ->
  exists s', tick req offsets rs car_depart_times schedule t s = Some s'
             /\ state_ok req s'.
Proof.
  intros (Hw & Hd & Hvs & Hc). unfold tick.
  pose proof (spawn_cars_of_run req rs t (drop (car_i s) car_depart_times)
                (car_i s) (n_draws s) (vehicles s) Hvs) as H1.
  destruct (spawn_cars req rs t _ _ _ (vehicles s)) as [[vs1 ci] n]. simpl in H1.
  pose proof (spawn_buses_of_run req schedule t (lines req) (bus_spawn_index s) vs1
                (lines_in_line_ids req) H1) as H2.
  destruct (spawn_buses req schedule t (lines req) (bus_spawn_index s) vs1) as [vs2 index].
  simpl in H2.
  apply update_all_ok; [|now apply buses_first_of_run].
  unfold state_ok. cbn [shared vehicles car_exited car_exit_ts].
  repeat split; try assumption; try apply Hw. constructor.
Qed.

Lemma run_ticks_ok req offsets rs car_depart_times schedule n :
  exists s, run_ticks req offsets rs car_depart_times schedule n = Some s
            /\ state_ok req s.
Proof.
  induction n as [|n (s & E & Hs)]; simpl.
  - exists (initial_state req). split; [reflexivity | apply initial_state_ok].
  - rewrite E. cbn [mbind option_bind]. now apply tick_ok.
Qed.

(** *** Position of a vehicle across an update *)

Lemma max_ge_l a b : (a <= Py.max a b)%Q.
Proof.
  unfold Py.max. destruct (Py.ltb a b) eqn:E; [|lra].
  apply Py.ltb_lt in E. lra.
Qed.

Lemma max_mono a a' b : (a <= a')%Q -> (Py.max a b <= Py.max a' b)%Q.
Proof.
  intros H. unfold Py.max.
  destruct (Py.ltb a b) eqn:E1; [apply Py.ltb_lt in E1 | apply Py.ltb_ge in E1];
    (destruct (Py.ltb a' b) eqn:E2; [apply Py.ltb_lt in E2 | apply Py.ltb_ge in E2]); lra.
Qed.

Lemma fold_min_in l : forall a, In (fold_left Py.min l a) (a :: l).
Proof.
  induction l as [|b l IH]; intros a; [left; reflexivity|].
  cbn [fold_left].
  destruct (IH (Py.min a b)) as [H | H]; [|right; right; exact H].
  assert (Hm : Py.min a b = a \/ Py.min a b = b)
    by (unfold Py.min; destruct (Py.ltb b a); auto).
  destruct Hm as [Hm | Hm]; rewrite Hm in H |- *; [left | right; left]; exact H.
Qed.

Lemma next_stopline_x_in x line :
  next_stopline_x x = Some line -> In line (map snd stoplines) /\ (x < line)%Q.
Proof.
  unfold next_stopline_x.
  destruct (List.filter _ (map snd stoplines)) as [|sx nxt] eqn:E; [discriminate|].
  intros [= <-].
  assert (Hin : In (fold_left Py.min nxt sx) (sx :: nxt)) by apply fold_min_in.
  rewrite <- E in Hin. apply filter_In in Hin as [Hin Hlt].
  split; [exact Hin|]. apply Py.ltb_lt in Hlt. lra.
Qed.

(** Where a vehicle that is free to move ends up: not behind its old
    position, unless it is put at the buffer before a stop line whose signal
    is not green. *)
Lemma stopline_limit_x v x x_try green_now :
  (x <= x_try)%Q ->
  (x <= veh_x (stopline_limit v x x_try green_now))%Q
  \/ exists line, In line (map snd stoplines)
       /\ default false (green_now !! nearest_node line) = false
       /\ (x < line)%Q
       /\ veh_x (stopline_limit v x x_try green_now) = (line - STOPLINE_BUFFER)%Q.
Proof.
  intros Hle. unfold stopline_limit. cbn [veh_x set_stopped_at_station set_stopped set_x].
  destruct (next_stopline_x x) as [line|] eqn:En; [|left; exact Hle].
  destruct (negb (default false (green_now !! nearest_node line)) && Py.ltb x line) eqn:Eb;
    [|left; exact Hle].
  apply andb_true_iff in Eb as [Eg _]. apply negb_true_iff in Eg.
  apply next_stopline_x_in in En as [Hin Hlt].
  unfold Py.min. destruct (Py.ltb (line - STOPLINE_BUFFER) x_try); [|left; exact Hle].
  right. exists line. auto.
Qed.

Definition placed (v v' : vehicle) (green_now : gmap string bool) : Prop :=
  (veh_kind v = bus /\ exists sx,
     veh_queueing v' = true /\ veh_x v' = (stop_x sx - PRESTOP_HOLD)%Q)
  \/ (veh_kind v = bus /\ exists sx,
     veh_at_stop v' = Some sx /\ veh_x v' = (stop_x sx - (1 # 10))%Q)
  \/ (exists line, In line (map snd stoplines)
        /\ default false (green_now !! nearest_node line) = false
        /\ (veh_x v < line)%Q
        /\ veh_x v' = (line - STOPLINE_BUFFER)%Q).

Lemma approach_x req v x x_try t_int green_now w v' w' :
  (x <= x_try)%Q ->
  approach req v x x_try t_int green_now w = Some (v', w') ->
  (x <= veh_x v')%Q
  \/ (exists sx, veh_queueing v' = true /\ veh_x v' = (stop_x sx - PRESTOP_HOLD)%Q)
  \/ (exists sx, veh_at_stop v' = Some sx /\ veh_x v' = (stop_x sx - (1 # 10))%Q)
  \/ (exists line, In line (map snd stoplines)
        /\ default false (green_now !! nearest_node line) = false
        /\ (x < line)%Q
        /\ veh_x v' = (line - STOPLINE_BUFFER)%Q).
Proof.
  intros Hle. unfold approach.
  destruct (find (crosses x x_try) bus_stops) as [sx|].
  - destruct (entry_denied (stops w sx) t_int).
    + destruct (count_queue_hold w _) as [w1|]; [|discriminate].
      cbn [mbind option_bind]. intros [= <- <-].
      right. left. exists sx. split; reflexivity.
    + cbn zeta. destruct (count_arrival _ _ _) as [w1|]; [|discriminate].
      cbn [mbind option_bind]. intros [= <- <-].
      right. right. left. exists sx. split; reflexivity.
  - intros [= <- <-].
    destruct (stopline_limit_x v x x_try green_now Hle) as [H | H]; [left; exact H|].
    right. right. right. exact H.
Qed.

Lemma update_one_x req v t_int green_now w v' w' :
  (0 <= veh_v v)%Q ->
  update_one req v t_int green_now w = Some (v', w') ->
  (veh_x v <= veh_x v')%Q \/ placed v v' green_now.
Proof.
  intros Hvel. unfold update_one, placed.
  assert (Hle : (veh_x v <= veh_x v + veh_v v)%Q) by lra.
  destruct (veh_kind v) eqn:Ek.
  - intros [= <- <-].
    destruct (stopline_limit_x v (veh_x v) (veh_x v + veh_v v)%Q green_now Hle) as [H | H];
      [left; exact H | right; right; right; exact H].
  - assert (Happ : forall u x x_try w0,
              (veh_x v <= x)%Q -> (x <= x_try)%Q ->
              approach req u x x_try t_int green_now w0 = Some (v', w') ->
              (veh_x v <= veh_x v')%Q
              \/ (bus = bus /\ exists sx, veh_queueing v' = true
                                          /\ veh_x v' = (stop_x sx - PRESTOP_HOLD)%Q)
              \/ (bus = bus /\ exists sx, veh_at_stop v' = Some sx
                                          /\ veh_x v' = (stop_x sx - (1 # 10))%Q)
              \/ (exists line, In line (map snd stoplines)
                    /\ default false (green_now !! nearest_node line) = false
                    /\ (veh_x v < line)%Q
                    /\ veh_x v' = (line - STOPLINE_BUFFER)%Q)).
    { intros u x x_try w0 Hx Hxt E.
      destruct (approach_x req u x x_try t_int green_now w0 v' w' Hxt E)
        as [H | [H | [H | (line & Hin & Hg & Hlt & Heq)]]].
      - left. lra.
      - right. left. auto.
      - right. right. left. auto.
      - right. right. right. exists line. repeat split; auto. lra. }
    destruct (veh_dwell_until v) as [du|].
    + destruct (t_int <? du).
      * intros [= <- <-]. left. simpl. lra.
      * destruct (veh_at_stop v) as [sx0|].
        -- destruct (release_stop w sx0 (veh_id v)) as [w1|]; [|discriminate].
           cbn [mbind option_bind]. apply Happ.
           ++ apply max_ge_l.
           ++ now apply max_mono.
        -- apply Happ; lra.
    + apply Happ; lra.
Qed.

(** *** Bus stops: capacity *)

Lemma entry_denied_false st t_int :
  entry_denied st t_int = false <->
  (length (stop_occupancy st) < 2)%nat
  /\ ~ (exists last, last_arrival_time st = Some last /\ t_int - last <= 18).
Proof.
  unfold entry_denied, STOP_BERTHS, COINCIDENCE_WINDOW.
  rewrite orb_false_iff, Nat.leb_gt. split.
  - intros [H1 H2]. split; [exact H1|]. intros (last & E & Hle).
    rewrite E in H2. lia.
  - intros [H1 H2]. split; [exact H1|].
    destruct (last_arrival_time st) as [last|]; [|reflexivity].
    apply Z.leb_gt. destruct (Z_le_gt_dec (t_int - last) 18); [|lia].
    exfalso. apply H2. eauto.
Qed.

(** What the approach test does with a bus that is not dwelling and whose
    move would cross the stop [sx]. *)
Lemma approach_decision req v t_int green_now w sx :
  veh_kind v = bus -> veh_dwell_until v = None ->
  find (crosses (veh_x v) (veh_x v + veh_v v)) bus_stops = Some sx ->
  line_key v ∈ dom (monitor_lines w) ->
  exists v' w',
    update_one req v t_int green_now w = Some (v', w')
    /\ (entry_denied (stops w sx) t_int = false ->
        stop_occupancy (stops w' sx) = stop_occupancy (stops w sx) ++ [veh_id v]
        /\ veh_x v' = (stop_x sx - (1 # 10))%Q
        /\ veh_at_stop v' = Some sx
        /\ veh_dwell_until v' = Some (t_int + dwell_cfg req v)
        /\ veh_queueing v' = false)
    /\ (entry_denied (stops w sx) t_int = true ->
        stop_occupancy (stops w' sx) = stop_occupancy (stops w sx)
        /\ veh_x v' = (stop_x sx - PRESTOP_HOLD)%Q
        /\ veh_queueing v' = true
        /\ veh_stopped v' = true
        /\ veh_dwell_until v' = None).
Proof.
  intros Hk Hd Hf Hin. unfold update_one. rewrite Hk, Hd.
  unfold approach. rewrite Hf.
  apply elem_of_dom in Hin as [m Em].
  destruct (entry_denied (stops w sx) t_int) eqn:Ed.
  - unfold count_queue_hold.
    change (line_key (set_queueing true (set_stopped true
              (set_x (stop_x sx - PRESTOP_HOLD)%Q v)))) with (line_key v).
    rewrite Em. cbn [mbind option_bind].
    eexists _, _. split; [reflexivity|]. split; [discriminate|].
    intros _. cbn [stops]. simpl. rewrite Hd. auto.
  - cbn zeta. unfold count_arrival.
    match goal with
    | |- context [monitor_lines ?a !! ?b] =>
        change (monitor_lines a !! b) with (monitor_lines w !! line_key v)
    end.
    rewrite Em. cbn [mbind option_bind].
    eexists _, _. split; [reflexivity|]. split; [|discriminate].
    intros _. cbn [stops set_stop].
    destruct (decide (sx = sx)); [|contradiction]. simpl. auto.
Qed.

(** C1.  At every tick of every run (whatever the departures, the bus
    schedule and the random draws) the loop reaches the tick without raising
    and each stop's occupant list holds at most 2 bus ids.  A bus that is not
    dwelling and whose tentative move would cross a stop is admitted (its id
    appended to the occupant list, placed 0.1 before the stop, dwelling) only
    when the occupant count is below 2 and no previous arrival at that stop
    lies within the 18-second coincidence window; otherwise it is held 16
    distance-units before the stop with its queueing flag set, and the
    occupant list is unchanged. *)
Theorem stop_capacity_respected (req : SimRequest) (offsets : gmap string Z)
    (rs : rng) (car_depart_times : list Q) (schedule : string -> list Q) :
  (forall n : nat, exists s,
     run_ticks req offsets rs car_depart_times schedule n = Some s
     /\ forall sx, (length (stop_occupancy (stops (shared s) sx)) <= 2)%nat)
  /\ (forall v t_int green_now w sx,
        veh_kind v = bus -> veh_dwell_until v = None ->
        find (crosses (veh_x v) (veh_x v + veh_v v)) bus_stops = Some sx ->
        line_key v ∈ dom (monitor_lines w) ->
        let occ := stop_occupancy (stops w sx) in
        let room := (length occ < 2)%nat in
        let recent :=
          exists last, last_arrival_time (stops w sx) = Some last
                       /\ t_int - last <= 18 in
        exists v' w',
          update_one req v t_int green_now w = Some (v', w')
          /\ (room /\ ~ recent ->
              stop_occupancy (stops w' sx) = occ ++ [veh_id v]
              /\ veh_x v' = (stop_x sx - (1 # 10))%Q
              /\ veh_at_stop v' = Some sx
              /\ veh_dwell_until v' = Some (t_int + dwell_cfg req v)
              /\ veh_queueing v' = false)
          /\ (~ (room /\ ~ recent) ->
              stop_occupancy (stops w' sx) = occ
              /\ veh_x v' = (stop_x sx - 16)%Q
              /\ veh_queueing v' = true
              /\ veh_stopped v' = true
              /\ veh_dwell_until v' = None)).
Proof.
  split.
  - intros n.
    destruct (run_ticks_ok req offsets rs car_depart_times schedule n)
      as (s & E & (Hs & _) & _).
    exists s. split; [exact E|]. intros sx. apply (Hs sx).
  - intros v t_int green_now w sx Hk Hd Hf Hin occ room recent.
    destruct (approach_decision req v t_int green_now w sx Hk Hd Hf Hin)
      as (v' & w' & E & Hadm & Hheld).
    exists v', w'. split; [exact E|]. split.
    + intros H. apply Hadm, entry_denied_false. exact H.
    + intros H. apply Hheld.
      destruct (entry_denied (stops w sx) t_int) eqn:Ed; [reflexivity|].
      exfalso. apply H, entry_denied_false, Ed.
Qed.

Lemma stop_capacity_respected_witness :
  exists v' w',
    update_one twin_request bus_before_stop 43 ∅ world_after_arrival = Some (v', w')
    /\ stop_occupancy (stops w' S1) = ["bus_A_0"]
    /\ veh_x v' = (stop_x S1 - 16)%Q
    /\ veh_queueing v' = true.
Proof.
  destruct (stop_capacity_respected twin_request fixed_offsets steady_rng [] twin_schedule)
    as [_ H].
  destruct (H bus_before_stop 43 ∅ world_after_arrival S1) as (v' & w' & E & _ & Hheld).
  - reflexivity.
  - reflexivity.
  - reflexivity.
  - apply elem_of_dom. vm_compute. eauto.
  - exists v', w'. split; [exact E|].
    destruct Hheld as (Ho & Hx & Hq & _).
    + intros [_ Hn]. apply Hn. exists 43. split; [reflexivity | lia].
    + auto.
Defined.

(** *** Position across ticks *)

(** In the run of the twin lines, the bus of line B is at -460 after tick
    42 and at -466 after tick 43: it was held before the stop that the bus
    of line A had entered in the same tick.  A bus admitted from -450.05 is
    put at -450.1, and a car at -602 when the signal of J1 leaves green
    (tick 54) is put at -604.5. *)
Lemma held_bus_moves_back :
  position_of "bus_B_0"
    (run_ticks twin_request fixed_offsets steady_rng [] twin_schedule 43)
  = Some (-460 # 1)%Q
  /\ position_of "bus_B_0"
       (run_ticks twin_request fixed_offsets steady_rng [] twin_schedule 44)
     = Some (-466 # 1)%Q
  /\ (fun r => Qred (veh_x r.1))
       <$> update_one twin_request (set_x (-45005 # 100)%Q bus_before_stop) 43 ∅
             (initial_world twin_request)
     = Some (-4501 # 10)%Q
  /\ (fun r => Qred (veh_x r.1))
       <$> update_one scenario_request car_before_line 54
             (signals scenario_request fixed_offsets 54)
             (initial_world scenario_request)
     = Some (-1209 # 2)%Q
  /\ ~ (forall req v t_int green_now w v' w',
          update_one req v t_int green_now w = Some (v', w') ->
          (veh_x v <= veh_x v')%Q).
Proof.
  split; [vm_compute; reflexivity|]. split; [vm_compute; reflexivity|].
  split; [vm_compute; reflexivity|]. split; [vm_compute; reflexivity|].
  intros Hc.
  destruct (update_one twin_request bus_before_stop 43 ∅ world_after_arrival)
    as [[v' w']|] eqn:E; [|vm_compute in E; discriminate].
  specialize (Hc _ _ _ _ _ _ _ E).
  vm_compute in E. injection E as <- _. vm_compute in Hc. apply Hc. reflexivity.
Qed.

(** C5 (amended).  For every vehicle with a non-negative speed, in every
    state a run can be in, the per-tick update returns, and the vehicle's
    position after it is greater than or equal to its position before, unless
    the update has placed the vehicle at one of the stepper's stand-off
    positions: 16 before a stop (a bus held in the queue, queueing flag
    set), 0.1 before a stop (a bus admitted to it), or 4.5 before a stop
    line ahead whose signal is not green. *)
Theorem position_after_update (req : SimRequest) (v : vehicle) (t_int : Z)
    (green_now : gmap string bool) (w : world) :
  world_ok w -> registered w v -> (0 <= veh_v v)%Q ->
  exists v' w',
    update_one req v t_int green_now w = Some (v', w')
    /\ ((veh_x v <= veh_x v')%Q \/ placed v v' green_now).
Proof.
  intros Hw Hr Hvel.
  destruct (update_one_ok req v t_int green_now w Hw Hr) as (v' & w' & E & _).
  exists v', w'. split; [exact E|]. eapply update_one_x; eauto.
Qed.

Lemma position_after_update_witness :
  exists v' w',
    update_one scenario_request car_before_line 53
      (signals scenario_request fixed_offsets 53) (initial_world scenario_request)
    = Some (v', w')
    /\ ((veh_x car_before_line <= veh_x v')%Q
        \/ placed car_before_line v' (signals scenario_request fixed_offsets 53)).
Proof.
  apply (position_after_update scenario_request car_before_line 53
           (signals scenario_request fixed_offsets 53) (initial_world scenario_request)).
  - apply (initial_state_ok scenario_request).
  - intros H. discriminate H.
  - vm_compute. discriminate.
Defined.

(** *** End-of-run figures *)

Lemma avg_headway_none ts : (length ts < 2)%nat -> avg_headway ts = None.
Proof.
  intros H. unfold avg_headway.
  destruct (2 <=? length ts)%nat eqn:E; [apply Nat.leb_le in E; lia | reflexivity].
Qed.

Lemma line_headway_report_none float_sqrt req stats :
  (length (arr_times stats) < 2)%nat ->
  observed_headway_avg (line_headway_report float_sqrt req stats) = None
  /\ observed_headway_std (line_headway_report float_sqrt req stats) = None
  /\ on_time_pct (line_headway_report float_sqrt req stats) = None.
Proof.
  intros H. unfold line_headway_report.
  destruct (2 <=? length (arr_times stats))%nat eqn:E;
    [apply Nat.leb_le in E; lia|]. simpl. auto.
Qed.

(** C9.  Every run reaches its end, and there: the mean discharge headway
    KPI is [None] whenever fewer than 2 cars have exited, and for every bus
    line of the monitor with fewer than 2 recorded arrivals
    [observed_headway_avg], [observed_headway_std] and [on_time_pct] are all
    [None]. *)
Theorem headway_figures_undefined (float_sqrt : Q -> Q) (req : SimRequest)
    (offsets : gmap string Z) (rs : rng) (car_depart_times : list Q)
    (schedule : string -> list Q) :
  exists s,
    run_loop req offsets rs car_depart_times schedule = Some s
    /\ (car_exited s < 2 ->
        avg_discharge_headway_s (compute_kpis req s) = None)
    /\ (forall lid r,
          monitor_report float_sqrt req s !! lid = Some r ->
          rep_arrivals r < 2 ->
          observed_headway_avg r = None
          /\ observed_headway_std r = None
          /\ on_time_pct r = None).
Proof.
  unfold run_loop.
  destruct (run_ticks_ok req offsets rs car_depart_times schedule (Z.to_nat (STEPS req)))
    as (s & E & (_ & Hl) & _ & _ & Hc).
  exists s. split; [exact E|]. split.
  - intros H. unfold compute_kpis. cbn [avg_discharge_headway_s].
    rewrite avg_headway_none; [reflexivity | lia].
  - intros lid r Er Hr. unfold monitor_report in Er.
    rewrite lookup_fmap in Er.
    destruct (monitor_lines (shared s) !! lid) as [stats|] eqn:Es; [|discriminate].
    simpl in Er. injection Er as <-.
    apply line_headway_report_none.
    specialize (Hl _ _ Es). unfold line_ok in Hl.
    unfold line_headway_report in Hr. cbn [rep_arrivals] in Hr. lia.
Qed.

Lemma headway_figures_undefined_witness :
  exists s,
    run_loop twin_request fixed_offsets steady_rng [] twin_schedule = Some s
    /\ avg_discharge_headway_s (compute_kpis twin_request s) = None
    /\ forall r,
         monitor_report (fun q => q) twin_request s !! "A" = Some r ->
         observed_headway_avg r = None
         /\ observed_headway_std r = None
         /\ on_time_pct r = None.
Proof.
  destruct (headway_figures_undefined (fun q => q) twin_request fixed_offsets
              steady_rng [] twin_schedule) as (s & E & Hk & Hl).
  exists s. split; [exact E|].
  vm_compute in E. injection E as <-.
  split.
  - apply Hk. vm_compute. reflexivity.
  - intros r Er. apply (Hl "A" r Er).
    vm_compute in Er. injection Er as <-. vm_compute. reflexivity.
Defined.

(** *** Further facts on the signal plan *)

(** The phase of a signal repeats with the cycle. *)
Theorem ew_state_periodic (req : SimRequest) (offsets : gmap string Z)
    (nid : string) (t k : Z) :
  ew_state req offsets nid (t + k * cycle req) = ew_state req offsets nid t.
Proof.
  unfold ew_state, C.
  replace ((t + k * cycle req + default 0 (offsets !! nid)) mod cycle req)
    with ((t + default 0 (offsets !! nid)) mod cycle req); [reflexivity|].
  destruct (Z.eq_dec (cycle req) 0) as [E | E].
  - rewrite E, Z.mul_0_r, Z.add_0_r. reflexivity.
  - replace (t + k * cycle req + default 0 (offsets !! nid))
      with (t + default 0 (offsets !! nid) + k * cycle req) by lia.
    now rewrite Z.mod_add.
Qed.

(** In fixed mode the offsets are computed without a division, so the plan
    exists for every cycle and speed, and all signals show the same phase at
    every tick. *)
Theorem fixed_mode_in_step (req : SimRequest) :
  mode req = fixed ->
  exists offsets,
    run_offsets req = Some offsets
    /\ forall nid nid' t, ew_state req offsets nid t = ew_state req offsets nid' t.
Proof.
  intros Hm. unfold run_offsets. rewrite Hm. eexists. split; [reflexivity|].
  assert (H0 : forall nid,
             default 0 ((list_to_map [("J1", 0); ("J2", 0); ("J3", 0); ("J4", 0);
                                      ("J5", 0)] : gmap string Z) !! nid) = 0).
  { intros nid. cbn [list_to_map foldr fst snd uncurry].
    repeat (rewrite lookup_insert; case_decide; [reflexivity|]).
    now rewrite lookup_empty. }
  intros nid nid' t. unfold ew_state. now rewrite !H0.
Qed.

Lemma fixed_mode_in_step_witness :
  exists offsets,
    run_offsets scenario_request = Some offsets
    /\ forall nid nid' t,
         ew_state scenario_request offsets nid t
         = ew_state scenario_request offsets nid' t.
Proof. apply (fixed_mode_in_step scenario_request). reflexivity. Defined.

(** *** Stop lines *)

Lemma nearest_node_of_stopline nid line :
  In (nid, line) stoplines -> nearest_node line = nid.
Proof.
  unfold stoplines. simpl.
  intros [H | [H | [H | [H | [H | []]]]]]; injection H as <- <-; reflexivity.
Qed.

Lemma fold_min_le l : forall a b, In b (a :: l) -> (fold_left Py.min l a <= b)%Q.
Proof.
  induction l as [|c l IH]; intros a b Hin; cbn [fold_left].
  - destruct Hin as [<- | []]. lra.
  - assert (Hm : (Py.min a c <= a)%Q /\ (Py.min a c <= c)%Q).
    { unfold Py.min. destruct (Py.ltb c a) eqn:E;
        [apply Py.ltb_lt in E | apply Py.ltb_ge in E]; split; lra. }
    destruct Hin as [<- | [<- | Hin]].
    + eapply Qle_trans; [apply IH; left; reflexivity | apply Hm].
    + eapply Qle_trans; [apply IH; left; reflexivity | apply Hm].
    + apply IH. right. exact Hin.
Qed.

(** The stop line ahead is the nearest of the five lines that lies more
    than 0.1 beyond the vehicle; while the signal of that line is not green
    the vehicle ends the tick at least 4.5 before it, and while it is green
    (or there is no line ahead) the move is not limited.  A line within 0.1
    of the vehicle is not ahead any more. *)
Theorem stop_line_respected (v : vehicle) (x x_try : Q) (green_now : gmap string bool) :
  let v' := stopline_limit v x x_try green_now in
  (forall line, next_stopline_x x = Some line ->
     (exists nid, In (nid, line) stoplines /\ nearest_node line = nid)
     /\ (x + (1 # 10) < line)%Q
     /\ (forall nid' line', In (nid', line') stoplines ->
           (x + (1 # 10) < line')%Q -> (line <= line')%Q)
     /\ (green_now !! nearest_node line <> Some true ->
         (veh_x v' <= line - (45 # 10))%Q /\ (veh_x v' <= x_try)%Q)
     /\ (green_now !! nearest_node line = Some true -> veh_x v' = x_try))
  /\ (next_stopline_x x = None ->
      veh_x v' = x_try
      /\ forall nid line, In (nid, line) stoplines -> (line <= x + (1 # 10))%Q).
Proof.
  cbv zeta. unfold stopline_limit.
  cbn [veh_x set_stopped_at_station set_stopped set_x].
  unfold next_stopline_x.
  destruct (List.filter _ (map snd stoplines)) as [|sx nxt] eqn:E.
  - split; [discriminate|]. intros _. split; [reflexivity|].
    intros nid line Hin.
    destruct (Py.ltb (x + (1 # 10)) line) eqn:El; [|now apply Py.ltb_ge].
    assert (Hf : In line (List.filter (fun sx => Py.ltb (x + (1 # 10)) sx)
                            (map snd stoplines))).
    { apply filter_In. split; [|exact El].
      apply in_map_iff. exists (nid, line). auto. }
    rewrite E in Hf. destruct Hf.
  - split; [|discriminate]. intros line [= <-].
    set (line := fold_left Py.min nxt sx).
    assert (Hin : In line (sx :: nxt)) by apply fold_min_in.
    rewrite <- E in Hin. apply filter_In in Hin as [Hin Hlt].
    apply Py.ltb_lt in Hlt.
    apply in_map_iff in Hin as ([nid l] & Hl & Hin). simpl in Hl. subst l.
    split; [exists nid; split; [exact Hin | now apply nearest_node_of_stopline]|].
    split; [exact Hlt|]. split; [|split].
    + intros nid' line' Hin' Hlt'. apply fold_min_le. rewrite <- E.
      apply filter_In. split; [|now apply Py.ltb_lt].
      apply in_map_iff. exists (nid', line'). auto.
    + intros Hng.
      assert (Eg : default false (green_now !! nearest_node line) = false).
      { destruct (green_now !! nearest_node line) as [[|]|]; [congruence | | ]; reflexivity. }
      rewrite Eg. cbn [negb andb].
      assert (El : Py.ltb x line = true) by (apply Py.ltb_lt; lra).
      rewrite El. unfold Py.min, STOPLINE_BUFFER.
      destruct (Py.ltb (line - (45 # 10)) x_try) eqn:Em;
        [apply Py.ltb_lt in Em | apply Py.ltb_ge in Em]; split; lra.
    + intros Hg. rewrite Hg. reflexivity.
Qed.

Lemma stop_line_respected_witness :
  (veh_x (stopline_limit car_before_line (-650 # 1) (-590 # 1) ∅)
   <= (-600 # 1) - (45 # 10))%Q.
Proof.
  destruct (stop_line_respected car_before_line (-650 # 1) (-590 # 1) ∅) as [H _].
  destruct (H (-600 # 1)%Q) as (_ & _ & _ & Hred & _); [reflexivity|].
  apply Hred. rewrite lookup_empty. discriminate.
Defined.

(** *** Mean headways *)

Lemma np_diff_length ts : length (np_diff ts) = Nat.pred (length ts).
Proof.
  induction ts as [|a [|b ts] IH]; try reflexivity.
  change (np_diff (a :: b :: ts)) with ((b - a) :: np_diff (b :: ts)).
  simpl in *. now rewrite IH.
Qed.

Lemma last_default_irrelevant (c : Z) l : forall d d',
  List.last (c :: l) d = List.last (c :: l) d'.
Proof.
  revert c. induction l as [|e l IH]; intros c d d'; [reflexivity|].
  change (List.last (e :: l) d = List.last (e :: l) d'). apply IH.
Qed.

Lemma np_diff_sum a ts :
  sum_Z (np_diff (a :: ts)) = List.last ts a - a.
Proof.
  revert a. induction ts as [|b ts IH]; intros a; [unfold sum_Z; simpl; lia|].
  change (np_diff (a :: b :: ts)) with ((b - a) :: np_diff (b :: ts)).
  change (sum_Z ((b - a) :: np_diff (b :: ts)))
    with ((b - a) + sum_Z (np_diff (b :: ts))).
  rewrite IH. destruct ts as [|c ts]; [simpl; lia|].
  change (List.last (b :: c :: ts) a) with (List.last (c :: ts) a).
  rewrite (last_default_irrelevant c ts b a). lia.
Qed.

(** The mean discharge headway only depends on the first and the last
    exit: from two exits on it is (last exit - first exit) divided by the
    number of exits minus one. *)
Theorem avg_headway_first_last (first : Z) (rest : list Z) :
  rest <> [] ->
  avg_headway (first :: rest)
  = Some (inject_Z (List.last rest first - first)
          / inject_Z (Z.of_nat (length rest)))%Q.
Proof.
  intros Hne. unfold avg_headway, np_mean.
  destruct rest as [|b rest]; [contradiction|].
  cbn [length Nat.leb]. rewrite np_diff_sum, np_diff_length. reflexivity.
Qed.

Lemma avg_headway_first_last_witness :
  avg_headway [100; 103; 110] = Some (inject_Z 10 / inject_Z 2)%Q.
Proof. apply (avg_headway_first_last 100 [103; 110]). discriminate. Defined.

(** *** Entering and leaving a stop *)

Lemma index_of_fresh vid occ :
  vid ∉ occ -> index_of vid (occ ++ [vid]) = Some (length occ).
Proof.
  intros Hn. unfold index_of.
  assert (E : list_find (fun b => b = vid) (occ ++ [vid]) = Some (length occ, vid)).
  { apply list_find_Some. split; [|split; [reflexivity|]].
    - rewrite lookup_app_r by lia. now rewrite Nat.sub_diag.
    - intros j y Hj Hlt Heq. subst y. apply Hn.
      rewrite lookup_app_l in Hj by exact Hlt.
      eapply list_elem_of_lookup_2; eauto. }
  now rewrite E.
Qed.

Lemma pop_last {A} (l : list A) (a : A) : pop (l ++ [a]) (length l) = Some l.
Proof.
  unfold pop. rewrite length_app. simpl.
  destruct (decide (length l < length l + 1)%nat); [|lia].
  rewrite take_app_length, drop_ge by (rewrite length_app; simpl; lia).
  now rewrite app_nil_r.
Qed.

(** A bus that [update_one] lets into a stop and that later gives its
    berth back leaves the occupant list and the release times as they were
    before it came (its id not being among the occupants already), and the
    other stop untouched.  What stays of its visit: the stop keeps the
    arrival time, so the coincidence window still counts from this bus after
    it has left, the stop's arrival count is one higher, and the monitor of
    the bus's line has one arrival more, with the tick appended to its
    arrival times; the monitors of the other lines are as before. *)
Theorem enter_then_release (req : SimRequest) (v v1 : vehicle) (x x_try : Q)
    (t_int : Z) (green_now : gmap string bool) (w w1 : world) (sx : stop) :
  find (crosses x x_try) bus_stops = Some sx ->
  entry_denied (stops w sx) t_int = false ->
  veh_id v ∉ stop_occupancy (stops w sx) ->
  length (stop_release_time (stops w sx)) = length (stop_occupancy (stops w sx)) ->
  approach req v x x_try t_int green_now w = Some (v1, w1) ->
  exists w' m m',
    release_stop w1 sx (veh_id v1) = Some w'
    /\ stop_occupancy (stops w' sx) = stop_occupancy (stops w sx)
    /\ stop_release_time (stops w' sx) = stop_release_time (stops w sx)
    /\ last_arrival_time (stops w' sx) = Some t_int
    /\ mon_arrivals (stops w' sx) = S (mon_arrivals (stops w sx))
    /\ (forall sx', sx' <> sx -> stops w' sx' = stops w sx')
    /\ monitor_lines w !! line_key v = Some m
    /\ monitor_lines w' !! line_key v = Some m'
    /\ arrivals m' = arrivals m + 1
    /\ arr_times m' = arr_times m ++ [t_int]
    /\ (forall lid, lid <> line_key v ->
          monitor_lines w' !! lid = monitor_lines w !! lid).
Proof.
  intros Hf Hd Hn Hlen. unfold approach. rewrite Hf, Hd.
  change (line_key (set_queueing false _)) with (line_key v).
  change (veh_id (set_at_stop _ _)) with (veh_id v).
  unfold count_arrival. cbn [monitor_lines set_stop].
  destruct (monitor_lines w !! line_key v) as [m|] eqn:Em; [|discriminate].
  cbn [mbind option_bind]. intros [= <- <-].
  change (veh_id (set_queueing false _)) with (veh_id v).
  unfold release_stop. cbn [stops].
  destruct (decide (sx = sx)) as [_|]; [|contradiction].
  cbn [enter_stop stop_occupancy stop_release_time].
  rewrite (index_of_fresh _ _ Hn), pop_last, <- Hlen, pop_last.
  cbn [mbind option_bind]. eexists _, m, _. split; [reflexivity|].
  cbn [set_stop stops monitor_lines].
  destruct (decide (sx = sx)) as [_|]; [|contradiction].
  cbn [stop_occupancy stop_release_time last_arrival_time mon_arrivals].
  split; [reflexivity|]. split; [reflexivity|]. split; [reflexivity|].
  split; [reflexivity|].
  split; [intros sx' Hne; destruct (decide (sx' = sx)); [contradiction | reflexivity]|].
  split; [reflexivity|].
  split; [apply lookup_insert_eq|].
  split; [reflexivity|]. split; [reflexivity|].
  intros lid Hne. now rewrite lookup_insert_ne by congruence.
Qed.

Lemma enter_then_release_witness :
  exists v1 w1 w',
    approach twin_request bus_before_stop (-460 # 1) (-450 # 1) 43 ∅
             (initial_world twin_request) = Some (v1, w1)
    /\ release_stop w1 S1 (veh_id v1) = Some w'
    /\ stop_occupancy (stops w' S1) = []
    /\ last_arrival_time (stops w' S1) = Some 43
    /\ arr_times <$> monitor_lines w' !! "B" = Some [43].
Proof.
  destruct (approach twin_request bus_before_stop (-460 # 1) (-450 # 1) 43 ∅
              (initial_world twin_request)) as [[v1 w1]|] eqn:E;
    [|vm_compute in E; discriminate].
  destruct (enter_then_release twin_request bus_before_stop v1 (-460 # 1) (-450 # 1)
              43 ∅ (initial_world twin_request) w1 S1)
    as (w' & m & m' & Er & Ho & _ & Hl & _ & _ & Em & Em' & _ & Ha & _).
  - reflexivity.
  - reflexivity.
  - simpl. apply not_elem_of_nil.
  - reflexivity.
  - exact E.
  - exists v1, w1, w'. split; [reflexivity|]. split; [exact Er|].
    split; [exact Ho|]. split; [exact Hl|].
    change "B" with (line_key bus_before_stop). rewrite Em'. cbn. rewrite Ha.
    f_equal. assert (Hm : Some m = Some (initial_line_monitor
      {| line_id := "B"; headway_sec := 240; jitter_sec := 30; dwell_sec := 25;
         phase_offset_sec := 0 |})) by (rewrite <- Em; reflexivity).
    injection Hm as ->. reflexivity.
Defined.

(** The three ways [approach] ends. *)
Lemma approach_cases req u x x_try t_int green_now w v' w' :
  approach req u x x_try t_int green_now w = Some (v', w') ->
  veh_served_stops v' = veh_served_stops u
  /\ ((exists sx, crosses x x_try sx = true
                  /\ veh_x v' = (stop_x sx - PRESTOP_HOLD)%Q
                  /\ stops w' = stops w)
      \/ (exists sx, crosses x x_try sx = true
                     /\ veh_x v' = (stop_x sx - (1 # 10))%Q
                     /\ forall s, s <> sx -> stops w' s = stops w s)
      \/ (v' = stopline_limit u x x_try green_now /\ w' = w)).
Proof.
  unfold approach.
  destruct (find (crosses x x_try) bus_stops) as [sx|] eqn:Ef.
  - apply find_some in Ef as [_ Hc].
    destruct (entry_denied (stops w sx) t_int).
    + unfold count_queue_hold.
      destruct (monitor_lines w !! _) as [m|]; [|discriminate].
      cbn [mbind option_bind]. intros [= <- <-].
      split; [reflexivity|]. left. exists sx. auto.
    + cbn zeta. unfold count_arrival.
      destruct (monitor_lines _ !! _) as [m|]; [|discriminate].
      cbn [mbind option_bind]. intros [= <- <-].
      split; [reflexivity|]. right. left. exists sx.
      split; [exact Hc|]. split; [reflexivity|].
      intros s Hne. cbn [stops set_stop].
      destruct (decide (s = sx)); [contradiction | reflexivity].
  - intros [= <- <-]. split; [reflexivity|]. right. right. auto.
Qed.

(** [release_stop] takes out the first entry with the id of the bus, and
    the release time at the same index; a bus that is not among the
    occupants changes nothing. *)
Theorem release_frees_first_berth (w w1 : world) (sx0 : stop) (vid : string) :
  release_stop w sx0 vid = Some w1 ->
  (forall s, s <> sx0 -> stops w1 s = stops w s)
  /\ monitor_lines w1 = monitor_lines w
  /\ last_arrival_time (stops w1 sx0) = last_arrival_time (stops w sx0)
  /\ (vid ∉ stop_occupancy (stops w sx0) -> w1 = w)
  /\ (vid ∈ stop_occupancy (stops w sx0) ->
      exists i,
        stop_occupancy (stops w sx0) !! i = Some vid
        /\ (forall j, (j < i)%nat -> stop_occupancy (stops w sx0) !! j <> Some vid)
        /\ stop_occupancy (stops w1 sx0)
           = take i (stop_occupancy (stops w sx0))
             ++ drop (S i) (stop_occupancy (stops w sx0))
        /\ stop_release_time (stops w1 sx0)
           = take i (stop_release_time (stops w sx0))
             ++ drop (S i) (stop_release_time (stops w sx0))).
Proof.
  unfold release_stop, index_of.
  destruct (list_find (fun b => b = vid) (stop_occupancy (stops w sx0)))
    as [[i b]|] eqn:Ef; cbn [fmap option_fmap option_map fst].
  - apply list_find_Some in Ef as (Hi & -> & Hprev).
    unfold pop.
    destruct (decide (i < length (stop_occupancy (stops w sx0)))%nat); [|discriminate].
    destruct (decide (i < length (stop_release_time (stops w sx0)))%nat); [|discriminate].
    cbn [mbind option_bind]. intros [= <-]. cbn [set_stop stops monitor_lines].
    split; [intros s Hne; destruct (decide (s = sx0)); [contradiction | reflexivity]|].
    split; [reflexivity|].
    destruct (decide (sx0 = sx0)); [|contradiction]. cbn.
    split; [reflexivity|]. split.
    + intros Hn. exfalso. apply Hn. eapply list_elem_of_lookup_2; eauto.
    + intros _. exists i. split; [exact Hi|]. split; [|auto].
      intros j Hj Hl. exact (Hprev j vid Hl Hj eq_refl).
  - intros [= <-]. split; [reflexivity|]. split; [reflexivity|].
    split; [reflexivity|]. split; [reflexivity|].
    intros Hin. exfalso. apply list_find_None in Ef.
    rewrite Forall_forall in Ef. exact (Ef vid Hin eq_refl).
Qed.

Lemma release_frees_first_berth_witness :
  exists w1,
    release_stop world_after_arrival S1 "bus_A_0" = Some w1
    /\ stop_occupancy (stops w1 S1) = [].
Proof.
  destruct (release_stop world_after_arrival S1 "bus_A_0") as [w1|] eqn:E;
    [|vm_compute in E; discriminate].
  exists w1. split; [reflexivity|].
  destruct (release_frees_first_berth world_after_arrival w1 S1 "bus_A_0" E)
    as (_ & _ & _ & _ & H).
  destruct H as (i & Hi & _ & Ho & _).
  - simpl. apply list_elem_of_singleton. reflexivity.
  - destruct i as [|i]; [rewrite Ho; reflexivity | discriminate Hi].
Defined.

(** A dwelling bus stays where it is, and nothing else changes, at every
    tick before [dwell_until].  At the first update from [dwell_until] on it
    gives its berth back, the stop joins its served stops, and with a
    non-negative speed it ends the tick beyond that stop, which it therefore
    cannot enter again. *)
Theorem dwell_until_release (req : SimRequest) (v : vehicle) (t_int dwell_until : Z)
    (sx0 : stop) (green_now : gmap string bool) (w : world) :
  veh_kind v = bus -> veh_dwell_until v = Some dwell_until ->
  veh_at_stop v = Some sx0 ->
  (t_int < dwell_until ->
   exists v', update_one req v t_int green_now w = Some (v', w)
              /\ veh_x v' = veh_x v /\ veh_stopped v' = true
              /\ veh_stopped_at_station v' = true
              /\ veh_dwell_until v' = Some dwell_until)
  /\ (dwell_until <= t_int -> (0 <= veh_v v)%Q -> forall v' w',
      update_one req v t_int green_now w = Some (v', w') ->
      (stop_x sx0 < veh_x v')%Q
      /\ veh_served_stops v' = veh_served_stops v ++ [sx0]
      /\ exists w1, release_stop w sx0 (veh_id v) = Some w1
                    /\ stops w' sx0 = stops w1 sx0).
Proof.
  intros Hk Hd Ha. unfold update_one. rewrite Hk, Hd, Ha. split.
  - intros Hlt. apply Z.ltb_lt in Hlt. rewrite Hlt.
    eexists. split; [reflexivity|]. simpl. auto.
  - intros Hge Hvel v' w'. apply Z.ltb_ge in Hge. rewrite Hge.
    destruct (release_stop w sx0 (veh_id v)) as [w1|]; [|discriminate].
    cbn [mbind option_bind]. intros E.
    set (x := Py.max (veh_x v) (stop_x sx0 + (2 # 10))) in *.
    set (x_try := Py.max (veh_x v + veh_v v) (stop_x sx0 + (2 # 10))) in *.
    assert (Hx : (stop_x sx0 + (2 # 10) <= x)%Q).
    { unfold x, Py.max. destruct (Py.ltb (veh_x v) (stop_x sx0 + (2 # 10))) eqn:E';
        [lra | apply Py.ltb_ge in E'; lra]. }
    assert (Hxt : (x <= x_try)%Q) by (apply max_mono; lra).
    apply approach_cases in E as (Hserved & Hcases).
    split; [|split; [exact Hserved|]].
    + destruct Hcases as [(sx & Hc & Hpos & _) | [(sx & Hc & Hpos & _) | (-> & _)]].
      * rewrite Hpos. unfold crosses in Hc. apply andb_true_iff in Hc as [Hc _].
        apply Py.ltb_lt in Hc. unfold PRESTOP_HOLD.
        destruct sx0, sx; unfold stop_x in *; lra.
      * rewrite Hpos. unfold crosses in Hc. apply andb_true_iff in Hc as [Hc _].
        apply Py.ltb_lt in Hc.
        destruct sx0, sx; unfold stop_x in *; lra.
      * destruct (stopline_limit_x
                    (set_x x (set_at_stop None (set_stopped_at_station false
                       (set_dwell_until None
                          (set_served_stops (veh_served_stops v ++ [sx0]) v)))))
                    x x_try green_now Hxt) as [H | (line & Hin & _ & Hlt & Heq)].
        -- lra.
        -- rewrite Heq. unfold STOPLINE_BUFFER.
           unfold stoplines in Hin. simpl in Hin.
           destruct Hin as [<- | [<- | [<- | [<- | [<- | []]]]]];
             destruct sx0; unfold stop_x in *; lra.
    + exists w1. split; [reflexivity|].
      destruct Hcases as [(sx & _ & _ & Hs) | [(sx & Hc & _ & Hs) | (_ & ->)]].
      * now rewrite Hs.
      * apply Hs. intros ->. unfold crosses in Hc.
        apply andb_true_iff in Hc as [Hc _]. apply Py.ltb_lt in Hc. lra.
      * reflexivity.
Qed.

Lemma dwell_until_release_witness :
  (exists v',
     update_one twin_request
       (set_at_stop (Some S1) (set_dwell_until (Some 68) bus_before_stop))
       50 ∅ world_after_arrival = Some (v', world_after_arrival)
     /\ veh_x v' = (-460 # 1)%Q)
  /\ exists v' w',
       update_one twin_request
         (set_at_stop (Some S1) (set_dwell_until (Some 68) bus_before_stop))
         68 ∅ world_after_arrival = Some (v', w')
       /\ (stop_x S1 < veh_x v')%Q.
Proof.
  destruct (dwell_until_release twin_request
              (set_at_stop (Some S1) (set_dwell_until (Some 68) bus_before_stop))
              50 68 S1 ∅ world_after_arrival eq_refl eq_refl eq_refl) as [H _].
  destruct (dwell_until_release twin_request
              (set_at_stop (Some S1) (set_dwell_until (Some 68) bus_before_stop))
              68 68 S1 ∅ world_after_arrival eq_refl eq_refl eq_refl) as [_ H'].
  split.
  - destruct H as (v' & E & Hx & _); [lia|].
    exists v'. split; [exact E | exact Hx].
  - destruct (update_one twin_request
                (set_at_stop (Some S1) (set_dwell_until (Some 68) bus_before_stop))
                68 ∅ world_after_arrival) as [[v' w']|] eqn:E;
      [|vm_compute in E; discriminate].
    exists v', w'. split; [reflexivity|].
    destruct (H' ltac:(lia) ltac:(vm_compute; discriminate) v' w' eq_refl) as [Hx _].
    exact Hx.
Defined.

(** *** The two offset computations *)

Lemma node_key_inj j j' : node_key j = node_key j' -> j = j'.
Proof.
  unfold node_key. intros H. simpl in H. injection H as H.
  apply pretty_nat_inj in H. lia.
Qed.

Lemma offset_loops_agree v cycle_s ds : forall cum acc m i,
  length acc = S i -> keyed_like m acc ->
  match Offsets.offsets_loop v cycle_s cum acc ds,
        simple_offsets_loop v cycle_s i cum m ds with
  | Some l, Some m' => keyed_like m' l
  | None, None => True
  | _, _ => False
  end.
Proof.
  induction ds as [|d ds IH]; intros cum acc m i Hlen Hk; simpl; [exact Hk|].
  destruct (Py.div d v) as [q|]; simpl; [|exact I].
  destruct (Py.fmod (cum + q) (inject_Z cycle_s)) as [r|]; simpl; [|exact I].
  apply IH.
  - rewrite length_app. simpl. lia.
  - destruct Hk as [Hk1 Hk2].
    replace (i + 2)%nat with (S i + 1)%nat by lia. fold (node_key (S i)).
    split.
    + intros j. destruct (decide (j = S i)) as [->|Hne].
      * rewrite lookup_insert_eq, lookup_app_r by lia.
        rewrite Hlen, Nat.sub_diag. reflexivity.
      * rewrite lookup_insert_ne by (intros H; apply node_key_inj in H; lia).
        rewrite Hk1. destruct (decide (j < S i)%nat).
        -- now rewrite lookup_app_l by lia.
        -- rewrite !lookup_ge_None_2; [reflexivity | |];
             rewrite ?length_app; simpl; lia.
    + intros k Hs. destruct (decide (k = node_key (S i))) as [->|Hne]; [eauto|].
      rewrite lookup_insert_ne in Hs by congruence. now apply Hk2.
Qed.

Lemma offsets_keyed (distances : list Q) (cycle_s : Z) (speed_kmh : Q) :
  match Offsets.compute_offsets distances cycle_s speed_kmh,
        simple_compute_offsets distances cycle_s speed_kmh with
  | Some l, Some m => keyed_like m l
  | None, None => True
  | _, _ => False
  end.
Proof.
  assert (H0 : keyed_like {["J1" := 0]} [0]).
  { split.
    - intros [|j]; [reflexivity|].
      rewrite lookup_singleton_ne; [reflexivity|].
      intros H. change "J1" with (node_key 0) in H. apply node_key_inj in H. lia.
    - intros k [o Ho]. apply lookup_singleton_Some in Ho as [<- _]. now exists 0%nat. }
  unfold Offsets.compute_offsets, simple_compute_offsets.
  destruct distances as [|d ds]; [exact H0|].
  exact (offset_loops_agree (speed_kmh / (36 # 10)) cycle_s (d :: ds)
           0%Q [0] {["J1" := 0]} 0 eq_refl H0).
Qed.

(** [simple_compute_offsets] of the service and [compute_offsets] of the
    planner compute the same offsets: one raises exactly when the other
    does (for at least one distance), and otherwise the dictionary of the
    first holds, under the names J1, J2, ..., the entries of the list of the
    second and nothing else. *)
Theorem offset_computations_agree (distances : list Q) (cycle_s : Z) (speed_kmh : Q) :
  match Offsets.compute_offsets distances cycle_s speed_kmh,
        simple_compute_offsets distances cycle_s speed_kmh with
  | Some l, Some m =>
      (forall j, m !! ("J" +:+ pretty (j + 1)%nat) = l !! j)
      /\ (forall k, is_Some (m !! k) ->
            exists j, (j < length l)%nat /\ k = "J" +:+ pretty (j + 1)%nat)
  | None, None => True
  | _, _ => False
  end.
Proof.
  pose proof (offsets_keyed distances cycle_s speed_kmh) as H.
  destruct (Offsets.compute_offsets distances cycle_s speed_kmh) as [l|];
    destruct (simple_compute_offsets distances cycle_s speed_kmh) as [m|];
    try exact H.
  destruct H as [H1 H2]. split; [exact H1|].
  intros k Hs. destruct (H2 k Hs) as (j & ->). exists j. split; [|reflexivity].
  change ("J" +:+ pretty (j + 1)%nat) with (node_key j) in Hs.
  rewrite H1 in Hs. now apply lookup_lt_is_Some.
Qed.

(** On every request with a positive cycle and speed the signal plan has
    offsets: the first node has offset 0 and every offset lies in
    [[0, cycle)], in the fixed mode as in the green-wave modes. *)
Theorem run_offsets_in_range (req : SimRequest) :
  0 < cycle req -> (0 < v_prog_kmh req)%Q ->
  exists offsets,
    run_offsets req = Some offsets
    /\ offsets !! "J1" = Some 0
    /\ forall nid o, offsets !! nid = Some o -> 0 <= o < cycle req.
Proof.
  intros Hc Hv. unfold run_offsets.
  destruct (mode req).
  - eexists. split; [reflexivity|]. split; [reflexivity|].
    intros nid o. cbn [list_to_map foldr fst snd uncurry].
    repeat (rewrite lookup_insert; case_decide; [intros [= <-]; lia|]).
    rewrite lookup_empty. discriminate.
  - pose proof (offsets_keyed [300 # 1; 300 # 1; 300 # 1; 300 # 1]%Q
                  (C req) (v_prog_kmh req)) as Ha.
    destruct (Offsets.compute_offsets_total [300 # 1; 300 # 1; 300 # 1; 300 # 1]%Q
                (C req) (v_prog_kmh req) Hc Hv) as (l & El & _ & Hh & HF & _).
    rewrite El in Ha.
    destruct (simple_compute_offsets _ (C req) (v_prog_kmh req)) as [m|]; [|contradiction].
    destruct Ha as [H1 H2]. exists m. split; [reflexivity|]. split.
    + change "J1" with (node_key 0). rewrite H1.
      destruct l; [discriminate | simpl in *; congruence].
    + intros nid o Ho. destruct (H2 nid (mk_is_Some _ _ Ho)) as (j & ->).
      rewrite H1 in Ho. rewrite Forall_forall in HF. apply HF.
      eapply list_elem_of_lookup_2; eauto.
  - pose proof (offsets_keyed [300 # 1; 300 # 1; 300 # 1; 300 # 1]%Q
                  (C req) (v_prog_kmh req)) as Ha.
    destruct (Offsets.compute_offsets_total [300 # 1; 300 # 1; 300 # 1; 300 # 1]%Q
                (C req) (v_prog_kmh req) Hc Hv) as (l & El & _ & Hh & HF & _).
    rewrite El in Ha.
    destruct (simple_compute_offsets _ (C req) (v_prog_kmh req)) as [m|]; [|contradiction].
    destruct Ha as [H1 H2]. exists m. split; [reflexivity|]. split.
    + change "J1" with (node_key 0). rewrite H1.
      destruct l; [discriminate | simpl in *; congruence].
    + intros nid o Ho. destruct (H2 nid (mk_is_Some _ _ Ho)) as (j & ->).
      rewrite H1 in Ho. rewrite Forall_forall in HF. apply HF.
      eapply list_elem_of_lookup_2; eauto.
Qed.

Lemma run_offsets_in_range_witness :
  exists offsets,
    run_offsets glide_request = Some offsets
    /\ offsets !! "J1" = Some 0
    /\ forall nid o, offsets !! nid = Some o -> 0 <= o < cycle glide_request.
Proof.
  apply (run_offsets_in_range glide_request).
  - simpl. lia.
  - reflexivity.
Defined.

(** *** What the loop keeps account of *)

Lemma cars_in_app vs1 vs2 : cars_in (vs1 ++ vs2) = (cars_in vs1 + cars_in vs2)%nat.
Proof. unfold cars_in. now rewrite List.filter_app, length_app. Qed.

Lemma approach_keeps req u x x_try t_int green_now w v' w' :
  approach req u x x_try t_int green_now w = Some (v', w') ->
  veh_stops_count v' = veh_stops_count u /\ veh_kind v' = veh_kind u
  /\ ((forall sx, no_queue (stops w sx)) -> forall sx, no_queue (stops w' sx)).
Proof.
  unfold approach.
  destruct (find (crosses x x_try) bus_stops) as [sx|].
  - destruct (entry_denied (stops w sx) t_int) eqn:Ed.
    + unfold count_queue_hold.
      destruct (monitor_lines w !! _) as [m|]; [|discriminate].
      cbn [mbind option_bind]. intros [= <- <-]. auto.
    + cbn zeta. unfold count_arrival.
      destruct (monitor_lines _ !! _) as [m|]; [|discriminate].
      cbn [mbind option_bind]. intros [= <- <-].
      split; [reflexivity|]. split; [reflexivity|].
      intros Hq s. cbn [stops set_stop].
      destruct (decide (s = sx)) as [->|]; [|apply Hq].
      apply entry_allowed_room in Ed as [Hroom _]. unfold STOP_BERTHS in Hroom.
      destruct (Hq sx) as [_ Hmax].
      unfold no_queue, enter_stop. cbn [mon_queue_now mon_queue_max].
      rewrite length_app, Hmax. unfold STOP_BERTHS. simpl. lia.
  - intros [= <- <-]. auto.
Qed.

Lemma release_stop_keeps w sx0 vid w1 :
  release_stop w sx0 vid = Some w1 ->
  (forall sx, no_queue (stops w sx)) -> forall sx, no_queue (stops w1 sx).
Proof.
  unfold release_stop.
  destruct (index_of vid _) as [i|]; [|now intros [= <-]].
  destruct (pop (stop_occupancy _) i) as [occ|]; [|discriminate].
  destruct (pop (stop_release_time _) i) as [rel|]; [|discriminate].
  cbn [mbind option_bind]. intros [= <-] Hq sx. cbn [stops set_stop].
  destruct (decide (sx = sx0)) as [->|]; [|apply Hq]. exact (Hq sx0).
Qed.

Lemma update_one_keeps req v t_int green_now w v' w' :
  update_one req v t_int green_now w = Some (v', w') ->
  veh_stops_count v' = veh_stops_count v /\ veh_kind v' = veh_kind v
  /\ ((forall sx, no_queue (stops w sx)) -> forall sx, no_queue (stops w' sx)).
Proof.
  unfold update_one. destruct (veh_kind v) eqn:Ek.
  - intros [= <- <-]. simpl. auto.
  - destruct (veh_dwell_until v) as [du|].
    + destruct (t_int <? du); [intros [= <- <-]; simpl; auto|].
      destruct (veh_at_stop v) as [sx0|].
      * destruct (release_stop w sx0 (veh_id v)) as [w1|] eqn:Er; [|discriminate].
        cbn [mbind option_bind]. intros E.
        apply approach_keeps in E as (H1 & H2 & H3). simpl in H1, H2.
        split; [exact H1|]. split; [congruence|].
        intros Hq. apply H3. eapply release_stop_keeps; eauto.
      * intros E. apply approach_keeps in E as (H1 & H2 & H3).
        split; [exact H1|]. split; [congruence | exact H3].
    + intros E. apply approach_keeps in E as (H1 & H2 & H3).
      split; [exact H1|]. split; [congruence | exact H3].
Qed.

Lemma count_second_keeps v :
  veh_stops_count (count_second v) = veh_stops_count v
  /\ veh_kind (count_second v) = veh_kind v.
Proof.
  unfold count_second.
  destruct (veh_kind v) eqn:Ek, (veh_stopped v), (veh_stopped_at_station v),
    (veh_queueing v); simpl; rewrite ?Ek; auto.
Qed.

Lemma cars_in_cons v vs :
  cars_in (v :: vs) = ((if is_bus v then 0 else 1) + cars_in vs)%nat.
Proof. unfold cars_in. simpl. destruct (is_bus v); reflexivity. Qed.

Lemma leave_accounts t nv todo s w :
  no_stops nv -> Forall no_stops todo -> Forall no_stops (vehicles s) ->
  car_zero_stop s = car_exited s -> car_stops_sum s = 0 ->
  car_exited s + Z.of_nat (cars_in (vehicles s)) + Z.of_nat (cars_in (nv :: todo))
  = Z.of_nat (car_i s) ->
  (forall sx, no_queue (stops w sx)) ->
  accounts todo (leave t nv (with_vehicles (vehicles s) w s))
  /\ car_i (leave t nv (with_vehicles (vehicles s) w s)) = car_i s.
Proof.
  intros Hnv Htodo Hvs Hz Hsum Hcons Hq.
  rewrite cars_in_cons in Hcons. unfold is_bus in Hcons.
  unfold accounts, leave, with_vehicles. unfold no_stops in Hnv.
  destruct (veh_kind nv);
    cbn [vehicles shared car_i car_exited car_zero_stop car_stops_sum].
  - rewrite Hnv. simpl. split; [|reflexivity].
    repeat (split; [first [assumption | lia]|]). exact Hq.
  - split; [|reflexivity].
    repeat (split; [first [assumption | lia]|]). exact Hq.
Qed.

Lemma stay_accounts nv todo s w :
  no_stops nv -> Forall no_stops todo -> Forall no_stops (vehicles s) ->
  car_zero_stop s = car_exited s -> car_stops_sum s = 0 ->
  car_exited s + Z.of_nat (cars_in (vehicles s)) + Z.of_nat (cars_in (nv :: todo))
  = Z.of_nat (car_i s) ->
  (forall sx, no_queue (stops w sx)) ->
  accounts todo
    (with_vehicles (vehicles (with_vehicles (vehicles s) w s) ++ [nv]) w
       (with_vehicles (vehicles s) w s)).
Proof.
  intros Hnv Htodo Hvs Hz Hsum Hcons Hq.
  rewrite cars_in_cons in Hcons.
  unfold accounts, with_vehicles.
  cbn [vehicles shared car_i car_exited car_zero_stop car_stops_sum].
  rewrite cars_in_app, (cars_in_cons nv []). unfold cars_in at 2. simpl.
  split; [exact Htodo|]. split.
  - apply Forall_app. split; [exact Hvs|]. constructor; [exact Hnv | constructor].
  - repeat (split; [first [assumption | destruct (is_bus nv); lia]|]). exact Hq.
Qed.

Lemma update_all_accounts req t green_now todo : forall s s',
  update_all req t green_now todo s = Some s' ->
  accounts todo s -> accounts [] s' /\ car_i s' = car_i s.
Proof.
  induction todo as [|v todo IH]; intros s s' E Ha.
  - simpl in E. injection E as <-. auto.
  - cbn [update_all] in E.
    destruct (update_one req v t green_now (shared s)) as [[nv w]|] eqn:Eu;
      [|discriminate].
    cbn [mbind option_bind] in E.
    apply update_one_keeps in Eu as (Hsc & Hkind & Hq).
    destruct (count_second_keeps nv) as [Hsc' Hkind'].
    destruct Ha as (Htodo & Hvs & Hz & Hsum & Hcons & Hqueue).
    inversion Htodo as [|? ? Hv Hrest]; subst.
    assert (Hnv : no_stops (count_second nv)).
    { unfold no_stops in *. congruence. }
    assert (Hcons' : car_exited s + Z.of_nat (cars_in (vehicles s))
                     + Z.of_nat (cars_in (count_second nv :: todo))
                     = Z.of_nat (car_i s)).
    { rewrite cars_in_cons in Hcons |- *. unfold is_bus in *.
      rewrite Hkind', Hkind. exact Hcons. }
    specialize (Hq Hqueue).
    destruct (Py.ltb (X_MAX + (30 # 1)) (veh_x (count_second nv))).
    + destruct (leave_accounts t (count_second nv) todo s w Hnv Hrest Hvs Hz Hsum Hcons' Hq)
        as [Hacc Hci].
      destruct (IH _ _ E Hacc) as [H1 H2]. split; [exact H1 | congruence].
    + pose proof (stay_accounts (count_second nv) todo s w Hnv Hrest Hvs Hz Hsum Hcons' Hq)
        as Hacc.
      destruct (IH _ _ E Hacc) as [H1 H2]. split; [exact H1 | exact H2].
Qed.

Lemma spawn_cars_accounts req rs t pending : forall ci n vs,
  Forall no_stops vs ->
  let r := spawn_cars req rs t pending ci n vs in
  Forall no_stops r.1.1
  /\ (cars_in r.1.1 + ci = cars_in vs + r.1.2)%nat
  /\ (ci <= r.1.2 <= ci + length pending)%nat.
Proof.
  induction pending as [|dep pending IH]; intros ci n vs Hvs; cbn [spawn_cars].
  - cbn. repeat split; auto; lia.
  - destruct (Py.ltb dep (inject_Z t + 1)); [|cbn; repeat split; auto; lia].
    destruct (IH (S ci) (S (S n)) (vs ++ [new_car req rs n ci t (Py.max 0 (dep - inject_Z t))]))
      as (H1 & H2 & H3).
    { apply Forall_app. split; [exact Hvs|]. constructor; [reflexivity | constructor]. }
    cbv zeta in *. split; [exact H1|].
    rewrite cars_in_app in H2. unfold cars_in at 3 in H2. simpl in H2, H3 |- *.
    split; lia.
Qed.

Lemma spawn_line_accounts req L t pending : forall idx vs,
  Forall no_stops vs ->
  Forall no_stops (spawn_line req L t pending idx vs).1
  /\ cars_in (spawn_line req L t pending idx vs).1 = cars_in vs.
Proof.
  induction pending as [|dep pending IH]; intros idx vs Hvs; cbn [spawn_line].
  - auto.
  - destruct (Py.ltb dep (inject_Z t + 1)); [|auto].
    destruct (IH (S idx) (vs ++ [new_bus req L idx t (Py.max 0 (dep - inject_Z t))]))
      as (H1 & H2).
    { apply Forall_app. split; [exact Hvs|]. constructor; [reflexivity | constructor]. }
    split; [exact H1|]. rewrite H2, cars_in_app. unfold cars_in at 2. simpl. lia.
Qed.

Lemma spawn_buses_accounts req schedule t ls : forall index vs,
  Forall no_stops vs ->
  Forall no_stops (spawn_buses req schedule t ls index vs).1
  /\ cars_in (spawn_buses req schedule t ls index vs).1 = cars_in vs.
Proof.
  induction ls as [|L ls IH]; intros index vs Hvs; cbn [spawn_buses]; [auto|].
  pose proof (spawn_line_accounts req L t
                (drop (default 0%nat (index !! line_id L)) (schedule (line_id L)))
                (default 0%nat (index !! line_id L)) vs Hvs) as [H1 H2].
  destruct (spawn_line req L t _ _ vs) as [vs' idx']. cbn [fst] in H1, H2.
  destruct (IH (<[line_id L := idx']> index) vs' H1) as [H3 H4].
  split; [exact H3 | congruence].
Qed.

Lemma filter_cars_of_buses vs :
  List.filter (fun v => negb (is_bus v)) (List.filter is_bus vs) = [].
Proof.
  induction vs as [|v vs IH]; [reflexivity|]. simpl.
  destruct (is_bus v) eqn:E; [simpl; rewrite E; exact IH | exact IH].
Qed.

Lemma filter_idem {A} (f : A -> bool) l :
  List.filter f (List.filter f l) = List.filter f l.
Proof.
  induction l as [|a l IH]; [reflexivity|]. simpl.
  destruct (f a) eqn:E; [simpl; rewrite E, IH; reflexivity | exact IH].
Qed.

Lemma buses_first_accounts vs :
  Forall no_stops vs ->
  Forall no_stops (buses_first vs) /\ cars_in (buses_first vs) = cars_in vs.
Proof.
  intros H. unfold buses_first. split.
  - apply Forall_app.
    split; apply Forall_forall; intros v Hv;
      apply list_elem_of_In, filter_In in Hv as [Hv _];
      rewrite Forall_forall in H; apply H, list_elem_of_In, Hv.
  - unfold cars_in. now rewrite List.filter_app, filter_cars_of_buses, filter_idem.
Qed.

Lemma tick_accounts req offsets rs car_depart_times schedule t s s' :
  tick req offsets rs car_depart_times schedule t s = Some s' ->
  accounts [] s -> (car_i s <= length car_depart_times)%nat ->
  accounts [] s' /\ (car_i s' <= length car_depart_times)%nat.
Proof.
  unfold tick. intros E (_ & Hvs & Hz & Hsum & Hcons & Hq) Hci.
  pose proof (spawn_cars_accounts req rs t (drop (car_i s) car_depart_times)
                (car_i s) (n_draws s) (vehicles s) Hvs) as (H1 & H2 & H3).
  cbv zeta in H1, H2, H3.
  destruct (spawn_cars req rs t _ _ _ (vehicles s)) as [[vs1 ci] n].
  cbn [fst snd] in H1, H2, H3. rewrite length_drop in H3.
  pose proof (spawn_buses_accounts req schedule t (lines req) (bus_spawn_index s) vs1 H1)
    as [H4 H5].
  destruct (spawn_buses req schedule t (lines req) (bus_spawn_index s) vs1) as [vs2 index].
  cbn [fst] in H4, H5.
  destruct (buses_first_accounts vs2 H4) as [H6 H7].
  apply update_all_accounts in E.
  - destruct E as [Ha Hc]. split; [exact Ha|]. rewrite Hc. cbn [car_i]. lia.
  - unfold accounts. cbn [vehicles shared car_i car_exited car_zero_stop car_stops_sum].
    split; [exact H6|]. split; [constructor|].
    unfold cars_in at 1. simpl. unfold cars_in at 2 in Hcons. simpl in Hcons.
    repeat (split; [first [assumption | lia]|]). exact Hq.
Qed.

Lemma run_ticks_accounts req offsets rs car_depart_times schedule n : forall s,
  run_ticks req offsets rs car_depart_times schedule n = Some s ->
  accounts [] s /\ (car_i s <= length car_depart_times)%nat.
Proof.
  induction n as [|n IH]; intros s; cbn [run_ticks].
  - intros [= <-]. split; [|simpl; lia].
    unfold accounts, initial_state, initial_world.
    cbn [vehicles shared car_i car_exited car_zero_stop car_stops_sum stops].
    split; [constructor|]. split; [constructor|].
    split; [reflexivity|]. split; [reflexivity|]. split; [reflexivity|].
    intros sx. split; reflexivity.
  - destruct (run_ticks req offsets rs car_depart_times schedule n) as [s0|];
      [|discriminate].
    cbn [mbind option_bind]. intros E.
    destruct (IH s0 eq_refl) as [Ha Hc].
    eapply tick_accounts; eauto.
Qed.

(** No car is lost or made up: at every tick of every run the cars that
    have left the corridor and the cars still in it add up to the cars
    spawned so far, and no more cars are spawned than there are departure
    times. *)
Theorem cars_conserved (req : SimRequest) (offsets : gmap string Z) (rs : rng)
    (car_depart_times : list Q) (schedule : string -> list Q) (n : nat) :
  exists s,
    run_ticks req offsets rs car_depart_times schedule n = Some s
    /\ car_exited s + Z.of_nat (cars_in (vehicles s)) = Z.of_nat (car_i s)
    /\ (car_i s <= length car_depart_times)%nat.
Proof.
  destruct (run_ticks_ok req offsets rs car_depart_times schedule n) as (s & E & _).
  exists s. split; [exact E|].
  destruct (run_ticks_accounts _ _ _ _ _ _ _ E) as ((_ & _ & _ & _ & Hcons & _) & Hc).
  unfold cars_in at 2 in Hcons. simpl in Hcons. split; [lia | exact Hc].
Qed.

(** The stop monitor never reports a queue: entry is refused before a
    third bus can join the occupants, so the queue depth
    [max(0, len(occ) - 2)] and its maximum are 0 at every tick of every
    run. *)
Theorem queue_depth_always_zero (req : SimRequest) (offsets : gmap string Z)
    (rs : rng) (car_depart_times : list Q) (schedule : string -> list Q) (n : nat) :
  exists s,
    run_ticks req offsets rs car_depart_times schedule n = Some s
    /\ forall sx, mon_queue_now (stops (shared s) sx) = 0
                  /\ mon_queue_max (stops (shared s) sx) = 0.
Proof.
  destruct (run_ticks_ok req offsets rs car_depart_times schedule n) as (s & E & _).
  exists s. split; [exact E|].
  destruct (run_ticks_accounts _ _ _ _ _ _ _ E) as ((_ & _ & _ & _ & _ & Hq) & _).
  exact Hq.
Qed.

Lemma round_of_integer q k : (q == inject_Z k)%Q -> Py.round q = k.
Proof.
  intros H. unfold Py.round.
  assert (Hf : Qfloor q = k) by (rewrite (Qfloor_comp _ _ H); apply Qfloor_Z).
  rewrite Hf.
  assert (E : Py.ltb (q - inject_Z k) (1 # 2) = true) by (apply Py.ltb_lt; lra).
  now rewrite E.
Qed.

(** No vehicle's stop count is ever raised, so the stop KPIs carry no
    information: at the end of every run the mean number of stops is 0, and
    the progression rate is 1 as soon as one car has left the corridor (0
    when none has). *)
Theorem stops_never_counted (req : SimRequest) (offsets : gmap string Z) (rs : rng)
    (car_depart_times : list Q) (schedule : string -> list Q) :
  exists s,
    run_loop req offsets rs car_depart_times schedule = Some s
    /\ Forall (fun v => veh_stops_count v = 0) (vehicles s)
    /\ car_zero_stop s = car_exited s
    /\ (avg_stops_main (compute_kpis req s) == 0)%Q
    /\ (0 < car_exited s -> (progression_rate (compute_kpis req s) == 1)%Q)
    /\ (car_exited s = 0 -> (progression_rate (compute_kpis req s) == 0)%Q).
Proof.
  unfold run_loop.
  destruct (run_ticks_ok req offsets rs car_depart_times schedule (Z.to_nat (STEPS req)))
    as (s & E & _).
  exists s. split; [exact E|].
  destruct (run_ticks_accounts _ _ _ _ _ _ _ E) as ((_ & Hvs & Hz & Hsum & _) & _).
  split; [exact Hvs|]. split; [exact Hz|].
  unfold compute_kpis. cbn [avg_stops_main progression_rate]. rewrite Hz, Hsum.
  split; [|split].
  - unfold Py.round_n. rewrite (round_of_integer _ 0); [reflexivity|].
    unfold Qdiv. rewrite !Qmult_0_l. reflexivity.
  - intros Hpos. unfold Py.round_n.
    rewrite (round_of_integer _ 10000); [reflexivity|].
    rewrite Z.max_r by lia.
    assert (Hnz : ~ (inject_Z (car_exited s) == 0)%Q).
    { unfold Qeq, inject_Z. simpl. lia. }
    change (inject_Z (10 ^ Z.of_nat 4)) with (inject_Z 10000).
    field. exact Hnz.
  - intros H0. rewrite H0. reflexivity.
Qed.

Lemma stops_never_counted_witness :
  exists s,
    run_loop long_request fixed_offsets steady_rng [2 # 1]%Q twin_schedule = Some s
    /\ car_exited s = 1
    /\ (progression_rate (compute_kpis long_request s) == 1)%Q.
Proof.
  destruct (stops_never_counted long_request fixed_offsets steady_rng [2 # 1]%Q
              twin_schedule) as (s & E & _ & _ & _ & Hp & _).
  assert (Hx : car_exited s = 1).
  { assert (Hrun : car_exited <$> run_loop long_request fixed_offsets steady_rng
                                    [2 # 1]%Q twin_schedule = Some 1)
      by (vm_compute; reflexivity).
    rewrite E in Hrun. now injection Hrun. }
  exists s. split; [exact E|]. split; [exact Hx|]. apply Hp. rewrite Hx. reflexivity.
Defined.

(** *** The demand timeline *)

Lemma uniform_range rs k a b :
  rng_in_range rs -> (a <= b)%Q ->
  (a <= uniform rs k a b)%Q /\ (uniform rs k a b <= b)%Q.
Proof.
  intros [Hu _] Hab. destruct (Hu k) as [H0 H1]. unfold uniform.
  set (r := random_unit rs k) in *. clearbody r. split; nra.
Qed.

Lemma burst_loop_in_run rs n steps t_end : rng_in_range rs ->
  forall t_burst st,
  (2 # 10 <= t_burst)%Q ->
  Forall (in_run steps) (car_depart_times st) ->
  Forall (in_run steps) (car_depart_times (burst_loop rs n t_burst t_end steps st)).
Proof.
  intros Hrs. induction n as [|n IH]; intros t_burst st Ht Hst; cbn [burst_loop].
  - exact Hst.
  - destruct (Py.ltb t_burst t_end && Py.ltb t_burst steps) eqn:E.
    + apply andb_true_iff in E as [_ E]. apply Py.ltb_lt in E.
      destruct (uniform_range rs (n_unit st) (35 # 100) (6 # 10) Hrs ltac:(discriminate))
        as [Hu _].
      apply IH; [lra|]. cbn [car_depart_times].
      apply Forall_app. split; [exact Hst|].
      constructor; [split; lra | constructor].
    + apply IH; assumption.
Qed.

Lemma depart_loop_in_run req rs steps t_end : rng_in_range rs ->
  forall fuel t st st',
  (25 # 100 <= t)%Q ->
  Forall (in_run steps) (car_depart_times st) ->
  depart_loop req rs fuel t t_end steps st = Some st' ->
  Forall (in_run steps) (car_depart_times st').
Proof.
  intros Hrs. induction fuel as [|fuel IH]; intros t st st' Ht Hst; cbn [depart_loop].
  - destruct (Py.ltb t t_end && Py.ltb t steps); [discriminate|]. now intros [= <-].
  - destruct (Py.ltb t t_end && Py.ltb t steps) eqn:E; [|now intros [= <-]].
    apply andb_true_iff in E as [_ E]. apply Py.ltb_lt in E.
    destruct (uniform_range rs (n_unit st) (-10 # 100) (10 # 100) Hrs ltac:(discriminate))
      as [Hu1 Hu2].
    destruct (sample_headway_range req rs (n_lognormal st)) as [Hh _].
    apply IH; [lra|]. cbn [car_depart_times].
    apply Forall_app. split; [exact Hst|].
    constructor; [|constructor].
    destruct (Hrs) as [Hr _]. destruct (Hr (n_unit st)) as [_ Hlt].
    unfold in_run. unfold uniform in *. split; [lra|].
    set (r := random_unit rs (n_unit st)) in *. clearbody r. nra.
Qed.

Lemma max_zero_nonneg q : (0 <= Py.max 0 q)%Q.
Proof.
  unfold Py.max. destruct (Py.ltb 0 q) eqn:E;
    [apply Py.ltb_lt in E | apply Py.ltb_ge in E]; lra.
Qed.

Lemma window_loop_in_run req rs offset_J1 : rng_in_range rs ->
  forall fuel k st st',
  Forall (in_run (inject_Z (STEPS req))) (car_depart_times st) ->
  window_loop req rs offset_J1 fuel k st = Some st' ->
  Forall (in_run (inject_Z (STEPS req))) (car_depart_times st').
Proof.
  intros Hrs. induction fuel as [|fuel IH]; intros k st st' Hst; cbn [window_loop].
  - destruct (STEPS req <? k * C req - offset_J1); [now intros [= <-] | discriminate].
  - destruct (STEPS req <? k * C req - offset_J1); [now intros [= <-]|].
    cbv zeta.
    pose proof (max_zero_nonneg (inject_Z (k * C req - offset_J1))) as Hm.
    destruct (uniform_range rs (n_unit st) (25 # 100) (9 # 10) Hrs ltac:(discriminate))
      as [Hu _].
    match goal with
    | |- (depart_loop req rs ?f ?t ?te ?sp ?s0 ≫= _) = _ -> _ =>
        destruct (depart_loop req rs f t te sp s0) as [st1|] eqn:E1; [|discriminate];
        assert (Ht : (25 # 100 <= t)%Q) by lra;
        assert (H0 : Forall (in_run (inject_Z (STEPS req))) (car_depart_times s0))
    end.
    { destruct (target_vph req >=? 1800); [|exact Hst].
      destruct (uniform_range rs (S (n_unit st)) (2 # 10) (6 # 10) Hrs ltac:(discriminate))
        as [Hb _].
      apply burst_loop_in_run; [exact Hrs| |exact Hst].
      cbn [n_unit]. lra. }
    cbn [mbind option_bind]. intros E2.
    apply (IH _ _ _ (depart_loop_in_run _ _ _ _ Hrs _ _ _ _ Ht H0 E1) E2).
Qed.

Lemma insert_time_in_run steps x l :
  in_run steps x -> Forall (in_run steps) l -> Forall (in_run steps) (insert_time x l).
Proof.
  intros Hx. induction 1 as [|y l Hy Hl IH]; cbn [insert_time].
  - constructor; [exact Hx | constructor].
  - destruct (Py.ltb x y); constructor; auto.
Qed.

Lemma sort_times_in_run steps l :
  Forall (in_run steps) l -> Forall (in_run steps) (sort_times l).
Proof.
  induction 1 as [|x l Hx Hl IH]; [constructor|].
  apply insert_time_in_run; assumption.
Qed.

(** Every car departure time of the generated demand lies inside the run:
    it is at least 0.15 s and less than [STEPS + 0.1], for every outcome of
    the random draws, so no car is scheduled before the run starts. *)
Theorem departures_inside_run (req : SimRequest) (offsets : gmap string Z)
    (rs : rng) (offset_J1 : Z) :
  rng_in_range rs -> 0 < cycle req -> offsets !! "J1" = Some offset_J1 ->
  exists times gaps,
    generate_demand req offsets rs = Some (times, gaps)
    /\ Forall (fun d => (15 # 100 <= d)%Q /\ (d < inject_Z (STEPS req) + (1 # 10))%Q)
              times.
Proof.
  intros Hrs HC Ho. unfold generate_demand. rewrite Ho. cbn [mbind option_bind].
  destruct (window_loop_total req rs offset_J1 (window_bound req offset_J1) 0
              {| car_depart_times := []; sampled := []; n_unit := 0; n_lognormal := 0 |}
              HC (window_bound_enough req offset_J1 HC)) as (st & E & _).
  rewrite E. cbn [mbind option_bind].
  exists (sort_times (car_depart_times st)), (sampled st). split; [reflexivity|].
  apply (sort_times_in_run (inject_Z (STEPS req))).
  refine (window_loop_in_run _ _ _ Hrs _ _ _ _ _ E). constructor.
Qed.

Lemma steady_rng_in_range : rng_in_range steady_rng.
Proof.
  split.
  - intros k. split; discriminate || reflexivity.
  - intros k m sg. reflexivity.
Qed.

Lemma departures_inside_run_witness :
  exists times gaps,
    generate_demand scenario_request {["J1" := 0]} steady_rng = Some (times, gaps)
    /\ Forall (fun d => (15 # 100 <= d)%Q
                        /\ (d < inject_Z (STEPS scenario_request) + (1 # 10))%Q) times.
Proof.
  apply (departures_inside_run scenario_request {["J1" := 0]} steady_rng 0).
  - exact steady_rng_in_range.
  - simpl. lia.
  - reflexivity.
Defined.

End AppGlide.
